(** * Schema <-> DDL transformation kernel of backend/app/main.py

    A shallow embedding of the forward generator
    ([generate_sql_from_structured_schema], [generate_table_sql]), of the
    reverse parser ([parse_sql_to_schema]) and of the statement splitter inside
    [execute_sql], together with the properties the specification states about
    them.

    Text model.  Python [str] values are modelled as [string], read as 7-bit
    ASCII text.  Characters above code 127 are outside the model: they are
    treated as opaque characters that are neither white space nor word
    characters and that case mapping leaves alone. *)

From Stdlib Require Import Ascii String List Bool Arith ZArith Lia.
From Stdlib Require DecimalString.
Import ListNotations.

Local Open Scope list_scope.
Local Open Scope string_scope.

(** ** Python string primitives *)

Module Py.

(** Code of a character. *)
Definition code (c : ascii) : nat := nat_of_ascii c.

Definition between (lo hi : nat) (c : ascii) : bool :=
  (lo <=? code c)%nat && (code c <=? hi)%nat.

Definition is_upper (c : ascii) : bool := between 65 90 c.
Definition is_lower (c : ascii) : bool := between 97 122 c.
Definition is_digit (c : ascii) : bool := between 48 57 c.

(** [str.isspace] on one ASCII character: TAB, LF, VT, FF, CR, the four
    separators FS..US and the blank.  [str.strip()] and the regex class
    [\s] use the same set. *)
Definition is_space (c : ascii) : bool :=
  between 9 13 c || between 28 32 c.

(** The regex class [\w]: alphanumeric or underscore. *)
Definition is_word (c : ascii) : bool :=
  is_upper c || is_lower c || is_digit c || (code c =? 95)%nat.

Definition lower_char (c : ascii) : ascii :=
  if is_upper c then ascii_of_nat (code c + 32) else c.

Definition upper_char (c : ascii) : ascii :=
  if is_lower c then ascii_of_nat (code c - 32) else c.

Fixpoint smap (f : ascii -> ascii) (s : string) : string :=
  match s with
  | EmptyString => EmptyString
  | String c s' => String (f c) (smap f s')
  end.

(** [s.lower()] and [s.upper()]. *)
Definition lower (s : string) : string := smap lower_char s.
Definition upper (s : string) : string := smap upper_char s.

(** [s.startswith(p)]. *)
Fixpoint startswith (p s : string) : bool :=
  match p with
  | EmptyString => true
  | String a p' =>
      match s with
      | EmptyString => false
      | String b s' => Ascii.eqb a b && startswith p' s'
      end
  end.

(** [s.endswith(suf)]: [suf] is [s] itself or a suffix of its tail. *)
Fixpoint endswith (suf s : string) : bool :=
  (s =? suf) ||
  match s with
  | EmptyString => false
  | String _ s' => endswith suf s'
  end.

(** [sub in s]. *)
Fixpoint contains (sub s : string) : bool :=
  startswith sub s ||
  match s with
  | EmptyString => false
  | String _ s' => contains sub s'
  end.

(** The line feed. *)
Definition nl : string := String "010" "".

(** Truth value of a string: non-empty. *)
Definition truthy (s : string) : bool :=
  match s with EmptyString => false | String _ _ => true end.

Fixpoint lstrip (s : string) : string :=
  match s with
  | EmptyString => EmptyString
  | String c s' => if is_space c then lstrip s' else s
  end.

Fixpoint rstrip (s : string) : string :=
  match s with
  | EmptyString => EmptyString
  | String c s' =>
      match rstrip s' with
      | EmptyString => if is_space c then EmptyString else String c EmptyString
      | r => String c r
      end
  end.

(** [s.strip()]. *)
Definition strip (s : string) : string := rstrip (lstrip s).

(** [s.split(sep)] for a one-character separator: always at least one
    fragment, empty fragments are kept. *)
Fixpoint split (sep : ascii) (s : string) : list string :=
  match s with
  | EmptyString => [EmptyString]
  | String c s' =>
      if Ascii.eqb c sep then EmptyString :: split sep s'
      else match split sep s' with
           | h :: t => String c h :: t
           | [] => [String c EmptyString]
           end
  end.

(** [sep.join(parts)]. *)
Definition join (sep : string) (parts : list string) : string :=
  String.concat sep parts.

(** Number of positions of [s] at which [p] occurs. *)
Fixpoint occurrences (p s : string) : nat :=
  (if startswith p s then 1 else 0)
  + match s with
    | EmptyString => 0
    | String _ s' => occurrences p s'
    end.

(** Number of occurrences of [p] in [a ++ b] that start inside [a]. *)
Fixpoint starts_in (p a b : string) : nat :=
  match a with
  | EmptyString => 0
  | String _ a' => (if startswith p (a ++ b) then 1 else 0) + starts_in p a' b
  end.

(** Every character of [s] satisfies [p]. *)
Fixpoint all_chars (p : ascii -> bool) (s : string) : bool :=
  match s with
  | EmptyString => true
  | String c s' => p c && all_chars p s'
  end.

Definition not_space (c : ascii) : bool := negb (is_space c).

(** No character of [s] is [sep]. *)
Definition no_char (sep : ascii) (s : string) : bool :=
  all_chars (fun c => negb (Ascii.eqb c sep)) s.

(** The last character of [s], if any. *)
Fixpoint last_char (s : string) : option ascii :=
  match s with
  | "" => None
  | String c "" => Some c
  | String _ s' => last_char s'
  end.

End Py.

(** ** Data model: the dictionaries that travel between the two pipelines *)

(** An entry of a table's ["columns"] list: a dictionary with ["name"] and
    ["type"], or a bare column name. *)
Inductive Column : Type :=
| ColDict (name type : string)
| ColName (name : string).

(** A table dictionary.  An absent ["attributes"] or ["columns"] key reads as
    the empty list ([table.get("attributes", [])], [table.get("columns")]). *)
Record Table : Type := mkTable {
  t_name : string;
  t_attributes : list string;
  t_columns : list Column
}.

(** A relationship dictionary; the generator reads these four keys and the
    parser writes exactly these four. *)
Record Relationship : Type := mkRel {
  fromTable : string;
  fromColumn : string;
  toTable : string;
  toColumn : string
}.

Record Schema : Type := mkSchema {
  tables : list Table;
  relationships : list Relationship
}.


(** ** Type and constraint inference (inlined in [generate_table_sql]) *)

Module Infer.
Import Py.

(** [attr.lower().endswith("_id") and not attr.lower().endswith("name")]:
    the test that selects both the INTEGER key type and the primary key. *)
Definition is_id_like (attr : string) : bool :=
  endswith "_id" (lower attr) && negb (endswith "name" (lower attr)).

(** [any(word in attr.lower() for word in ["age","price","amount","credits"])]. *)
Definition has_numeric_word (attr : string) : bool :=
  existsb (fun word => contains word (lower attr))
          ["age"; "price"; "amount"; "credits"].

(** The [data_type] chain of [if]/[elif]. *)
Definition data_type (attr : string) : string :=
  if is_id_like attr then "INTEGER"
  else if contains "date" (lower attr) then "DATE"
  else if contains "time" (lower attr) || contains "duration" (lower attr)
       then "INTEGER"
  else if has_numeric_word attr then "INTEGER"
  else "TEXT".

(** What the specification's rule 1 calls the id pattern: the lower-cased
    name ends with [_id] or with [id] and does not end with [name]. *)
Definition spec_id_pattern (attr : string) : bool :=
  (endswith "_id" (lower attr) || endswith "id" (lower attr))
  && negb (endswith "name" (lower attr)).

End Infer.

(** ** Forward generator *)

Module Gen.
Import Py Infer.

(** Attribute names of a table: ["attributes"], or the names found in
    ["columns"] when ["attributes"] is empty or absent. *)
Definition column_name (col : Column) : string :=
  match col with
  | ColDict n _ => n
  | ColName n => n
  end.

Definition table_attributes (table : Table) : list string :=
  match t_attributes table, t_columns table with
  | [], _ :: _ => map column_name (t_columns table)
  | attrs, _ => attrs
  end.

(** [enumerate(xs)]. *)
Definition enumerate {A : Type} (xs : list A) : list (nat * A) :=
  combine (seq 0 (length xs)) xs.

(** State of the attribute loop: the text so far and [has_primary_key]. *)
Definition attr_state : Type := (string * bool)%type.

(** One iteration of [for i, attr in enumerate(attributes)]. *)
Definition attr_step (n_attrs : nat) (any_relationships : bool)
    (st : attr_state) (ia : nat * string) : attr_state :=
  let '(sql, has_primary_key) := st in
  let '(i, attr) := ia in
  let is_last := (i =? n_attrs - 1)%nat in
  let sql := sql ++ "  " ++ attr ++ " " ++ data_type attr in
  let '(sql, has_primary_key) :=
    if negb has_primary_key && is_id_like attr
    then (sql ++ " PRIMARY KEY", true)
    else (sql, has_primary_key) in
  let sql := if contains "email" (lower attr) then sql ++ " UNIQUE" else sql in
  let sql := if contains "name" (lower attr) && negb (endswith "_id" (lower attr))
             then sql ++ " NOT NULL" else sql in
  let sql := if negb is_last || any_relationships then sql ++ "," else sql in
  (sql ++ nl, has_primary_key).

(** One iteration of [for i, rel in enumerate(table_relationships)]. *)
Definition fk_step (n_rels : nat) (sql : string) (ir : nat * Relationship)
    : string :=
  let '(i, rel) := ir in
  let sql := sql ++ "  FOREIGN KEY (" ++ fromColumn rel ++ ") REFERENCES "
                 ++ toTable rel ++ "s(" ++ toColumn rel ++ ")" in
  let sql := if (i <? n_rels - 1)%nat then sql ++ "," else sql in
  sql ++ nl.

(** [[rel for rel in relationships if rel["fromTable"] == table["name"]]]. *)
Definition table_relationships (table : Table) (rels : list Relationship)
    : list Relationship :=
  filter (fun rel => fromTable rel =? t_name table) rels.

Definition nonempty {A : Type} (xs : list A) : bool :=
  match xs with [] => false | _ :: _ => true end.

(** [generate_table_sql(table, all_tables, relationships)]; [all_tables] is
    not read by the body. *)
Definition generate_table_sql (table : Table) (all_tables : list Table)
    (rels : list Relationship) : string :=
  let table_name := t_name table ++ "s" in
  let sql := "CREATE TABLE IF NOT EXISTS " ++ table_name ++ " (" ++ nl in
  let attributes := table_attributes table in
  let '(sql, _) :=
    fold_left (attr_step (length attributes) (nonempty rels))
              (enumerate attributes) (sql, false) in
  let trels := table_relationships table rels in
  let sql := fold_left (fk_step (length trels)) (enumerate trels) sql in
  sql ++ ");".

(** *** The generated text in closed form

    The loops above append to [sql] piece by piece.  The definitions below
    describe the same text line by line; [GenFacts.generate_table_sql_shape]
    proves that they agree with [generate_table_sql]. *)

(** One line of a table body: two blanks, the content, an optional comma,
    a line feed. *)
Definition line (content : string) (comma : bool) : string :=
  "  " ++ content ++ (if comma then "," else "") ++ nl.

(** The constraint keywords after the type of [attr]; [pk] tells whether this
    attribute takes the primary key. *)
Definition constraints (attr : string) (pk : bool) : string :=
  (if pk then " PRIMARY KEY" else "")
  ++ (if contains "email" (lower attr) then " UNIQUE" else "")
  ++ (if contains "name" (lower attr) && negb (endswith "_id" (lower attr))
      then " NOT NULL" else "").

Definition attr_content (attr : string) (pk : bool) : string :=
  attr ++ " " ++ data_type attr ++ constraints attr pk.

(** Contents and comma flags of the attribute lines, from the value of
    [has_primary_key] before the first of them. *)
Fixpoint attr_entries (has_primary_key any_relationships : bool)
    (attrs : list string) : list (string * bool) :=
  match attrs with
  | [] => []
  | attr :: rest =>
      (attr_content attr (negb has_primary_key && is_id_like attr),
       nonempty rest || any_relationships)
      :: attr_entries (has_primary_key || is_id_like attr)
                      any_relationships rest
  end.

Definition fk_content (rel : Relationship) : string :=
  "FOREIGN KEY (" ++ fromColumn rel ++ ") REFERENCES "
  ++ toTable rel ++ "s(" ++ toColumn rel ++ ")".

Fixpoint fk_entries (rels : list Relationship) : list (string * bool) :=
  match rels with
  | [] => []
  | rel :: rest => (fk_content rel, nonempty rest) :: fk_entries rest
  end.

Fixpoint render (entries : list (string * bool)) : string :=
  match entries with
  | [] => EmptyString
  | (content, comma) :: rest => line content comma ++ render rest
  end.

(** Everything between the opening parenthesis and the closing [");"]. *)
Definition table_entries (table : Table) (rels : list Relationship)
    : list (string * bool) :=
  (attr_entries false (nonempty rels) (table_attributes table)
   ++ fk_entries (table_relationships table rels))%list.

Definition table_body (table : Table) (rels : list Relationship) : string :=
  nl ++ render (table_entries table rels).

(** The names that [generate_table_sql] writes for [table] hold no blank. *)
Definition blank_free_rel (rel : Relationship) : Prop :=
  no_char " " (fromColumn rel) = true /\ no_char " " (toTable rel) = true
  /\ no_char " " (toColumn rel) = true.

Definition blank_free_names (table : Table) (rels : list Relationship)
    : Prop :=
  no_char " " (t_name table) = true
  /\ Forall (fun attr => no_char " " attr = true) (table_attributes table)
  /\ Forall blank_free_rel (table_relationships table rels).

(** [generate_sql_from_structured_schema(schema)]. *)
Definition generate_sql_from_structured_schema (schema : Schema) : string :=
  join (nl ++ nl)
       (map (fun table =>
               generate_table_sql table (tables schema) (relationships schema))
            (tables schema)).

End Gen.

(** ** A backtracking matcher for the regular expressions of the parser

    The three patterns of [parse_sql_to_schema] use literals, the classes
    [\s], [\w] and [.] under [*], [+] and [*?], one optional non-capturing
    group and numbered capture groups.  The matcher below follows the
    priorities of Python's [re]: a greedy repetition tries the longest run
    first, a lazy one the shortest, an optional group is tried before it is
    skipped, and the first alternative that lets the rest of the pattern
    succeed wins. *)

Module Re.
Import Py.

Inductive cls : Type := Space | Word | Dot.

(** [re.IGNORECASE] and [re.DOTALL]. *)
Record flags : Type := mkFlags { ignorecase : bool; dotall : bool }.

Inductive regex : Type :=
| Lit (s : string)                          (* literal text *)
| Rep (c : cls) (min : nat) (greedy : bool) (* c{min,} or c{min,}? *)
| Cat (r1 r2 : regex)
| Opt (r : regex)                           (* (?:r)? *)
| Group (n : nat) (r : regex).              (* n-th capture group *)

Definition captures : Type := list (nat * string).

(** [m.group(n)]. *)
Fixpoint group (n : nat) (caps : captures) : string :=
  match caps with
  | [] => EmptyString
  | (i, v) :: rest => if (i =? n)%nat then v else group n rest
  end.

Definition in_class (fl : flags) (c : cls) (a : ascii) : bool :=
  match c with
  | Space => is_space a
  | Word => is_word a
  | Dot => dotall fl || negb (Ascii.eqb a "010")
  end.

Definition char_eq (fl : flags) (a b : ascii) : bool :=
  if ignorecase fl then Ascii.eqb (lower_char a) (lower_char b)
  else Ascii.eqb a b.

(** Match the literal [p] at the start of [s]; the text after it. *)
Fixpoint lit (fl : flags) (p s : string) : option string :=
  match p with
  | EmptyString => Some s
  | String a p' =>
      match s with
      | String b s' => if char_eq fl a b then lit fl p' s' else None
      | EmptyString => None
      end
  end.

(** The text consumed between [s] and its suffix [rest]. *)
Definition consumed (s rest : string) : string :=
  substring 0 (String.length s - String.length rest) s.

Section Matcher.
Context {A : Type}.

Definition orelse (x y : option A) : option A :=
  match x with Some _ => x | None => y end.

Fixpoint rep_greedy (p : ascii -> bool) (min : nat) (s : string)
    (k : string -> option A) {struct s} : option A :=
  let stop := if (min =? 0)%nat then k s else None in
  match s with
  | String c s' =>
      if p c then orelse (rep_greedy p (pred min) s' k) stop else stop
  | EmptyString => stop
  end.

Fixpoint rep_lazy (p : ascii -> bool) (min : nat) (s : string)
    (k : string -> option A) {struct s} : option A :=
  let more :=
    match s with
    | String c s' => if p c then rep_lazy p (pred min) s' k else None
    | EmptyString => None
    end in
  if (min =? 0)%nat then orelse (k s) more else more.

(** [rmatch fl r s caps k]: match [r] at the start of [s], then hand the
    remaining text and the groups to the continuation [k]; [None] when no
    way of matching [r] lets [k] succeed. *)
Fixpoint rmatch (fl : flags) (r : regex) (s : string) (caps : captures)
    (k : string -> captures -> option A) {struct r} : option A :=
  match r with
  | Lit p =>
      match lit fl p s with
      | Some s' => k s' caps
      | None => None
      end
  | Rep c min greedy =>
      (if greedy then rep_greedy else rep_lazy)
        (in_class fl c) min s (fun s' => k s' caps)
  | Cat r1 r2 =>
      rmatch fl r1 s caps (fun s' caps' => rmatch fl r2 s' caps' k)
  | Opt r1 =>
      orelse (rmatch fl r1 s caps k) (k s caps)
  | Group n r1 =>
      rmatch fl r1 s caps
             (fun s' caps' => k s' ((n, consumed s s') :: caps'))
  end.

End Matcher.

(** A match at the start of [s]: the text after the match and the groups. *)
Definition match_here (fl : flags) (r : regex) (s : string)
    : option (string * captures) :=
  rmatch fl r s [] (fun rest caps => Some (rest, caps)).

(** [re.match(r, s, flags)]: the groups of a match at position 0. *)
Definition re_match (fl : flags) (r : regex) (s : string) : option captures :=
  option_map snd (match_here fl r s).

(** [re.search(r, s, flags)]: the groups of the leftmost match. *)
Fixpoint search (fl : flags) (r : regex) (s : string) : option captures :=
  match match_here fl r s with
  | Some (_, caps) => Some caps
  | None =>
      match s with
      | String _ s' => search fl r s'
      | EmptyString => None
      end
  end.

(** [re.findall(r, s, flags)]: the groups of the successive non-overlapping
    matches, left to right.  [skip] counts the characters of the previous
    match that are still to be stepped over. *)
Fixpoint findall_from (fl : flags) (r : regex) (s : string) (skip : nat)
    {struct s} : list captures :=
  match skip with
  | S n =>
      match s with
      | String _ s' => findall_from fl r s' n
      | EmptyString => []
      end
  | O =>
      match match_here fl r s with
      | Some (rest, caps) =>
          caps ::
          match s with
          | String _ s' =>
              findall_from fl r s' (String.length s - String.length rest - 1)
          | EmptyString => []
          end
      | None =>
          match s with
          | String _ s' => findall_from fl r s' 0
          | EmptyString => []
          end
      end
  end.

Definition findall (fl : flags) (r : regex) (s : string) : list captures :=
  findall_from fl r s 0.

(** [t] is what remains of [s] after some prefix. *)
Definition suffix_of (t s : string) : Prop := exists u, s = u ++ t.

(** The text matched by a literal: equal to it, or equal up to case. *)
Definition lit_eq (fl : flags) (p u : string) : Prop :=
  if ignorecase fl then lower u = lower p else u = p.

(** [s] does not begin with a character of the class. *)
Definition stops (p : ascii -> bool) (s : string) : bool :=
  match s with
  | EmptyString => true
  | String c _ => negb (p c)
  end.

Declare Scope re_scope.
Delimit Scope re_scope with re.
Infix "@@" := Cat (at level 60, right associativity) : re_scope.

End Re.

(** ** Reverse parser *)

Module Parse.
Import Py Re.

Local Open Scope re_scope.

(** The pattern "CREATE\s+TABLE\s+(?:IF\s+NOT\s+EXISTS\s+)?(\w+)\s*\((.*?)\);". *)
Definition create_table_pattern : regex :=
  Lit "CREATE" @@ Rep Space 1 true @@ Lit "TABLE" @@ Rep Space 1 true @@
  Opt (Lit "IF" @@ Rep Space 1 true @@ Lit "NOT" @@ Rep Space 1 true @@
       Lit "EXISTS" @@ Rep Space 1 true) @@
  Group 1 (Rep Word 1 true) @@ Rep Space 0 true @@ Lit "(" @@
  Group 2 (Rep Dot 0 false) @@ Lit ");".

(** The pattern "FOREIGN\s+KEY\s*\((\w+)\)\s*REFERENCES\s+(\w+)\s*\((\w+)\)". *)
Definition foreign_key_pattern : regex :=
  Lit "FOREIGN" @@ Rep Space 1 true @@ Lit "KEY" @@ Rep Space 0 true @@
  Lit "(" @@ Group 1 (Rep Word 1 true) @@ Lit ")" @@ Rep Space 0 true @@
  Lit "REFERENCES" @@ Rep Space 1 true @@ Group 2 (Rep Word 1 true) @@
  Rep Space 0 true @@ Lit "(" @@ Group 3 (Rep Word 1 true) @@ Lit ")".

(** The pattern "(\w+)\s+(\w+)(?:\s+ANY)?", where ANY is a dot under a
    greedy star. *)
Definition column_pattern : regex :=
  Group 1 (Rep Word 1 true) @@ Rep Space 1 true @@ Group 2 (Rep Word 1 true) @@
  Opt (Rep Space 1 true @@ Rep Dot 0 true).

(** [re.DOTALL | re.IGNORECASE], [re.IGNORECASE], and no flag. *)
Definition fl_dotall_icase : flags := mkFlags true true.
Definition fl_icase : flags := mkFlags true false.
Definition fl_none : flags := mkFlags false false.

(** State of the character scan over a table body:
    [paren_count], [current_line], [column_definitions]. *)
Definition split_state : Type := (Z * string * list string)%type.

(** [column_definitions.append(current_line.strip())] under
    [if current_line.strip()]. *)
Definition flush (current_line : string) (defs : list string) : list string :=
  if truthy (strip current_line) then (defs ++ [strip current_line])%list
  else defs.

(** One iteration of [for char in columns]. *)
Definition split_step (st : split_state) (char : ascii) : split_state :=
  let '(paren_count, current_line, defs) := st in
  if Ascii.eqb char "(" then
    ((paren_count + 1)%Z, current_line ++ String char "", defs)
  else if Ascii.eqb char ")" then
    ((paren_count - 1)%Z, current_line ++ String char "", defs)
  else if Ascii.eqb char "," && (paren_count =? 0)%Z then
    (paren_count, "", flush current_line defs)
  else
    (paren_count, current_line ++ String char "", defs).

Definition scan_body (columns : string) (st : split_state) : split_state :=
  fold_left split_step (list_ascii_of_string columns) st.

(** The list [column_definitions] built from a table body. *)
Definition column_definitions (columns : string) : list string :=
  let '(_, current_line, defs) := scan_body columns (0%Z, "", []) in
  flush current_line defs.

(** The depth counter of the scan after reading [s] from depth [d]. *)
Definition depth_step (d : Z) (c : ascii) : Z :=
  if Ascii.eqb c "(" then (d + 1)%Z
  else if Ascii.eqb c ")" then (d - 1)%Z
  else d.

Fixpoint depth_after (d : Z) (s : string) : Z :=
  match s with
  | EmptyString => d
  | String c s' => depth_after (depth_step d c) s'
  end.

(** Every comma of [s], read from depth [d], lies at a non-zero depth. *)
Fixpoint commas_nested (d : Z) (s : string) : bool :=
  match s with
  | EmptyString => true
  | String c s' =>
      negb (Ascii.eqb c "," && (d =? 0)%Z) && commas_nested (depth_step d c) s'
  end.

(** A definition that can stand before a separating comma: its own commas
    are nested and its parentheses are closed again at its end. *)
Definition closed_definition (d : string) : Prop :=
  commas_nested 0%Z d = true /\ depth_after 0%Z d = 0%Z.

(** The body made of the definitions [ds], each followed by a comma, and of
    a last definition [l]. *)
Definition join_definitions (ds : list string) (l : string) : string :=
  fold_right (fun d rest => d ++ String "," rest) l ds.

(** The stripped, non-empty ones among [ds], in order. *)
Definition stripped_nonempty (ds : list string) : list string :=
  filter truthy (map strip ds).

(** A definition that the scan returns unchanged: it is stripped and not
    empty, its commas are nested and its parentheses are closed. *)
Definition clean_definition (d : string) : Prop :=
  strip d = d /\ d <> "" /\ closed_definition d.

(** In a list of lines (content and comma flag) every line but the last
    ends with a comma. *)
Fixpoint commas_between (entries : list (string * bool)) : Prop :=
  match entries with
  | [] => True
  | (_, comma) :: rest => (rest = [] \/ comma = true) /\ commas_between rest
  end.

(** State of the loop over the definitions of one table:
    [attributes], [columns_data] and the schema-wide [relationships]. *)
Definition def_state : Type :=
  (list string * list Column * list Relationship)%type.

(** One iteration of [for line in column_definitions]. *)
Definition def_step (table_name : string) (st : def_state) (line : string)
    : def_state :=
  let '(attributes, columns_data, rels) := st in
  let line := strip line in
  if negb (truthy line) then st
  else if startswith "FOREIGN KEY" (upper line) then
    match search fl_icase foreign_key_pattern line with
    | Some fk_match =>
        (attributes, columns_data,
         (rels ++ [mkRel table_name (group 1 fk_match) (group 2 fk_match)
                         (group 3 fk_match)])%list)
    | None => st
    end
  else
    match re_match fl_none column_pattern line with
    | Some col_match =>
        let col_name := group 1 col_match in
        let col_type := group 2 col_match in
        ((attributes ++ [col_name])%list,
         (columns_data ++ [ColDict col_name col_type])%list, rels)
    | None => st
    end.

(** What a column recorded by the parser looks like: a dictionary whose
    name and type are non-empty words. *)
Definition well_named (col : Column) : Prop :=
  exists n ty, col = ColDict n ty
               /\ n <> "" /\ ty <> ""
               /\ all_chars is_word n = true /\ all_chars is_word ty = true.

(** What one match contributes when the loop over its definitions starts
    from empty lists: its table and its relationships. *)
Definition table_of_match (m : captures) : Table * list Relationship :=
  let '(attributes, columns_data, rels) :=
    fold_left (def_step (group 1 m)) (column_definitions (group 2 m))
              ([], [], []) in
  (mkTable (group 1 m) attributes columns_data, rels).

(** State of the loop over the matches: [tables] and [relationships]. *)
Definition parse_state : Type := (list Table * list Relationship)%type.

(** One iteration of [for table_name, columns in matches]. *)
Definition table_step (st : parse_state) (m : captures) : parse_state :=
  let '(tbls, rels) := st in
  let table_name := group 1 m in
  let columns := group 2 m in
  let '(attributes, columns_data, rels) :=
    fold_left (def_step table_name) (column_definitions columns)
              ([], [], rels) in
  ((tbls ++ [mkTable table_name attributes columns_data])%list, rels).

(** [parse_sql_to_schema(sql)].  Every operation of the [try] body is total
    on strings, so the [except] branch is never taken and the function is its
    [try] body. *)
Definition parse_sql_to_schema (sql : string) : Schema :=
  let matches := findall fl_dotall_icase create_table_pattern sql in
  let '(tbls, rels) := fold_left table_step matches ([], []) in
  mkSchema tbls rels.

(** No match of the CREATE TABLE pattern starts inside the prefix [junk]
    of the text [junk ++ sql]. *)
Fixpoint no_block_starts_in (junk sql : string) : bool :=
  match junk with
  | EmptyString => true
  | String _ junk' =>
      match match_here fl_dotall_icase create_table_pattern (junk ++ sql) with
      | Some _ => false
      | None => no_block_starts_in junk' sql
      end
  end.

End Parse.

(** ** Statement splitter of [execute_sql] *)

Module Exec.
Import Py.

(** [[stmt.strip() for stmt in sql.split(';') if stmt.strip()]]. *)
Definition statements (sql : string) : list string :=
  map strip (filter (fun stmt => truthy (strip stmt)) (split ";" sql)).

(** The splitter as the specification words it, for comparison with
    [statements]: only a semicolon outside every pair of parentheses
    separates two statements. *)
Fixpoint split_top_level (sep : ascii) (depth : Z) (s : string)
    : list string :=
  match s with
  | EmptyString => [EmptyString]
  | String c s' =>
      if Ascii.eqb c sep && (depth =? 0)%Z then
        EmptyString :: split_top_level sep depth s'
      else
        let depth' := if Ascii.eqb c "(" then (depth + 1)%Z
                      else if Ascii.eqb c ")" then (depth - 1)%Z
                      else depth in
        match split_top_level sep depth' s' with
        | h :: t => String c h :: t
        | [] => [String c EmptyString]
        end
  end.

Definition top_level_statements (sql : string) : list string :=
  map strip (filter (fun stmt => truthy (strip stmt))
                    (split_top_level ";" 0%Z sql)).

End Exec.

(** ** What the reverse parser returns on generated text *)

Module Trip.
Import Py Infer Gen.

(** A non-empty run of word characters: what the group [(\w+)] can hold. *)
Definition identifier (s : string) : Prop :=
  all_chars is_word s = true /\ s <> "".

(** The columns and the referenced column of a relationship are
    identifiers; the referenced table is made of word characters. *)
Definition word_rel (rel : Relationship) : Prop :=
  identifier (fromColumn rel)
  /\ all_chars is_word (toTable rel) = true
  /\ identifier (toColumn rel).

(** The name of the table is made of word characters, its attributes are
    identifiers and so are the columns of its relationships. *)
Definition word_table (rels : list Relationship) (table : Table) : Prop :=
  all_chars is_word (t_name table) = true
  /\ Forall identifier (table_attributes table)
  /\ Forall word_rel (table_relationships table rels).

Definition word_schema (schema : Schema) : Prop :=
  Forall (word_table (relationships schema)) (tables schema).

(** The table read back: the name carries the plural s of the generator,
    the attributes are those written, each column has the type written. *)
Definition reparsed_table (table : Table) : Table :=
  mkTable (t_name table ++ "s") (table_attributes table)
          (map (fun attr => ColDict attr (data_type attr))
               (table_attributes table)).

(** The relationship read back from the block of [table]: both table names
    carry the plural s. *)
Definition reparsed_rel (table : Table) (rel : Relationship) : Relationship :=
  mkRel (t_name table ++ "s") (fromColumn rel) (toTable rel ++ "s")
        (toColumn rel).

(** The schema read back: one table per table, and the relationships block
    by block, each block holding those that start at its table. *)
Definition reparsed (schema : Schema) : Schema :=
  mkSchema
    (map reparsed_table (tables schema))
    (flat_map (fun table =>
                 map (reparsed_rel table)
                     (table_relationships table (relationships schema)))
              (tables schema)).

(** The endpoints of a relationship. *)
Definition endpoints (rel : Relationship)
    : string * string * string * string :=
  (fromTable rel, fromColumn rel, toTable rel, toColumn rel).

End Trip.

(** ** Further definitions used by the properties of the generator *)

Module GenMore.
Import Py Infer Gen.

(** The names that [generate_table_sql] writes for [table] hold no
    character [x]. *)
Definition rel_without (x : ascii) (rel : Relationship) : Prop :=
  no_char x (fromColumn rel) = true /\ no_char x (toTable rel) = true
  /\ no_char x (toColumn rel) = true.

Definition names_without (x : ascii) (rels : list Relationship)
    (table : Table) : Prop :=
  no_char x (t_name table) = true
  /\ Forall (fun attr => no_char x attr = true) (table_attributes table)
  /\ Forall (rel_without x) (table_relationships table rels).

(** The text of a table without its final semicolon: the statement that
    [execute_sql] hands to the cursor. *)
Definition table_statement (table : Table) (rels : list Relationship)
    : string :=
  "CREATE TABLE IF NOT EXISTS " ++ t_name table ++ "s ("
  ++ table_body table rels ++ ")".

(** White space or a semicolon. *)
Definition is_space_or_semicolon (c : ascii) : bool :=
  is_space c || Ascii.eqb c ";".

End GenMore.

(** ** DROP TABLE commands and the check of table names *)

Module Drop.
Import Py Re Exec.

(** [generate_drop_table_sql(table_name)]. *)
Definition generate_drop_table_sql (table_name : string) : string :=
  "DROP TABLE IF EXISTS " ++ table_name ++ ";".

(** [generate_drop_tables_sql(table_names)]. *)
Definition generate_drop_tables_sql (table_names : list string) : string :=
  match table_names with
  | [] => "-- No tables to drop"
  | _ :: _ => join nl (map generate_drop_table_sql table_names)
  end.

(** The classes [a-zA-Z_] and [a-zA-Z0-9_] of the name pattern. *)
Definition is_name_start (c : ascii) : bool :=
  is_lower c || is_upper c || (code c =? 95)%nat.

Definition is_name_char (c : ascii) : bool :=
  is_lower c || is_upper c || is_digit c || (code c =? 95)%nat.

(** The anchor [$] without [re.MULTILINE]: the end of the text, or the place
    before a line feed that ends the text. *)
Definition at_end (s : string) : bool :=
  match s with
  | EmptyString => true
  | String c EmptyString => Ascii.eqb c "010"
  | String _ (String _ _) => false
  end.

(** [re.match(r'^[a-zA-Z_][a-zA-Z0-9_]*$', table_name)] as a truth value:
    one character of the first class, a greedy run of the second, the end
    anchor. *)
Definition valid_table_name (table_name : string) : bool :=
  match table_name with
  | EmptyString => false
  | String c rest =>
      is_name_start c
      && match rep_greedy is_name_char 0 rest
                 (fun r => if at_end r then Some tt else None) with
         | Some _ => true
         | None => false
         end
  end.

(** [str(n)] for a length. *)
Definition str_of_nat (n : nat) : string :=
  DecimalString.NilZero.string_of_uint (Nat.to_uint n).

(** What an endpoint does: it returns a dictionary or raises an
    [HTTPException] with a status code. *)
Inductive outcome (A : Type) : Type :=
| Returned (a : A)
| Raised (status : nat).
Arguments Returned {A} a.
Arguments Raised {A} status.

(** The tables that [generate_drop_sql] never lists. *)
Definition protected_tables : list string :=
  ["sqlite_master"; "sqlite_sequence"; "test_table"; "saved_schemas"].

(** [x in xs] on strings. *)
Definition mem (x : string) (xs : list string) : bool :=
  existsb (String.eqb x) xs.

(** The dictionary returned by [generate_drop_sql]. *)
Record drop_all : Type := mkDropAll {
  da_success : bool;
  da_sql : string;
  da_tables : list string;
  da_message : string
}.

(** [generate_drop_sql()]; [tables] is what [get_all_tables()] returned.
    Nothing in the [try] body raises. *)
Definition generate_drop_sql (tables : list string) : outcome drop_all :=
  let user_tables := filter (fun t => negb (mem t protected_tables)) tables in
  match user_tables with
  | [] =>
      Returned (mkDropAll true "-- No user tables to drop" []
                          "No user tables found")
  | _ :: _ =>
      let drop_sql := generate_drop_tables_sql user_tables in
      Returned (mkDropAll true drop_sql user_tables
                  ("Generated DROP statements for "
                   ++ str_of_nat (length user_tables) ++ " tables"))
  end.

(** The dictionary returned by [generate_drop_sql_for_table]; the key
    ["table_name"] is present on success only. *)
Record drop_one : Type := mkDropOne {
  do_success : bool;
  do_sql : string;
  do_table_name : option string;
  do_message : string
}.

(** The [try] body of [generate_drop_sql_for_table(table_name)]. *)
Definition drop_sql_for_table_body (tables : list string)
    (table_name : string) : outcome drop_one :=
  if negb (valid_table_name table_name) then Raised 400
  else if negb (mem table_name tables) then
    Returned (mkDropOne false "" None
                ("Table '" ++ table_name ++ "' does not exist"))
  else
    let drop_sql := generate_drop_table_sql table_name in
    Returned (mkDropOne true drop_sql (Some table_name)
                ("Generated DROP statement for table '" ++ table_name ++ "'")).

(** [generate_drop_sql_for_table(table_name)]: [except Exception] catches
    whatever the body raises, the [HTTPException] of the name check
    included, and raises status 500 in its place. *)
Definition generate_drop_sql_for_table (tables : list string)
    (table_name : string) : outcome drop_one :=
  match drop_sql_for_table_body tables table_name with
  | Returned r => Returned r
  | Raised _ => Raised 500
  end.

(** A table name that the splitter leaves whole: not empty, no white space
    at its ends, no semicolon. *)
Definition plain_name (n : string) : Prop :=
  n <> "" /\ strip n = n /\ no_char ";" n = true.

End Drop.

(** ** [execute_sql] over an abstract connection *)

Module Run.
Import Py Exec.

Section ExecuteSql.

(** The state of the SQLite connection, the rows it returns, and what the
    library calls of [execute_sql] do: each one raises (an error text) or
    goes on.  [opened] is [sqlite3.connect(DB_PATH)] with [conn.cursor()];
    [execute] is [cursor.execute(statement)]; [fetch] reads
    [cursor.description] and [cursor.fetchall()]; [commit] is
    [conn.commit()] with [conn.close()]. *)
Variable Conn : Type.
Variable Row : Type.
Variable opened : string + Conn.
Variable execute : string -> Conn -> string + Conn.
Variable fetch : Conn -> string + (list string * list Row).
Variable commit : Conn -> string + unit.

(** One entry of ["results"]. *)
Inductive result : Type :=
| Select (columns : list string) (rows : list Row)
| Dml (message : string).

(** The dictionary returned. *)
Inductive response : Type :=
| Success (results : list result)
| Failure (error : string).

(** [statement.upper().startswith('SELECT')]. *)
Definition is_select (statement : string) : bool :=
  startswith "SELECT" (upper statement).

(** One iteration of [for statement in statements]. *)
Definition run_statement (statement : string) (conn : Conn)
    : string + (Conn * result) :=
  match execute statement conn with
  | inl e => inl e
  | inr conn' =>
      if is_select statement then
        match fetch conn' with
        | inl e => inl e
        | inr (columns, rows) => inr (conn', Select columns rows)
        end
      else inr (conn', Dml "Statement executed successfully")
  end.

(** The loop, from the connection and the results so far. *)
Fixpoint run_statements (stmts : list string) (conn : Conn)
    (results : list result) : string + (Conn * list result) :=
  match stmts with
  | [] => inr (conn, results)
  | statement :: rest =>
      match run_statement statement conn with
      | inl e => inl e
      | inr (conn', r) => run_statements rest conn' (results ++ [r])%list
      end
  end.

(** [execute_sql(sql)]: the [except] branch turns whatever was raised into
    a failure that carries its text. *)
Definition execute_sql (sql : string) : response :=
  match opened with
  | inl e => Failure e
  | inr conn =>
      match run_statements (statements sql) conn [] with
      | inl e => Failure e
      | inr (conn', results) =>
          match commit conn' with
          | inl e => Failure e
          | inr _ => Success results
          end
      end
  end.

(** The kind of an entry: [true] for SELECT. *)
Definition is_select_result (r : result) : bool :=
  match r with Select _ _ => true | Dml _ => false end.

End ExecuteSql.

Arguments Select {Row} columns rows.
Arguments Dml {Row} message.
Arguments Success {Row} results.
Arguments Failure {Row} error.

End Run.

(** ** Shapes of the texts the reverse parser reads *)

Module ParseMore.
Import Py.

(** A non-empty run of word characters (letters, digits, underscore). *)
Definition word_name (s : string) : Prop :=
  s <> "" /\ all_chars is_word s = true.

(** A non-empty run of white space. *)
Definition blanks (ws : string) : Prop :=
  ws <> "" /\ all_chars is_space ws = true.

(** Nothing, or the words IF NOT EXISTS in any letter case, separated and
    followed by white space. *)
Definition if_not_exists_clause (opt : string) : Prop :=
  opt = ""
  \/ exists I N E ws1 ws2 ws3,
       opt = I ++ ws1 ++ N ++ ws2 ++ E ++ ws3
       /\ upper I = "IF" /\ upper N = "NOT" /\ upper E = "EXISTS"
       /\ blanks ws1 /\ blanks ws2 /\ blanks ws3.

(** A definition whose parentheses are matched - no closing parenthesis
    without an opening one before it, none left open - and whose commas
    all lie inside a pair of parentheses.  [d] counts the parentheses that
    are open. *)
Fixpoint properly_nested_from (d : nat) (s : string) : bool :=
  match s with
  | EmptyString => (d =? 0)%nat
  | String c s' =>
      if Ascii.eqb c "(" then properly_nested_from (S d) s'
      else if Ascii.eqb c ")" then
        match d with
        | O => false
        | S d' => properly_nested_from d' s'
        end
      else if Ascii.eqb c "," then
        match d with
        | O => false
        | S _ => properly_nested_from d s'
        end
      else properly_nested_from d s'
  end.

Definition properly_nested (s : string) : bool := properly_nested_from 0 s.

(** A relationship recorded while the table [tn] is read: it starts from
    [tn], and its three other fields are words. *)
Definition rel_from (tn : string) (r : Relationship) : Prop :=
  fromTable r = tn /\ word_name (fromColumn r)
  /\ word_name (toTable r) /\ word_name (toColumn r).

(** The first half of a foreign-key clause, for the column [fc]: the
    words FOREIGN and KEY in any letter case, separated by white space,
    and the column in parentheses. *)
Definition key_part (s fc : string) : Prop :=
  exists F ws0 K ws1,
    s = F ++ ws0 ++ K ++ ws1 ++ "(" ++ fc ++ ")"
    /\ upper F = "FOREIGN" /\ upper K = "KEY"
    /\ blanks ws0 /\ all_chars is_space ws1 = true /\ word_name fc.

(** A well-formed REFERENCES clause, for the table [tt] and the column
    [tc]: the word REFERENCES in any letter case, white space, the table,
    and the column in parentheses. *)
Definition references_part (s tt tc : string) : Prop :=
  exists R ws3 ws4,
    s = R ++ ws3 ++ tt ++ ws4 ++ "(" ++ tc ++ ")"
    /\ upper R = "REFERENCES"
    /\ blanks ws3 /\ all_chars is_space ws4 = true
    /\ word_name tt /\ word_name tc.

(** A whole foreign-key clause: the two halves, with or without white
    space between them. *)
Definition foreign_key_clause (s fc tt tc : string) : Prop :=
  exists k ws2 r,
    s = k ++ ws2 ++ r
    /\ key_part k fc /\ all_chars is_space ws2 = true
    /\ references_part r tt tc.

(** Somewhere in [line] there is a foreign-key clause, or a REFERENCES
    clause. *)
Definition has_foreign_key_clause (line : string) : Prop :=
  exists pre s rest fc tt tc,
    line = pre ++ s ++ rest /\ foreign_key_clause s fc tt tc.

Definition has_references_clause (line : string) : Prop :=
  exists pre r rest tt tc,
    line = pre ++ r ++ rest /\ references_part r tt tc.




End ParseMore.

(** ** Cleaning the text of an AI answer *)

Module Clean.
Import Py Re Parse.

Local Open Scope re_scope.

(** A pattern tried at one position of the text: it sees the character
    before the position, if any, and the text from the position on, and
    returns the text after the match. *)
Definition matcher : Type := option ascii -> string -> option string.

(** [re.sub(pattern, repl, s)] for a pattern that matches no empty text,
    which is the case of the five patterns of [clean_sql_response]: the
    text is read from left to right, a match is replaced by [repl] and the
    scan resumes after it, any other character is copied.  [skip] counts
    the characters of the last match still to be stepped over. *)
Fixpoint sub_from (m : matcher) (repl : string) (prev : option ascii)
    (s : string) (skip : nat) {struct s} : string :=
  match s with
  | EmptyString => EmptyString
  | String c s' =>
      match skip with
      | S n => sub_from m repl (Some c) s' n
      | O =>
          match m prev s with
          | Some rest =>
              repl ++ sub_from m repl (Some c) s'
                               (String.length s - String.length rest - 1)
          | None => String c (sub_from m repl (Some c) s' 0)
          end
      end
  end.

Definition sub (m : matcher) (repl : string) (s : string) : string :=
  sub_from m repl None s 0.

(** A pattern without anchors, tried with no flag. *)
Definition of_regex (r : regex) : matcher :=
  fun _ s => option_map fst (match_here fl_none r s).

(** The pattern of three backquotes, "sql" and an optional line feed, and
    the pattern of three backquotes and an optional line feed. *)
Definition fence_sql : regex := Lit "```sql" @@ Opt (Lit nl).
Definition fence : regex := Lit "```" @@ Opt (Lit nl).

(** The pattern "\n\s*\n\s*\n". *)
Definition blank_lines : regex :=
  Lit nl @@ Rep Space 0 true @@ Lit nl @@ Rep Space 0 true @@ Lit nl.

(** [^] and [$] under [re.MULTILINE]: at the start of the text or just
    after a line feed; at the end of the text or just before a line feed. *)
Definition at_bol (prev : option ascii) : bool :=
  match prev with
  | None => true
  | Some c => Ascii.eqb c "010"
  end.

Definition at_eol (s : string) : bool :=
  match s with
  | EmptyString => true
  | String c _ => Ascii.eqb c "010"
  end.

(** The pattern "^\*\*ANY\*\*$" under MULTILINE, where ANY is a dot under
    a greedy star: a whole line between two pairs of asterisks. *)
Definition bold_line : matcher :=
  fun prev s =>
    if at_bol prev then
      rmatch fl_none
             (Lit "**" @@ Rep Dot 0 true @@ Lit "**") s []
             (fun rest _ => if at_eol rest then Some rest else None)
    else None.

Definition is_hash (c : ascii) : bool := Ascii.eqb c "#".

(** The pattern "^#+ANY$" under MULTILINE: a whole line that begins with
    a hash sign. *)
Definition heading_line : matcher :=
  fun prev s =>
    if at_bol prev then
      rep_greedy is_hash 1 s
        (fun s1 =>
           rep_greedy (in_class fl_none Dot) 0 s1
             (fun rest => if at_eol rest then Some rest else None))
    else None.

(** [clean_sql_response(sql)]. *)
Definition clean_sql_response (sql : string) : string :=
  let clean_sql := sub (of_regex fence_sql) "" sql in
  let clean_sql := sub (of_regex fence) "" clean_sql in
  let clean_sql := strip clean_sql in
  let clean_sql := sub bold_line "" clean_sql in
  let clean_sql := sub heading_line "" clean_sql in
  let clean_sql := sub (of_regex blank_lines) (nl ++ nl) clean_sql in
  clean_sql.

(** Some line of [s] begins with [p]; [prev] is the character before [s]. *)
Fixpoint line_starts (p : string) (prev : option ascii) (s : string) : bool :=
  (at_bol prev && startswith p s)
  || match s with
     | EmptyString => false
     | String c s' => line_starts p (Some c) s'
     end.

(** The pattern [m] matches at no position of [s]. *)
Fixpoint never (m : matcher) (prev : option ascii) (s : string) : Prop :=
  match s with
  | EmptyString => True
  | String c s' => m prev s = None /\ never m (Some c) s'
  end.

(** The character before the position reached after reading [u]. *)
Definition last_of (prev : option ascii) (u : string) : option ascii :=
  match last_char u with
  | Some c => Some c
  | None => prev
  end.

End Clean.

(** * Properties *)

(** ** Facts about the string primitives *)

Module PyFacts.
Import Py.

Lemma append_nil_r (s : string) : s ++ "" = s.
Proof. induction s as [|c s IH]; simpl; [reflexivity | now rewrite IH]. Qed.

Lemma append_assoc (a b c : string) : (a ++ b) ++ c = a ++ (b ++ c).
Proof. induction a as [|x a IH]; simpl; [reflexivity | now rewrite IH]. Qed.

Lemma length_append (a b : string) :
  String.length (a ++ b) = String.length a + String.length b.
Proof. induction a as [|x a IH]; simpl; [reflexivity | now rewrite IH]. Qed.

Lemma all_chars_append (p : ascii -> bool) (a b : string) :
  all_chars p (a ++ b) = all_chars p a && all_chars p b.
Proof.
  induction a as [|x a IH]; simpl; [reflexivity|].
  now rewrite IH, andb_assoc.
Qed.

(** *** Stripping *)

Lemma lstrip_spaces (w s : string) :
  all_chars is_space w = true -> lstrip (w ++ s) = lstrip s.
Proof.
  induction w as [|c w IH]; simpl; [reflexivity|].
  intros H. apply andb_prop in H as [Hc Hw]. now rewrite Hc, IH.
Qed.

Lemma rstrip_spaces (w : string) :
  all_chars is_space w = true -> rstrip w = "".
Proof.
  induction w as [|c w IH]; simpl; [reflexivity|].
  intros H. apply andb_prop in H as [Hc Hw]. now rewrite IH, Hc.
Qed.

Lemma rstrip_append_spaces (s w : string) :
  all_chars is_space w = true -> rstrip (s ++ w) = rstrip s.
Proof.
  intros Hw. induction s as [|c s IH]; simpl.
  - now apply rstrip_spaces.
  - now rewrite IH.
Qed.

Lemma lstrip_append (s w : string) :
  lstrip (s ++ w) = match lstrip s with
                    | "" => lstrip w
                    | String _ _ => lstrip s ++ w
                    end.
Proof.
  induction s as [|c s IH]; simpl; [now destruct (lstrip w)|].
  destruct (is_space c); [exact IH | reflexivity].
Qed.

Lemma lstrip_all_space (w : string) :
  all_chars is_space w = true -> lstrip w = "".
Proof.
  intros H. rewrite <- (append_nil_r w). now rewrite lstrip_spaces.
Qed.

Lemma strip_surrounded (w1 s w2 : string) :
  all_chars is_space w1 = true -> all_chars is_space w2 = true ->
  strip (w1 ++ s ++ w2) = strip s.
Proof.
  intros H1 H2. unfold strip.
  rewrite lstrip_spaces by assumption. rewrite lstrip_append.
  destruct (lstrip s) eqn:E.
  - now rewrite lstrip_all_space.
  - now rewrite rstrip_append_spaces.
Qed.

Lemma strip_spaces_l (w s : string) :
  all_chars is_space w = true -> strip (w ++ s) = strip s.
Proof.
  intros H. unfold strip. now rewrite lstrip_spaces.
Qed.

Lemma strip_spaces_r (s w : string) :
  all_chars is_space w = true -> strip (s ++ w) = strip s.
Proof.
  intros H. rewrite <- (strip_surrounded "" s w) by (assumption || reflexivity).
  reflexivity.
Qed.

(** *** Splitting on a character *)

Lemma split_nonempty (sep : ascii) (s : string) : split sep s <> [].
Proof.
  destruct s as [|c s]; simpl; [discriminate|].
  destruct (Ascii.eqb c sep); [discriminate|].
  destruct (split sep s); discriminate.
Qed.

(** Every occurrence of the separator splits. *)
Lemma split_at_sep (sep : ascii) (a b : string) :
  split sep (a ++ String sep b) = (split sep a ++ split sep b)%list.
Proof.
  induction a as [|c a IH]; simpl.
  - now rewrite Ascii.eqb_refl.
  - rewrite IH. destruct (Ascii.eqb c sep); [reflexivity|].
    pose proof (split_nonempty sep a) as Hne.
    destruct (split sep a); [contradiction | reflexivity].
Qed.

Lemma split_no_sep (sep : ascii) (s : string) :
  no_char sep s = true -> split sep s = [s].
Proof.
  induction s as [|c s IH]; simpl; [reflexivity|].
  intros H. apply andb_prop in H as [Hc Hs].
  apply negb_true_iff in Hc. now rewrite Hc, IH.
Qed.

Lemma split_prepend (sep : ascii) (w s : string) :
  no_char sep w = true ->
  exists h t, split sep s = h :: t /\ split sep (w ++ s) = (w ++ h) :: t.
Proof.
  intros Hw. induction w as [|c w IH]; simpl.
  - pose proof (split_nonempty sep s) as Hne.
    destruct (split sep s) as [|h t]; [contradiction|]. now exists h, t.
  - simpl in Hw. apply andb_prop in Hw as [Hc Hw].
    destruct (IH Hw) as (h & t & E1 & E2).
    apply negb_true_iff in Hc. rewrite Hc, E2. now exists h, t.
Qed.

Lemma split_append (sep : ascii) (s w : string) :
  no_char sep w = true ->
  exists l x, split sep s = (l ++ [x])%list
              /\ split sep (s ++ w) = List.app l [x ++ w].
Proof.
  intros Hw. induction s as [|c s IH]; simpl.
  - exists [], "". simpl. now rewrite split_no_sep.
  - destruct IH as (l & x & E1 & E2). rewrite E1, E2.
    destruct (Ascii.eqb c sep).
    + now exists ("" :: l), x.
    + destruct l as [|h l]; simpl.
      * now exists [], (String c x).
      * now exists (String c h :: l), x.
Qed.

Lemma space_no_char (sep : ascii) (w : string) :
  is_space sep = false -> all_chars is_space w = true -> no_char sep w = true.
Proof.
  intros Hsep. unfold no_char. induction w as [|c w IH]; simpl; [reflexivity|].
  intros H. apply andb_prop in H as [Hc Hw]. rewrite (IH Hw), andb_true_r.
  apply negb_true_iff, Ascii.eqb_neq. intros ->. congruence.
Qed.

(** *** Suffixes *)

Lemma endswith_nil (suf : string) : endswith suf "" = true -> suf = "".
Proof. destruct suf; simpl; [reflexivity | discriminate]. Qed.

Lemma endswith_cons (suf : string) (c : ascii) (s : string) :
  endswith suf (String c s) = (String c s =? suf) || endswith suf s.
Proof. reflexivity. Qed.

Lemma endswith_last_char (suf s : string) :
  suf <> "" -> endswith suf s = true -> last_char s = last_char suf.
Proof.
  intros Hne. induction s as [|c s IH].
  - intros H. now apply endswith_nil in H.
  - rewrite endswith_cons. intros H. apply orb_prop in H as [H|H].
    + apply String.eqb_eq in H. now rewrite <- H.
    + specialize (IH H). destruct s as [|d s]; [|exact IH].
      now apply endswith_nil in H.
Qed.

End PyFacts.

(** ** Type inference *)

Module InferFacts.
Import Py PyFacts Infer.

(** The guard [not ... endswith("name")] never fires next to
    [endswith("_id")]: the two suffixes end in different letters. *)
Lemma id_suffix_excludes_name (s : string) :
  endswith "_id" s = true -> endswith "name" s = false.
Proof.
  intros H. destruct (endswith "name" s) eqn:E; [|reflexivity].
  apply endswith_last_char in H; [|discriminate].
  apply endswith_last_char in E; [|discriminate].
  rewrite H in E. discriminate.
Qed.

Lemma is_id_like_suffix (attr : string) :
  is_id_like attr = endswith "_id" (lower attr).
Proof.
  unfold is_id_like. destruct (endswith "_id" (lower attr)) eqn:E.
  - now rewrite (id_suffix_excludes_name _ E).
  - reflexivity.
Qed.

(** C2, as the code has it: every attribute whose lower-cased name ends with
    "_id" is given the type INTEGER, and such a name never ends with "name";
    every other name - in particular one that merely ends with "id" - is
    typed by the later rules of the chain: DATE for a name that holds "date",
    else INTEGER for one that holds "time", "duration", "age", "price",
    "amount" or "credits", else TEXT.  So a name that ends with "id" and not
    with "_id" is an INTEGER only when one of those later words is in it. *)
Theorem C2_underscore_id_is_integer (attr : string) :
  (endswith "_id" (lower attr) = true ->
   endswith "name" (lower attr) = false /\ data_type attr = "INTEGER")
  /\ (endswith "_id" (lower attr) = false ->
      data_type attr
      = if contains "date" (lower attr) then "DATE"
        else if contains "time" (lower attr)
                || contains "duration" (lower attr) then "INTEGER"
        else if has_numeric_word attr then "INTEGER"
        else "TEXT")
  /\ (endswith "id" (lower attr) = true ->
      endswith "_id" (lower attr) = false ->
      contains "date" (lower attr) = false ->
      contains "time" (lower attr) = false ->
      contains "duration" (lower attr) = false ->
      has_numeric_word attr = false ->
      data_type attr = "TEXT").
Proof.
  assert (Hlater : endswith "_id" (lower attr) = false ->
                   data_type attr
                   = if contains "date" (lower attr) then "DATE"
                     else if contains "time" (lower attr)
                             || contains "duration" (lower attr)
                          then "INTEGER"
                     else if has_numeric_word attr then "INTEGER"
                     else "TEXT").
  { intros H. unfold data_type. now rewrite is_id_like_suffix, H. }
  split; [|split].
  - intros H. split; [now apply id_suffix_excludes_name|].
    unfold data_type. now rewrite is_id_like_suffix, H.
  - exact Hlater.
  - intros _ H Hd Ht Hu Hn. rewrite (Hlater H), Hd, Ht, Hu, Hn. reflexivity.
Qed.

Lemma C2_underscore_id_is_integer_witness :
  data_type "Student_ID" = "INTEGER"
  /\ data_type "Paid" = "TEXT"
  /\ data_type "Timeid" = "INTEGER".
Proof.
  split; [|split].
  - exact (proj2 (proj1 (C2_underscore_id_is_integer "Student_ID") eq_refl)).
  - exact (proj2 (proj2 (C2_underscore_id_is_integer "Paid"))
                 eq_refl eq_refl eq_refl eq_refl eq_refl eq_refl).
  - exact (proj1 (proj2 (C2_underscore_id_is_integer "Timeid")) eq_refl).
Defined.

(** C2 as stated fails: "Sessionid" ends with "id" and not with "name", so the
    specification's rule 1 selects it, yet the code types it TEXT. *)
Lemma C2_sessionid_is_text :
  spec_id_pattern "Sessionid" = true /\
  endswith "_id" (lower "Sessionid") = false /\
  data_type "Sessionid" = "TEXT" /\
  data_type "Sessionid" <> "INTEGER".
Proof.
  repeat split; try reflexivity.
  intros H. vm_compute in H. discriminate H.
Qed.

End InferFacts.

(** ** Concrete runs of the forward generator *)

Module GenRuns.
Import Py Infer Gen.

(** C7 (Scenario A): the single entity Student with the attributes
    Student_ID, Name, Email and no relationship generates exactly the text of
    the specification. *)
Theorem C7_scenario_a :
  generate_sql_from_structured_schema
    (mkSchema [mkTable "Student" ["Student_ID"; "Name"; "Email"] []] [])
  = "CREATE TABLE IF NOT EXISTS Students (" ++ nl ++
    "  Student_ID INTEGER PRIMARY KEY," ++ nl ++
    "  Name TEXT NOT NULL," ++ nl ++
    "  Email TEXT UNIQUE" ++ nl ++
    ");".
Proof. reflexivity. Qed.

(** C3 at its failing input: the schema has one relationship, which starts
    at Book; the table Author has no relationship of its own, yet the line
    of its final (and only) attribute ends with a comma, directly before the
    closing parenthesis. *)
Theorem C3_trailing_comma :
  let author := mkTable "Author" ["Author_ID"] [] in
  let book := mkTable "Book" ["Book_ID"; "Author_ID"] [] in
  let rels := [mkRel "Book" "Author_ID" "Author" "Author_ID"] in
  table_relationships author rels = [] /\
  generate_table_sql author [author; book] rels
  = "CREATE TABLE IF NOT EXISTS Authors (" ++ nl ++
    "  Author_ID INTEGER PRIMARY KEY," ++ nl ++
    ");".
Proof. split; reflexivity. Qed.

End GenRuns.

(** ** Statement splitter *)

Module ExecFacts.
Import Py PyFacts Exec.

Lemma statements_at_semicolon (a b : string) :
  statements (a ++ String ";" b) = List.app (statements a) (statements b).
Proof.
  unfold statements. now rewrite split_at_sep, filter_app, map_app.
Qed.

Lemma statements_single (a : string) :
  no_char ";" a = true ->
  statements a = if truthy (strip a) then [strip a] else [].
Proof.
  intros H. unfold statements. rewrite split_no_sep by assumption. simpl.
  now destruct (truthy (strip a)).
Qed.

Lemma statements_spaces_l (w s : string) :
  all_chars is_space w = true -> statements (w ++ s) = statements s.
Proof.
  intros Hw. unfold statements.
  destruct (split_prepend ";" w s) as (h & t & E1 & E2).
  - now apply space_no_char.
  - rewrite E1, E2. simpl. rewrite strip_spaces_l by assumption.
    destruct (truthy (strip h)); simpl; [|reflexivity].
    rewrite strip_spaces_l by assumption. reflexivity.
Qed.

Lemma statements_spaces_r (s w : string) :
  all_chars is_space w = true -> statements (s ++ w) = statements s.
Proof.
  intros Hw. unfold statements.
  destruct (split_append ";" s w) as (l & x & E1 & E2).
  - now apply space_no_char.
  - rewrite E1, E2, !filter_app, !map_app. simpl.
    rewrite strip_spaces_r by assumption.
    destruct (truthy (strip x)); simpl; [|reflexivity].
    rewrite strip_spaces_r by assumption. reflexivity.
Qed.

Lemma statements_nonempty (sql : string) :
  Forall (fun stmt => stmt <> "") (statements sql).
Proof.
  unfold statements. apply Forall_forall. intros x Hx.
  apply in_map_iff in Hx as (y & <- & Hy).
  apply filter_In in Hy as [_ Hy]. now destruct (strip y).
Qed.

(** C9, as the code has it: the splitter cuts the text at every semicolon
    (no nesting is tracked), keeps of each fragment its stripped text and
    drops the fragments that strip to nothing; white space around the whole
    text and white space (blank lines) after a semicolon do not change the
    list of statements. *)
Theorem C9_splitter (a b w1 w2 : string) :
  all_chars is_space w1 = true ->
  all_chars is_space w2 = true ->
  statements (a ++ String ";" b) = List.app (statements a) (statements b)
  /\ (no_char ";" a = true ->
      statements a = if truthy (strip a) then [strip a] else [])
  /\ Forall (fun stmt => stmt <> "") (statements a)
  /\ statements (w1 ++ a ++ w2) = statements a
  /\ statements (a ++ String ";" (w1 ++ b)) = statements (a ++ String ";" b).
Proof.
  intros H1 H2. repeat split.
  - apply statements_at_semicolon.
  - apply statements_single.
  - apply statements_nonempty.
  - rewrite statements_spaces_l, statements_spaces_r by assumption. reflexivity.
  - rewrite !statements_at_semicolon, statements_spaces_l by assumption.
    reflexivity.
Qed.

Lemma C9_splitter_witness :
  all_chars is_space (String "010" (String "010" "  ")) = true /\
  statements (String "010" (String "010" "  ")
              ++ "CREATE TABLE a (x INT); DROP TABLE b"
              ++ String "010" (String "010" "  "))
  = statements "CREATE TABLE a (x INT); DROP TABLE b".
Proof.
  split; [reflexivity|].
  exact (proj1 (proj2 (proj2 (proj2
           (C9_splitter "CREATE TABLE a (x INT); DROP TABLE b" ""
                        (String "010" (String "010" "  "))
                        (String "010" (String "010" "  "))
                        eq_refl eq_refl))))).
Defined.

(** C9 as stated fails: a semicolon inside parentheses is not at top level,
    yet the splitter cuts there. *)
Lemma C9_nested_semicolon_splits :
  statements "INSERT INTO t VALUES (';')" = ["INSERT INTO t VALUES ('"; "')"]
  /\ top_level_statements "INSERT INTO t VALUES (';')"
     = ["INSERT INTO t VALUES (';')"]
  /\ statements "INSERT INTO t VALUES (';')"
     <> top_level_statements "INSERT INTO t VALUES (';')".
Proof.
  split; [reflexivity|]. split; [reflexivity|].
  intros H. vm_compute in H. discriminate H.
Qed.

End ExecFacts.

(** ** Splitting a table body at its top-level commas *)

Module SplitFacts.
Import Py PyFacts Re Parse ParseMore.

Lemma scan_body_cons (c : ascii) (s : string) (st : split_state) :
  scan_body (String c s) st = scan_body s (split_step st c).
Proof. reflexivity. Qed.

Lemma scan_body_append (a b : string) (st : split_state) :
  scan_body (a ++ b) st = scan_body b (scan_body a st).
Proof.
  revert st. induction a as [|c a IH]; intros st; [reflexivity|].
  simpl append. now rewrite !scan_body_cons, IH.
Qed.

(** A character other than a depth-zero comma is added to the line. *)
Lemma split_step_keep (d : Z) (cur : string) (defs : list string) (c : ascii) :
  Ascii.eqb c "," && (d =? 0)%Z = false ->
  split_step (d, cur, defs) c = (depth_step d c, cur ++ String c "", defs).
Proof.
  intros H. unfold split_step, depth_step.
  destruct (Ascii.eqb c "(") eqn:E1; [reflexivity|].
  destruct (Ascii.eqb c ")") eqn:E2; [reflexivity|].
  now rewrite H.
Qed.

Lemma split_step_cut (cur : string) (defs : list string) :
  split_step (0%Z, cur, defs) "," = (0%Z, "", flush cur defs).
Proof. reflexivity. Qed.

(** A stretch whose commas are all nested goes to the current line whole. *)
Lemma scan_body_nested (s : string) :
  forall d cur defs,
    commas_nested d s = true ->
    scan_body s (d, cur, defs) = (depth_after d s, cur ++ s, defs).
Proof.
  induction s as [|c s IH]; intros d cur defs H.
  - simpl. now rewrite append_nil_r.
  - simpl in H. apply andb_prop in H as [Hc Hs].
    apply negb_true_iff in Hc.
    rewrite scan_body_cons, split_step_keep by assumption.
    rewrite IH by assumption. simpl. now rewrite append_assoc.
Qed.

Lemma flush_spec (cur : string) (defs : list string) :
  flush cur defs = List.app defs (stripped_nonempty [cur]).
Proof.
  unfold flush, stripped_nonempty. simpl.
  destruct (truthy (strip cur)); [reflexivity | now rewrite app_nil_r].
Qed.

Lemma stripped_nonempty_cons (d : string) (ds : list string) :
  stripped_nonempty (d :: ds)
  = List.app (stripped_nonempty [d]) (stripped_nonempty ds).
Proof.
  unfold stripped_nonempty. simpl. now destruct (truthy (strip d)).
Qed.

Lemma scan_join_definitions (ds : list string) (l : string) :
  Forall closed_definition ds ->
  commas_nested 0%Z l = true ->
  forall defs,
    let '(_, cur, defs') := scan_body (join_definitions ds l) (0%Z, "", defs) in
    flush cur defs' = List.app defs (stripped_nonempty (List.app ds [l])).
Proof.
  intros Hds Hl. induction Hds as [|d ds [Hn Hd] _ IH]; intros defs.
  - simpl join_definitions. rewrite scan_body_nested by assumption.
    apply flush_spec.
  - simpl join_definitions. rewrite scan_body_append.
    rewrite scan_body_nested by assumption.
    rewrite Hd, scan_body_cons, split_step_cut. simpl append.
    specialize (IH (flush d defs)).
    destruct (scan_body (join_definitions ds l) (0%Z, "", flush d defs))
      as [[d' cur] defs'].
    rewrite IH, flush_spec. simpl List.app.
    rewrite (stripped_nonempty_cons d (List.app ds [l])).
    now rewrite <- app_assoc.
Qed.

(** Every body is such a join: cut it at its depth-zero commas. *)
Lemma body_decomposition_from (body : string) :
  forall d, exists pieces l,
    body = join_definitions pieces l
    /\ match pieces with
       | [] => commas_nested d l = true
       | p :: ps =>
           commas_nested d p = true /\ depth_after d p = 0%Z
           /\ Forall closed_definition ps /\ commas_nested 0%Z l = true
       end.
Proof.
  induction body as [|c body IH]; intros d.
  - exists [], "". simpl. auto.
  - destruct (Ascii.eqb c "," && (d =? 0)%Z) eqn:E.
    + apply andb_prop in E as [Ec Ed].
      apply Ascii.eqb_eq in Ec. apply Z.eqb_eq in Ed. subst c d.
      destruct (IH 0%Z) as (ps & l & -> & Hps).
      exists ("" :: ps), l. simpl. repeat split.
      * destruct ps as [|p ps]; [constructor|].
        destruct Hps as (H1 & H2 & H3 & H4).
        constructor; [split|]; assumption.
      * destruct ps as [|p ps]; [assumption|]. apply Hps.
    + destruct (IH (depth_step d c)) as (ps & l & -> & Hps).
      destruct ps as [|p ps].
      * exists [], (String c l). simpl. now rewrite E.
      * destruct Hps as (H1 & H2 & H3 & H4).
        exists (String c p :: ps), l. simpl. rewrite E. simpl. auto.
Qed.

Lemma body_decomposition (body : string) :
  exists ds l,
    body = join_definitions ds l
    /\ Forall closed_definition ds /\ commas_nested 0%Z l = true.
Proof.
  destruct (body_decomposition_from body 0%Z) as (ps & l & -> & Hps).
  exists ps, l. split; [reflexivity|].
  destruct ps as [|p ps]; [now split|].
  destruct Hps as (H1 & H2 & H3 & H4).
  split; [|assumption]. constructor; [split|]; assumption.
Qed.

(** Proper nesting, read with the counter of the scan. *)
Lemma properly_nested_closed (s : string) :
  forall d,
    properly_nested_from d s = true ->
    commas_nested (Z.of_nat d) s = true
    /\ depth_after (Z.of_nat d) s = 0%Z.
Proof.
  induction s as [|c s IH]; intros d H.
  - simpl in H. apply Nat.eqb_eq in H. subst d. now split.
  - cbn [properly_nested_from] in H. cbn [commas_nested depth_after].
    unfold depth_step.
    destruct (Ascii.eqb c "(") eqn:E1.
    + apply Ascii.eqb_eq in E1. subst c.
      apply IH in H. rewrite Nat2Z.inj_succ in H.
      replace (Z.of_nat d + 1)%Z with (Z.succ (Z.of_nat d)) by lia.
      exact H.
    + destruct (Ascii.eqb c ")") eqn:E2.
      * apply Ascii.eqb_eq in E2. subst c.
        destruct d as [|d]; [discriminate|]. apply IH in H.
        replace (Z.of_nat (S d) - 1)%Z with (Z.of_nat d) by lia.
        exact H.
      * destruct (Ascii.eqb c ",") eqn:E3.
        -- destruct d as [|d]; [discriminate|]. apply IH in H.
           destruct H as [H1 H2]. split; [|exact H2].
           rewrite H1. reflexivity.
        -- apply IH in H. cbn [andb negb]. exact H.
Qed.

Lemma properly_nested_closed_definition (d : string) :
  properly_nested d = true -> closed_definition d.
Proof. intros H. exact (properly_nested_closed d 0 H). Qed.

(** C5, as the code has it: a table body is cut exactly at the commas that
    the scan meets while its counter of parentheses is zero.  Every body is
    a sequence of definitions, each followed by a comma, and a last
    definition, such that the counter is not zero at any comma inside them;
    the scan returns exactly these definitions (stripped, empty ones
    dropped).  When the parentheses of the definitions are matched and
    their commas all lie inside parentheses, these are the definitions
    themselves: a comma inside parentheses never separates two of them.
    The counter is signed, so this needs the matching: a closing
    parenthesis without an opening one leaves the counter below zero. *)
Theorem C5_top_level_commas_only (body : string) :
  (exists ds l,
      body = join_definitions ds l
      /\ Forall closed_definition ds /\ commas_nested 0%Z l = true
      /\ column_definitions body = stripped_nonempty (List.app ds [l]))
  /\ (forall ds l,
        Forall closed_definition ds -> commas_nested 0%Z l = true ->
        column_definitions (join_definitions ds l)
        = stripped_nonempty (List.app ds [l]))
  /\ (forall d cur defs, d <> 0%Z ->
        split_step (d, cur, defs) "," = (d, cur ++ ",", defs))
  /\ (forall ds l,
        Forall (fun d => properly_nested d = true) ds ->
        properly_nested l = true ->
        column_definitions (join_definitions ds l)
        = stripped_nonempty (List.app ds [l])).
Proof.
  assert (Hjoin : forall ds l,
             Forall closed_definition ds -> commas_nested 0%Z l = true ->
             column_definitions (join_definitions ds l)
             = stripped_nonempty (List.app ds [l])).
  { intros ds l Hds Hl. unfold column_definitions.
    pose proof (scan_join_definitions ds l Hds Hl []) as H.
    destruct (scan_body (join_definitions ds l) (0%Z, "", []))
      as [[d cur] defs].
    exact H. }
  split; [|split; [|split]].
  - destruct (body_decomposition body) as (ds & l & -> & Hds & Hl).
    exists ds, l. repeat split; try assumption. now apply Hjoin.
  - exact Hjoin.
  - intros d cur defs Hd. rewrite split_step_keep; [reflexivity|].
    apply Z.eqb_neq in Hd. now rewrite Hd, andb_false_r.
  - intros ds l Hds Hl. apply Hjoin.
    + apply Forall_forall. intros d Hd. rewrite Forall_forall in Hds.
      now apply properly_nested_closed_definition, Hds.
    + now apply (properly_nested_closed_definition l).
Qed.

Lemma C5_top_level_commas_only_witness :
  column_definitions
    ("Product_ID INTEGER PRIMARY KEY, Price DECIMAL(10,2) NOT NULL")
  = ["Product_ID INTEGER PRIMARY KEY"; "Price DECIMAL(10,2) NOT NULL"].
Proof.
  refine (proj2 (proj2 (proj2 (C5_top_level_commas_only "")))
                ["Product_ID INTEGER PRIMARY KEY"]
                " Price DECIMAL(10,2) NOT NULL" _ _).
  - constructor; [reflexivity | constructor].
  - reflexivity.
Defined.

(** C5 as stated fails: the comma of DECIMAL(10,2) lies inside parentheses
    and yet separates two definitions, because the closing parenthesis in
    the quoted text before it has taken the counter below zero; the comma
    after the CHECK clause, outside every parenthesis, separates nothing. *)
Lemma C5_unmatched_parenthesis_cuts_inside :
  column_definitions "x TEXT CHECK (x <> ')'), Price DECIMAL(10,2)"
  = ["x TEXT CHECK (x <> ')'), Price DECIMAL(10"; "2)"].
Proof. vm_compute. reflexivity. Qed.

(** The column of the specification's example is one definition. *)
Example price_is_one_definition :
  column_definitions "Price DECIMAL(10,2) NOT NULL"
  = ["Price DECIMAL(10,2) NOT NULL"].
Proof. reflexivity. Qed.

End SplitFacts.

(** ** Facts about the matcher *)

Module ReFacts.
Import Py PyFacts Re.

Lemma suffix_of_refl (s : string) : suffix_of s s.
Proof. now exists "". Qed.

Lemma suffix_of_trans (a b c : string) :
  suffix_of a b -> suffix_of b c -> suffix_of a c.
Proof.
  intros [u ->] [v ->]. exists (v ++ u). now rewrite append_assoc.
Qed.

Lemma suffix_of_append (u t : string) : suffix_of t (u ++ t).
Proof. now exists u. Qed.

Lemma suffix_of_length (t s : string) :
  suffix_of t s -> String.length t <= String.length s.
Proof. intros [u ->]. rewrite length_append. lia. Qed.

Lemma consumed_append (u v : string) : consumed (u ++ v) v = u.
Proof.
  unfold consumed. rewrite length_append.
  replace (String.length u + String.length v - String.length v)
    with (String.length u) by lia.
  induction u as [|c u IH]; simpl.
  - now destruct v.
  - now rewrite IH.
Qed.

Section Sound.
Context {A : Type}.
Implicit Types (k : string -> option A) (res : A).

Lemma orelse_some (x y : option A) res :
  orelse x y = Some res -> x = Some res \/ (x = None /\ y = Some res).
Proof. destruct x; simpl; intros H; [now left | now right]. Qed.

(** A successful repetition consumed a run of at least [min] characters of
    the class and handed the rest to the continuation. *)
Lemma rep_greedy_sound (p : ascii -> bool) (s : string) :
  forall min k res,
    rep_greedy p min s k = Some res ->
    exists u v, s = u ++ v /\ all_chars p u = true
                /\ min <= String.length u /\ k v = Some res.
Proof.
  induction s as [|c s IH]; intros min k res H; simpl in H.
  - destruct (Nat.eqb_spec min 0); [|discriminate].
    exists "", "". simpl. repeat split; [lia | assumption].
  - assert (Hstop : (if (min =? 0)%nat then k (String c s) else None)
                    = Some res ->
                    exists u v, String c s = u ++ v /\ all_chars p u = true
                                /\ min <= String.length u /\ k v = Some res).
    { destruct (Nat.eqb_spec min 0); [|discriminate]. intros Hk.
      exists "", (String c s). simpl. repeat split; [lia | assumption]. }
    destruct (p c) eqn:Hc; [|now apply Hstop].
    apply orelse_some in H as [H | [_ H]]; [|now apply Hstop].
    apply IH in H as (u & v & -> & Hu & Hmin & Hk).
    exists (String c u), v. simpl. rewrite Hc, Hu.
    repeat split; [lia | assumption].
Qed.

Lemma rep_lazy_sound (p : ascii -> bool) (s : string) :
  forall min k res,
    rep_lazy p min s k = Some res ->
    exists u v, s = u ++ v /\ all_chars p u = true
                /\ min <= String.length u /\ k v = Some res.
Proof.
  induction s as [|c s IH]; intros min k res H; simpl in H.
  - destruct (Nat.eqb_spec min 0); [|discriminate].
    apply orelse_some in H as [H | [_ H]]; [|discriminate].
    exists "", "". simpl. repeat split; [lia | assumption].
  - assert (Hmore : (if p c then rep_lazy p (pred min) s k else None)
                    = Some res ->
                    exists u v, String c s = u ++ v /\ all_chars p u = true
                                /\ min <= String.length u /\ k v = Some res).
    { destruct (p c) eqn:Hc; [|discriminate]. intros H'.
      apply IH in H' as (u & v & -> & Hu & Hmin & Hk).
      exists (String c u), v. simpl. rewrite Hc, Hu.
      repeat split; [lia | assumption]. }
    destruct (Nat.eqb_spec min 0); [|now apply Hmore].
    apply orelse_some in H as [H | [_ H]]; [|now apply Hmore].
    exists "", (String c s). simpl. repeat split; [lia | assumption].
Qed.

End Sound.

Lemma lit_sound (fl : flags) (p : string) :
  forall s s', lit fl p s = Some s' ->
               exists u, s = u ++ s' /\ lit_eq fl p u
                         /\ String.length u = String.length p.
Proof.
  unfold lit_eq. induction p as [|a p IH]; intros s s' H; simpl in H.
  - injection H as <-. exists "". now destruct (ignorecase fl).
  - destruct s as [|b s]; [discriminate|].
    destruct (char_eq fl a b) eqn:E; [|discriminate].
    apply IH in H as (u & -> & Hu & Hlen).
    exists (String b u). simpl. split; [reflexivity|]. split; [|now rewrite Hlen].
    unfold char_eq in E. destruct (ignorecase fl).
    + apply Ascii.eqb_eq in E. unfold lower in *. simpl. now rewrite Hu, E.
    + apply Ascii.eqb_eq in E. now rewrite Hu, E.
Qed.

(** Whatever the pattern, a match hands a suffix of the text to its
    continuation. *)
Lemma rmatch_sound {A : Type} (fl : flags) (r : regex) :
  forall s caps (k : string -> captures -> option A) res,
    rmatch fl r s caps k = Some res ->
    exists s' caps', suffix_of s' s /\ k s' caps' = Some res.
Proof.
  induction r as [p | c min greedy | r1 IH1 r2 IH2 | r1 IH1 | n r1 IH1];
    intros s caps k res H; simpl in H.
  - destruct (lit fl p s) as [s'|] eqn:E; [|discriminate].
    apply lit_sound in E as (u & -> & _). exists s', caps.
    split; [apply suffix_of_append | assumption].
  - destruct greedy.
    + apply rep_greedy_sound in H as (u & v & -> & _ & _ & Hk).
      exists v, caps. split; [apply suffix_of_append | assumption].
    + apply rep_lazy_sound in H as (u & v & -> & _ & _ & Hk).
      exists v, caps. split; [apply suffix_of_append | assumption].
  - apply IH1 in H as (s1 & caps1 & Hs1 & H).
    apply IH2 in H as (s2 & caps2 & Hs2 & H).
    exists s2, caps2. split; [eapply suffix_of_trans; eassumption | assumption].
  - apply orelse_some in H as [H | [_ H]].
    + now apply IH1 in H.
    + exists s, caps. split; [apply suffix_of_refl | assumption].
  - apply IH1 in H as (s1 & caps1 & Hs1 & H).
    exists s1, ((n, consumed s s1) :: caps1). now split.
Qed.

Lemma match_here_suffix (fl : flags) (r : regex) (s rest : string)
    (caps : captures) :
  match_here fl r s = Some (rest, caps) -> suffix_of rest s.
Proof.
  unfold match_here. intros H.
  apply rmatch_sound in H as (s' & caps' & Hs & H).
  now injection H as <- _.
Qed.

(** *** Completeness of the repetitions on a maximal run *)

Section Complete.
Context {A : Type}.
Implicit Types (k : string -> option A) (res : A).

(** A greedy repetition takes the whole run when the continuation accepts
    what follows it. *)
Lemma rep_greedy_run (p : ascii -> bool) (u v : string) :
  forall min k res,
    all_chars p u = true -> stops p v = true ->
    min <= String.length u -> k v = Some res ->
    rep_greedy p min (u ++ v) k = Some res.
Proof.
  induction u as [|c u IH]; intros min k res Hu Hv Hmin Hk.
  - simpl in Hmin. assert (min = 0) as -> by lia. simpl append.
    destruct v as [|d v]; simpl; [assumption|].
    simpl in Hv. apply negb_true_iff in Hv. now rewrite Hv.
  - simpl in Hu. apply andb_prop in Hu as [Hc Hu]. simpl.
    rewrite Hc. rewrite (IH (pred min) k res); try assumption; [reflexivity|].
    simpl in Hmin. lia.
Qed.

(** A lazy repetition stops at the first place where the continuation
    succeeds. *)
Lemma rep_lazy_first (p : ascii -> bool) (u v : string) :
  forall k res,
    all_chars p u = true ->
    (forall u1 u2, u = u1 ++ u2 -> u2 <> "" -> k (u2 ++ v) = None) ->
    k v = Some res ->
    rep_lazy p 0 (u ++ v) k = Some res.
Proof.
  induction u as [|c u IH]; intros k res Hu Hnone Hk.
  - simpl append. destruct v; simpl; now rewrite Hk.
  - simpl in Hu. apply andb_prop in Hu as [Hc Hu]. simpl.
    change (String c (u ++ v)) with (String c u ++ v).
    rewrite (Hnone "" (String c u)) by (reflexivity || discriminate).
    simpl. rewrite Hc. apply IH; try assumption.
    intros u1 u2 -> Hne. apply (Hnone (String c u1) u2); [reflexivity | assumption].
Qed.

End Complete.

Lemma char_eq_refl (fl : flags) (a : ascii) : char_eq fl a a = true.
Proof. unfold char_eq. destruct (ignorecase fl); apply Ascii.eqb_refl. Qed.

Lemma lit_self (fl : flags) (p s : string) : lit fl p (p ++ s) = Some s.
Proof.
  induction p as [|a p IH]; simpl; [reflexivity|].
  now rewrite char_eq_refl.
Qed.

(** *** Scanning with [findall] *)

Lemma findall_from_skip (fl : flags) (r : regex) (u s : string) :
  findall_from fl r (u ++ s) (String.length u) = findall_from fl r s 0.
Proof. induction u as [|c u IH]; simpl; [reflexivity | exact IH]. Qed.

Lemma findall_from_cons (fl : flags) (r : regex) (c : ascii) (s : string) :
  findall_from fl r (String c s) 0
  = match match_here fl r (String c s) with
    | Some (rest, caps) =>
        caps :: findall_from fl r s
                  (String.length (String c s) - String.length rest - 1)
    | None => findall_from fl r s 0
    end.
Proof. reflexivity. Qed.

(** After a non-empty match the scan resumes on the text that follows it. *)
Lemma findall_match (fl : flags) (r : regex) (u rest : string)
    (caps : captures) :
  u <> "" ->
  match_here fl r (u ++ rest) = Some (rest, caps) ->
  findall fl r (u ++ rest) = caps :: findall fl r rest.
Proof.
  intros Hne H. unfold findall. destruct u as [|c u]; [contradiction|].
  simpl append in *. rewrite findall_from_cons, H. f_equal.
  replace (String.length (String c (u ++ rest)) - String.length rest - 1)
    with (String.length u).
  - apply findall_from_skip.
  - cbn [String.length]. rewrite length_append. lia.
Qed.

(** Where nothing matches the scan moves on by one character. *)
Lemma findall_no_match (fl : flags) (r : regex) (c : ascii) (s : string) :
  match_here fl r (String c s) = None ->
  findall fl r (String c s) = findall fl r s.
Proof. intros H. unfold findall. simpl. now rewrite H. Qed.


End ReFacts.

(** ** The reverse parser, definition by definition *)

Module ParseFacts.
Import Py PyFacts Re ReFacts Parse.

Ltac each_char c :=
  destruct c as [[] [] [] [] [] [] [] []]; try reflexivity; try discriminate.

Lemma upper_char_space (c : ascii) : is_space (upper_char c) = is_space c.
Proof. each_char c. Qed.

Lemma lower_append (a b : string) : lower (a ++ b) = lower a ++ lower b.
Proof.
  unfold lower. induction a as [|c a IH]; simpl; [reflexivity | now rewrite IH].
Qed.

Lemma startswith_self (p s : string) : startswith p (p ++ s) = true.
Proof.
  induction p as [|c p IH]; simpl; [reflexivity|].
  now rewrite Ascii.eqb_refl.
Qed.

Lemma lower_cons (c : ascii) (s : string) :
  lower (String c s) = String (lower_char c) (lower s).
Proof. reflexivity. Qed.

Lemma contains_cons (p : string) (c : ascii) (s : string) :
  contains p (String c s) = startswith p (String c s) || contains p s.
Proof. reflexivity. Qed.

Lemma contains_tail (p : string) (c : ascii) (s : string) :
  contains p s = true -> contains p (String c s) = true.
Proof. intros H. rewrite contains_cons, H. apply orb_true_r. Qed.

Lemma contains_append (p a s : string) :
  contains p s = true -> contains p (a ++ s) = true.
Proof.
  intros H. induction a as [|c a IH]; [exact H|].
  simpl append. now apply contains_tail.
Qed.

Lemma contains_prefix (p s : string) :
  startswith p s = true -> contains p s = true.
Proof.
  intros H. destruct s as [|c s]; cbn [contains]; now rewrite H.
Qed.

Lemma prefix_all_chars (q : ascii -> bool) (p : string) :
  forall s, startswith p s = true -> all_chars q s = true ->
            all_chars q p = true.
Proof.
  induction p as [|a p IH]; intros s Hp Hs; [reflexivity|].
  destruct s as [|b s]; simpl in Hp; [discriminate|].
  apply andb_prop in Hp as [Hab Hp]. apply Ascii.eqb_eq in Hab. subst b.
  simpl in Hs |- *. apply andb_prop in Hs as [Hb Hs].
  rewrite Hb. simpl. now apply (IH s).
Qed.

Lemma upper_not_space (s : string) :
  all_chars not_space (upper s) = all_chars not_space s.
Proof.
  unfold upper, not_space. induction s as [|c s IH]; simpl; [reflexivity|].
  now rewrite upper_char_space, IH.
Qed.

Lemma lstrip_not_space (s : string) :
  all_chars not_space s = true -> lstrip s = s.
Proof.
  destruct s as [|c s]; simpl; [reflexivity|].
  unfold not_space at 1. intros H. apply andb_prop in H as [Hc _].
  apply negb_true_iff in Hc. now rewrite Hc.
Qed.

Lemma rstrip_not_space (s : string) :
  all_chars not_space s = true -> rstrip s = s.
Proof.
  induction s as [|c s IH]; simpl; [reflexivity|].
  unfold not_space at 1. intros H. apply andb_prop in H as [Hc Hs].
  apply negb_true_iff in Hc. rewrite (IH Hs), Hc. now destruct s.
Qed.

Lemma strip_not_space (s : string) :
  all_chars not_space s = true -> strip s = s.
Proof.
  intros H. unfold strip. rewrite lstrip_not_space by assumption.
  now apply rstrip_not_space.
Qed.

(** *** The column pattern *)

(** What a match of the column pattern looks like: a word, white space, a
    word, and whatever follows; the two words are the groups. *)
Lemma column_match_shape (line : string) (caps : captures) :
  re_match fl_none column_pattern line = Some caps ->
  exists ws rest,
    line = group 1 caps ++ ws ++ group 2 caps ++ rest
    /\ all_chars is_word (group 1 caps) = true /\ group 1 caps <> ""
    /\ all_chars is_space ws = true /\ ws <> ""
    /\ all_chars is_word (group 2 caps) = true /\ group 2 caps <> "".
Proof.
  unfold re_match, match_here, column_pattern. intros H.
  destruct (rmatch _ _ _ _ _) as [[rest0 caps0]|] eqn:E; [|discriminate].
  simpl in H. injection H as ->. cbn [rmatch] in E.
  apply rep_greedy_sound in E as (u1 & v1 & -> & Hu1 & Hm1 & E).
  apply rep_greedy_sound in E as (u2 & v2 & -> & Hu2 & Hm2 & E).
  apply rep_greedy_sound in E as (u3 & v3 & -> & Hu3 & Hm3 & E).
  rewrite !consumed_append in E.
  assert (Hcaps : caps = [(2, u3); (1, u1)]).
  { apply orelse_some in E as [E | [_ E]].
    - apply rep_greedy_sound in E as (u4 & v4 & _ & _ & _ & E).
      apply rep_greedy_sound in E as (u5 & v5 & _ & _ & _ & E).
      now injection E as _ <-.
    - now injection E as _ <-. }
  subst caps. simpl group. exists u2, v3.
  repeat split; try assumption.
  - intros ->. simpl in Hm1. lia.
  - intros ->. simpl in Hm2. lia.
  - intros ->. simpl in Hm3. lia.
Qed.

(** A line without white space does not match the column pattern. *)
Lemma column_pattern_needs_space (line : string) :
  all_chars not_space line = true ->
  re_match fl_none column_pattern line = None.
Proof.
  intros H. destruct (re_match fl_none column_pattern line) as [caps|] eqn:E;
    [|reflexivity].
  apply column_match_shape in E as (ws & rest & E & _ & _ & Hws & Hne & _).
  rewrite E, !all_chars_append in H.
  apply andb_prop in H as [_ H]. apply andb_prop in H as [H _].
  destruct ws as [|c ws]; [contradiction|].
  simpl in Hws, H. unfold not_space in H.
  apply andb_prop in Hws as [Hc _]. rewrite Hc in H. discriminate.
Qed.

(** *** One definition at a time *)

Lemma def_step_blank (tn : string) (st : def_state) (line : string) :
  strip line = "" -> def_step tn st line = st.
Proof.
  intros H. destruct st as [[a c] r]. unfold def_step. now rewrite H.
Qed.

Lemma def_step_foreign_key (tn : string) (a : list string) (c : list Column)
    (r : list Relationship) (line : string) :
  startswith "FOREIGN KEY" (upper (strip line)) = true ->
  def_step tn (a, c, r) line
  = match search fl_icase foreign_key_pattern (strip line) with
    | Some m => (a, c, List.app r [mkRel tn (group 1 m) (group 2 m) (group 3 m)])
    | None => (a, c, r)
    end.
Proof.
  intros H. unfold def_step. rewrite H.
  destruct (strip line) eqn:E; [discriminate H | reflexivity].
Qed.

Lemma def_step_column (tn : string) (a : list string) (c : list Column)
    (r : list Relationship) (line : string) :
  strip line <> "" ->
  startswith "FOREIGN KEY" (upper (strip line)) = false ->
  def_step tn (a, c, r) line
  = match re_match fl_none column_pattern (strip line) with
    | Some m => (List.app a [group 1 m],
                 List.app c [ColDict (group 1 m) (group 2 m)], r)
    | None => (a, c, r)
    end.
Proof.
  intros Hne H. unfold def_step. rewrite H.
  destruct (strip line) eqn:E; [contradiction | reflexivity].
Qed.

(** The three things a definition can do to the state. *)
Lemma def_step_cases (tn : string) (a : list string) (c : list Column)
    (r : list Relationship) (line : string) :
  def_step tn (a, c, r) line = (a, c, r)
  \/ (exists m, search fl_icase foreign_key_pattern (strip line) = Some m
        /\ def_step tn (a, c, r) line
           = (a, c, List.app r [mkRel tn (group 1 m) (group 2 m) (group 3 m)]))
  \/ (exists m, re_match fl_none column_pattern (strip line) = Some m
        /\ def_step tn (a, c, r) line
           = (List.app a [group 1 m],
              List.app c [ColDict (group 1 m) (group 2 m)], r)).
Proof.
  destruct (strip line) as [|x l] eqn:E.
  - left. now apply def_step_blank.
  - destruct (startswith "FOREIGN KEY" (upper (strip line))) eqn:F.
    + rewrite def_step_foreign_key by assumption. rewrite E.
      destruct (search _ _ _) as [m|]; [|now left].
      right. left. now exists m.
    + rewrite def_step_column by (congruence || assumption). rewrite E.
      destruct (re_match _ _ _) as [m|]; [|now left].
      right. right. now exists m.
Qed.

(** Relationships found earlier are carried along untouched. *)
Lemma def_step_shift (tn : string) (r0 : list Relationship) (line : string)
    (a : list string) (c : list Column) (r : list Relationship) :
  def_step tn (a, c, List.app r0 r) line
  = let '(a', c', r') := def_step tn (a, c, r) line in
    (a', c', List.app r0 r').
Proof.
  unfold def_step.
  destruct (negb (truthy (strip line))); [reflexivity|].
  destruct (startswith "FOREIGN KEY" (upper (strip line))).
  - destruct (search _ _ _); [|reflexivity]. now rewrite app_assoc.
  - destruct (re_match _ _ _); reflexivity.
Qed.

Lemma fold_def_step_shift (tn : string) (r0 : list Relationship)
    (defs : list string) :
  forall a c r,
    fold_left (def_step tn) defs (a, c, List.app r0 r)
    = let '(a', c', r') := fold_left (def_step tn) defs (a, c, r) in
      (a', c', List.app r0 r').
Proof.
  induction defs as [|d defs IH]; intros a c r; [reflexivity|].
  cbn [fold_left]. rewrite def_step_shift.
  destruct (def_step tn (a, c, r) d) as [[a' c'] r']. apply IH.
Qed.

Lemma table_step_spec (tbls : list Table) (rels : list Relationship)
    (m : captures) :
  table_step (tbls, rels) m
  = (List.app tbls [fst (table_of_match m)],
     List.app rels (snd (table_of_match m))).
Proof.
  unfold table_step, table_of_match.
  rewrite <- (app_nil_r rels) at 1. rewrite fold_def_step_shift.
  destruct (fold_left _ _ _) as [[a c] r]. reflexivity.
Qed.

Lemma fold_table_step (ms : list captures) :
  forall tbls rels,
    fold_left table_step ms (tbls, rels)
    = (List.app tbls (map (fun m => fst (table_of_match m)) ms),
       List.app rels (flat_map (fun m => snd (table_of_match m)) ms)).
Proof.
  induction ms as [|m ms IH]; intros tbls rels; cbn [fold_left map flat_map].
  - now rewrite !app_nil_r.
  - rewrite table_step_spec, IH, <- !app_assoc. reflexivity.
Qed.

(** The schema is assembled match by match. *)
Lemma parse_by_matches (sql : string) :
  parse_sql_to_schema sql
  = let ms := findall fl_dotall_icase create_table_pattern sql in
    mkSchema (map (fun m => fst (table_of_match m)) ms)
             (flat_map (fun m => snd (table_of_match m)) ms).
Proof. unfold parse_sql_to_schema. now rewrite fold_table_step. Qed.

(** *** Columns recorded by the parser *)

Lemma fold_def_step_columns (tn : string) (defs : list string) :
  forall a c r,
    Forall well_named c -> a = map Gen.column_name c ->
    let '(a', c', _) := fold_left (def_step tn) defs (a, c, r) in
    Forall well_named c' /\ a' = map Gen.column_name c'.
Proof.
  induction defs as [|d defs IH]; intros a c r Hc Ha; [now split|].
  cbn [fold_left].
  destruct (def_step_cases tn a c r d) as [E | [(m & _ & E) | (m & Hm & E)]];
    rewrite E.
  - now apply IH.
  - now apply IH.
  - apply IH.
    + apply Forall_app. split; [assumption|]. constructor; [|constructor].
      apply column_match_shape in Hm
        as (ws & rest & _ & H1 & H2 & _ & _ & H3 & H4).
      now exists (group 1 m), (group 2 m).
    + rewrite map_app, Ha. reflexivity.
Qed.

Lemma table_of_match_columns (m : captures) :
  let t := fst (table_of_match m) in
  Forall well_named (t_columns t)
  /\ t_attributes t = map Gen.column_name (t_columns t).
Proof.
  unfold table_of_match.
  pose proof (fold_def_step_columns (group 1 m)
                (column_definitions (group 2 m)) [] [] []
                (Forall_nil _) eq_refl) as H.
  destruct (fold_left _ _ _) as [[a c] r]. exact H.
Qed.

(** C10: a definition that is a single token (no white space in it) leaves
    the state of the definition loop as it was, so no attribute is recorded
    for it; a line that does record a column starts with a word, white space
    and a second word, which become its name and type; hence every column of
    every parsed table has a non-empty name and a non-empty type made of word
    characters, and the attribute list of the table is the list of these
    names. *)
Theorem C10_bare_word_dropped (tn : string) (st : def_state)
    (line sql : string) :
  (all_chars not_space line = true -> def_step tn st line = st)
  /\ (forall m, re_match fl_none column_pattern line = Some m ->
        exists ws rest,
          line = group 1 m ++ ws ++ group 2 m ++ rest
          /\ all_chars is_word (group 1 m) = true /\ group 1 m <> ""
          /\ all_chars is_space ws = true /\ ws <> ""
          /\ all_chars is_word (group 2 m) = true /\ group 2 m <> "")
  /\ (forall t, In t (tables (parse_sql_to_schema sql)) ->
        Forall well_named (t_columns t)
        /\ t_attributes t = map Gen.column_name (t_columns t)).
Proof.
  split; [|split].
  - intros H. destruct st as [[a c] r].
    destruct (strip line) as [|x l] eqn:E; [now apply def_step_blank|].
    rewrite def_step_column.
    + rewrite strip_not_space by assumption.
      now rewrite column_pattern_needs_space.
    + congruence.
    + rewrite strip_not_space by assumption.
      destruct (startswith "FOREIGN KEY" (upper line)) eqn:F; [|reflexivity].
      apply prefix_all_chars with (q := not_space) in F.
      * discriminate F.
      * now rewrite upper_not_space.
  - apply column_match_shape.
  - intros t Ht. rewrite parse_by_matches in Ht. simpl in Ht.
    apply in_map_iff in Ht as (m & <- & _). apply table_of_match_columns.
Qed.

Lemma C10_bare_word_dropped_witness :
  all_chars not_space "Notes" = true /\
  def_step "t" (["id"], [ColDict "id" "INTEGER"], []) "Notes"
  = (["id"], [ColDict "id" "INTEGER"], []).
Proof.
  split; [reflexivity|].
  apply (proj1 (C10_bare_word_dropped
                  "t" (["id"], [ColDict "id" "INTEGER"], []) "Notes" "")).
  reflexivity.
Defined.

(** *** Foreign keys without a usable REFERENCES clause *)

Lemma fold_left_skip {S X : Type} (f : S -> X -> S) (before after : list X)
    (x : X) :
  (forall st, f st x = st) ->
  forall st, fold_left f (List.app before (x :: after)) st
             = fold_left f (List.app before after) st.
Proof.
  intros H st. rewrite !fold_left_app. cbn [fold_left]. now rewrite H.
Qed.

Lemma rmatch_cat_sound {A : Type} (fl : flags) (r1 r2 : regex) (s : string)
    (caps : captures) (k : string -> captures -> option A) (res : A) :
  rmatch fl (Cat r1 r2) s caps k = Some res ->
  exists s1 caps1, suffix_of s1 s /\ rmatch fl r2 s1 caps1 k = Some res.
Proof. cbn [rmatch]. apply rmatch_sound. Qed.

Lemma rmatch_lit_sound {A : Type} (fl : flags) (p : string) (r2 : regex)
    (s : string) (caps : captures) (k : string -> captures -> option A)
    (res : A) :
  rmatch fl (Cat (Lit p) r2) s caps k = Some res ->
  exists u s1, s = u ++ s1 /\ lit_eq fl p u
               /\ String.length u = String.length p
               /\ rmatch fl r2 s1 caps k = Some res.
Proof.
  cbn [rmatch]. destruct (lit fl p s) as [s1|] eqn:E; [|discriminate].
  intros H. apply lit_sound in E as (u & -> & Hu & Hlen). now exists u, s1.
Qed.

Lemma contains_suffix (p t s : string) :
  suffix_of t s -> contains p t = true -> contains p s = true.
Proof. intros [u ->]. apply contains_append. Qed.

(** A match of the foreign-key pattern needs the word REFERENCES. *)
Lemma foreign_key_match_references (s : string) (x : string * captures) :
  match_here fl_icase foreign_key_pattern s = Some x ->
  contains "references" (lower s) = true.
Proof.
  unfold match_here, foreign_key_pattern. intros H.
  assert (Hsuf : exists t, suffix_of t s /\
                 exists caps, rmatch fl_icase
                   (Lit "REFERENCES" @@ Rep Space 1 true @@
                    Group 2 (Rep Word 1 true) @@ Rep Space 0 true @@
                    Lit "(" @@ Group 3 (Rep Word 1 true) @@ Lit ")")%re
                   t caps (fun rest caps => Some (rest, caps)) = Some x).
  { do 8 (apply rmatch_cat_sound in H;
          destruct H as (? & ? & ? & H)).
    eexists. split; [|eexists; exact H].
    repeat (eapply suffix_of_trans; [|eassumption]). apply suffix_of_refl. }
  destruct Hsuf as (t & [u ->] & caps & Ht).
  apply rmatch_lit_sound in Ht as (w & s1 & -> & Hw & _).
  unfold lit_eq in Hw. simpl in Hw.
  rewrite !lower_append, Hw. apply contains_append, contains_prefix.
  apply startswith_self.
Qed.

Lemma foreign_key_needs_references (line : string) :
  contains "references" (lower line) = false ->
  search fl_icase foreign_key_pattern line = None.
Proof.
  induction line as [|c line IH]; intros H.
  - reflexivity.
  - cbn [search].
    destruct (match_here fl_icase foreign_key_pattern (String c line))
      as [[rest caps]|] eqn:E.
    + apply foreign_key_match_references in E. congruence.
    + apply IH. destruct (contains "references" (lower line)) eqn:F;
        [|reflexivity].
      apply (contains_tail _ (lower_char c)) in F.
      rewrite lower_cons in H. congruence.
Qed.

(** *** Text without a recognizable block *)



Lemma findall_skips_junk (junk sql : string) :
  no_block_starts_in junk sql = true ->
  findall fl_dotall_icase create_table_pattern (junk ++ sql)
  = findall fl_dotall_icase create_table_pattern sql.
Proof.
  induction junk as [|c junk IH]; intros H; [reflexivity|].
  cbn [no_block_starts_in] in H.
  destruct (match_here _ _ (String c junk ++ sql)) eqn:E; [discriminate|].
  simpl append in *. rewrite findall_no_match by assumption. now apply IH.
Qed.

End ParseFacts.

(** ** The generator in closed form *)

Module GenFacts.
Import Py PyFacts Infer InferFacts Gen.

(** Right-nest every concatenation and let literal prefixes compute. *)
Ltac norm_app :=
  repeat (progress cbn [append] || rewrite append_assoc
          || rewrite append_nil_r).

Lemma attr_step_line (n : nat) (anyrel : bool) (sql : string) (hpk : bool)
    (i : nat) (attr : string) :
  attr_step n anyrel (sql, hpk) (i, attr)
  = (sql ++ line (attr_content attr (negb hpk && is_id_like attr))
                 (negb (i =? n - 1)%nat || anyrel),
     hpk || is_id_like attr).
Proof.
  unfold attr_step, line, attr_content, constraints.
  assert (Hpk : (if negb hpk && is_id_like attr then true else hpk)
                = hpk || is_id_like attr)
    by (destruct hpk, (is_id_like attr); reflexivity).
  destruct (negb hpk && is_id_like attr) eqn:Epk;
    destruct (contains "email" (lower attr));
    destruct (contains "name" (lower attr) && negb (endswith "_id" (lower attr)));
    destruct (negb (i =? n - 1)%nat || anyrel);
    rewrite <- Hpk; norm_app; reflexivity.
Qed.

Lemma fold_attr_step (anyrel : bool) (attrs : list string) :
  forall (start : nat) (sql : string) (hpk : bool),
    fold_left (attr_step (start + length attrs) anyrel)
              (combine (seq start (length attrs)) attrs) (sql, hpk)
    = (sql ++ render (attr_entries hpk anyrel attrs),
       hpk || existsb is_id_like attrs).
Proof.
  induction attrs as [|a rest IH]; intros start sql hpk.
  - simpl. now rewrite append_nil_r, orb_false_r.
  - cbn [length seq combine fold_left attr_entries render existsb].
    rewrite attr_step_line.
    replace (start + S (length rest)) with (S start + length rest) by lia.
    rewrite IH, append_assoc, orb_assoc. do 3 f_equal.
    destruct rest as [|b rest]; simpl.
    + replace (start + 0 - 0) with start by lia. now rewrite Nat.eqb_refl.
    + replace (start =? _)%nat with false; [reflexivity|].
      symmetry. apply Nat.eqb_neq. lia.
Qed.

Lemma fk_step_line (n : nat) (sql : string) (i : nat) (rel : Relationship) :
  fk_step n sql (i, rel) = sql ++ line (fk_content rel) (i <? n - 1)%nat.
Proof.
  unfold fk_step, line, fk_content.
  destruct (i <? n - 1)%nat; norm_app; reflexivity.
Qed.

Lemma fold_fk_step (rels : list Relationship) :
  forall (start : nat) (sql : string),
    fold_left (fk_step (start + length rels))
              (combine (seq start (length rels)) rels) sql
    = sql ++ render (fk_entries rels).
Proof.
  induction rels as [|r rest IH]; intros start sql.
  - simpl. now rewrite append_nil_r.
  - cbn [length seq combine fold_left fk_entries render].
    rewrite fk_step_line.
    replace (start + S (length rest)) with (S start + length rest) by lia.
    rewrite IH, append_assoc. do 3 f_equal.
    destruct rest as [|b rest]; simpl.
    + apply Nat.ltb_ge. lia.
    + apply Nat.ltb_lt. lia.
Qed.

Lemma render_app (e1 e2 : list (string * bool)) :
  render (List.app e1 e2) = render e1 ++ render e2.
Proof.
  induction e1 as [|[c comma] e1 IH]; [reflexivity|].
  cbn [List.app render]. now rewrite IH, append_assoc.
Qed.

(** The text of a table: header, name with its plural s, the body, the
    closing parenthesis and semicolon. *)
Lemma generate_table_sql_shape (table : Table) (all_tables : list Table)
    (rels : list Relationship) :
  generate_table_sql table all_tables rels
  = "CREATE TABLE IF NOT EXISTS " ++ t_name table ++ "s ("
    ++ table_body table rels ++ ");".
Proof.
  unfold generate_table_sql, table_body, table_entries, enumerate.
  pose proof (fold_attr_step (nonempty rels) (table_attributes table) 0) as Ha.
  cbn [Nat.add] in Ha. rewrite Ha.
  pose proof (fold_fk_step (table_relationships table rels) 0) as Hf.
  cbn [Nat.add] in Hf. rewrite Hf.
  rewrite render_app. unfold nl. norm_app. reflexivity.
Qed.

End GenFacts.

(** ** Occurrences of a keyword in a concatenation *)

Module TextFacts.
Import Py PyFacts.

Lemma occurrences_append (p a b : string) :
  occurrences p (a ++ b) = starts_in p a b + occurrences p b.
Proof.
  induction a as [|c a IH]; [reflexivity|].
  cbn [append occurrences starts_in]. rewrite IH.
  change (String c (a ++ b)) with (String c a ++ b). lia.
Qed.

Lemma starts_in_append (p a b c : string) :
  starts_in p (a ++ b) c = starts_in p a (b ++ c) + starts_in p b c.
Proof.
  induction a as [|x a IH]; [reflexivity|].
  cbn [append starts_in]. rewrite IH.
  change (String x (a ++ b) ++ c) with (String x ((a ++ b) ++ c)).
  change (String x a ++ b ++ c) with (String x (a ++ b ++ c)).
  rewrite append_assoc. lia.
Qed.

Lemma starts_in_nil (p b : string) : starts_in p "" b = 0.
Proof. reflexivity. Qed.

(** A stretch without the first character of [p] starts no occurrence. *)
Lemma starts_in_no_first (x : ascii) (p a b : string) :
  no_char x a = true -> starts_in (String x p) a b = 0.
Proof.
  unfold no_char. induction a as [|c a IH]; intros H; [reflexivity|].
  simpl in H. apply andb_prop in H as [Hc Ha].
  cbn [starts_in append startswith]. rewrite (IH Ha).
  apply negb_true_iff in Hc. rewrite Ascii.eqb_sym in Hc. now rewrite Hc.
Qed.

Lemma starts_in_blank_free (p w b : string) :
  no_char " " w = true ->
  (forall w', no_char " " w' = true -> w' <> "" ->
              startswith p (w' ++ b) = false) ->
  starts_in p w b = 0.
Proof.
  unfold no_char. intros Hw H. induction w as [|c w IH]; [reflexivity|].
  cbn [starts_in]. rewrite (H (String c w)) by (assumption || discriminate).
  simpl in Hw. apply andb_prop in Hw as [_ Hw]. now rewrite IH.
Qed.

(** A pattern with a blank in it, against a blank-free word followed by a
    blank: the word must be the part before the blank. *)
Lemma startswith_blank_blank (p1 p2 t : string) :
  startswith p2 t = false ->
  no_char " " p1 = true ->
  forall w, no_char " " w = true ->
            startswith (p1 ++ String " " p2) (w ++ String " " t) = false.
Proof.
  unfold no_char. intros Ht. induction p1 as [|a p1 IH]; intros Hp w Hw.
  - destruct w as [|c w]; cbn [startswith append].
    + now rewrite Ht, andb_false_r.
    + simpl in Hw. apply andb_prop in Hw as [Hc _].
      apply negb_true_iff in Hc. rewrite Ascii.eqb_sym in Hc. now rewrite Hc.
  - simpl in Hp. apply andb_prop in Hp as [Ha Hp].
    destruct w as [|c w]; cbn [startswith append].
    + apply negb_true_iff in Ha. now rewrite Ha.
    + simpl in Hw. apply andb_prop in Hw as [_ Hw].
      rewrite (IH Hp w Hw). apply andb_false_r.
Qed.

(** The same word followed by a character that is neither a blank nor a
    character of the part before the blank. *)
Lemma startswith_blank_other (p1 p2 t : string) (c : ascii) :
  Ascii.eqb " " c = false ->
  no_char c p1 = true ->
  forall w, no_char " " w = true ->
            startswith (p1 ++ String " " p2) (w ++ String c t) = false.
Proof.
  unfold no_char. intros Hc. induction p1 as [|a p1 IH]; intros Hp w Hw.
  - destruct w as [|d w]; cbn [startswith append].
    + now rewrite Hc.
    + simpl in Hw. apply andb_prop in Hw as [Hd _].
      apply negb_true_iff in Hd. rewrite Ascii.eqb_sym in Hd. now rewrite Hd.
  - simpl in Hp. apply andb_prop in Hp as [Ha Hp].
    destruct w as [|d w]; cbn [startswith append].
    + apply negb_true_iff in Ha. now rewrite Ha.
    + simpl in Hw. apply andb_prop in Hw as [_ Hw].
      rewrite (IH Hp w Hw). apply andb_false_r.
Qed.

Lemma word_no_char (x : ascii) (w : string) :
  is_word x = false -> all_chars is_word w = true -> no_char x w = true.
Proof.
  unfold no_char. intros Hx. induction w as [|c w IH]; [reflexivity|].
  simpl. intros H. apply andb_prop in H as [Hc Hw]. rewrite (IH Hw), andb_true_r.
  apply negb_true_iff, Ascii.eqb_neq. intros ->. congruence.
Qed.

Lemma no_char_append (x : ascii) (a b : string) :
  no_char x (a ++ b) = no_char x a && no_char x b.
Proof. apply all_chars_append. Qed.

End TextFacts.

(** ** Primary keys in the generated text *)

Module KeyFacts.
Import Py PyFacts Infer InferFacts Gen GenFacts TextFacts.

Lemma data_type_cases (attr : string) :
  data_type attr = "INTEGER" \/ data_type attr = "DATE"
  \/ data_type attr = "TEXT".
Proof.
  unfold data_type.
  destruct (is_id_like attr); [now left|].
  destruct (contains "date" (lower attr)); [now right; left|].
  destruct (_ || _); [now left|].
  destruct (has_numeric_word attr); [now left | now right; right].
Qed.

(** The keyword occurs in the content of an attribute line exactly when the
    generator wrote it there. *)
Lemma starts_in_attr_content (attr : string) (pk : bool) (b : string) :
  no_char " " attr = true ->
  starts_in "PRIMARY KEY" (attr_content attr pk) b = if pk then 1 else 0.
Proof.
  intros Ha. unfold attr_content. rewrite starts_in_append.
  rewrite starts_in_blank_free; [| assumption |].
  - unfold constraints.
    destruct (data_type_cases attr) as [E | [E | E]]; rewrite E;
      destruct pk, (contains "email" (lower attr)),
        (contains "name" (lower attr) && negb (endswith "_id" (lower attr)));
      reflexivity.
  - intros w Hw _. cbn [append].
    apply (startswith_blank_blank "PRIMARY" "KEY"); [|reflexivity|assumption].
    destruct (data_type_cases attr) as [E | [E | E]]; rewrite E; reflexivity.
Qed.

Lemma starts_in_word_then (w : string) (c : ascii) (l t : string) :
  Ascii.eqb " " c = false -> no_char c "PRIMARY" = true ->
  no_char " " w = true ->
  starts_in "PRIMARY KEY" w (String c l ++ t) = 0.
Proof.
  intros Hc Hp Hw. apply starts_in_blank_free; [assumption|].
  intros w' Hw' _. cbn [append].
  now apply (startswith_blank_other "PRIMARY" "KEY").
Qed.

Lemma starts_in_fk_content (rel : Relationship) (b : string) :
  blank_free_rel rel ->
  starts_in "PRIMARY KEY" (fk_content rel) b = 0.
Proof.
  intros (H1 & H2 & H3). unfold fk_content.
  rewrite (starts_in_append _ "FOREIGN KEY ("), ?append_assoc.
  rewrite (starts_in_no_first "P") by reflexivity.
  rewrite (starts_in_append _ (fromColumn rel)), ?append_assoc.
  rewrite starts_in_word_then by (reflexivity || assumption).
  rewrite (starts_in_append _ ") REFERENCES "), ?append_assoc.
  rewrite (starts_in_no_first "P") by reflexivity.
  rewrite (starts_in_append _ (toTable rel)), ?append_assoc.
  rewrite starts_in_word_then by (reflexivity || assumption).
  rewrite (starts_in_append _ "s("), ?append_assoc.
  rewrite (starts_in_no_first "P") by reflexivity.
  rewrite (starts_in_append _ (toColumn rel)), ?append_assoc.
  rewrite starts_in_word_then by (reflexivity || assumption).
  rewrite (starts_in_no_first "P") by reflexivity.
  reflexivity.
Qed.

(** In a line only the content can hold the keyword. *)
Lemma starts_in_line (content : string) (comma : bool) (rest : string) :
  starts_in "PRIMARY KEY" (line content comma) rest
  = starts_in "PRIMARY KEY" content
              ((if comma then "," else "") ++ nl ++ rest).
Proof.
  unfold line. rewrite (starts_in_append _ "  ").
  rewrite (starts_in_no_first "P") by reflexivity.
  rewrite (starts_in_append _ content).
  rewrite (starts_in_no_first "P" _ ((if comma then "," else "") ++ nl))
    by (now destruct comma).
  rewrite append_assoc. lia.
Qed.

Lemma occurrences_attr_lines (anyrel : bool) (attrs : list string)
    (tail : string) :
  Forall (fun attr => no_char " " attr = true) attrs ->
  forall hpk,
    occurrences "PRIMARY KEY" (render (attr_entries hpk anyrel attrs) ++ tail)
    = (if negb hpk && existsb is_id_like attrs then 1 else 0)
      + occurrences "PRIMARY KEY" tail.
Proof.
  induction 1 as [|a rest Ha _ IH]; intros hpk.
  - simpl. now rewrite andb_false_r.
  - cbn [attr_entries render existsb]. rewrite append_assoc.
    rewrite occurrences_append, starts_in_line, IH.
    rewrite starts_in_attr_content by assumption.
    destruct hpk, (is_id_like a), (existsb is_id_like rest); reflexivity.
Qed.

Lemma occurrences_fk_lines (rels : list Relationship) (tail : string) :
  Forall blank_free_rel rels ->
  occurrences "PRIMARY KEY" (render (fk_entries rels) ++ tail)
  = occurrences "PRIMARY KEY" tail.
Proof.
  induction 1 as [|r rest Hr _ IH]; [reflexivity|].
  cbn [fk_entries render]. rewrite append_assoc.
  rewrite occurrences_append, starts_in_line, IH.
  now rewrite starts_in_fk_content.
Qed.

Lemma occurrences_table (table : Table) (all_tables : list Table)
    (rels : list Relationship) :
  blank_free_names table rels ->
  occurrences "PRIMARY KEY" (generate_table_sql table all_tables rels)
  = if existsb is_id_like (table_attributes table) then 1 else 0.
Proof.
  intros (Hn & Ha & Hr). rewrite generate_table_sql_shape.
  rewrite occurrences_append, (starts_in_no_first "P") by reflexivity.
  rewrite occurrences_append.
  rewrite starts_in_word_then by (reflexivity || assumption).
  rewrite occurrences_append, (starts_in_no_first "P") by reflexivity.
  unfold table_body, table_entries. rewrite append_assoc.
  rewrite occurrences_append, (starts_in_no_first "P") by reflexivity.
  rewrite render_app, append_assoc.
  rewrite occurrences_attr_lines by assumption.
  rewrite occurrences_fk_lines by assumption.
  cbn [negb andb]. destruct (existsb _ _); reflexivity.
Qed.

(** The contents of the attribute lines once [has_primary_key] is set: no
    keyword any more. *)
Lemma attr_contents_after_key (anyrel : bool) (attrs : list string) :
  map fst (attr_entries true anyrel attrs)
  = map (fun x => attr_content x false) attrs.
Proof.
  induction attrs as [|a rest IH]; [reflexivity|].
  cbn [attr_entries map fst negb andb orb]. now rewrite IH.
Qed.

Lemma attr_contents_no_key (anyrel : bool) (attrs : list string) :
  existsb is_id_like attrs = false ->
  map fst (attr_entries false anyrel attrs)
  = map (fun x => attr_content x false) attrs.
Proof.
  induction attrs as [|a rest IH]; [reflexivity|].
  cbn [existsb]. intros H. apply orb_false_elim in H as [Ha Hr].
  cbn [attr_entries map fst]. rewrite Ha. cbn [negb andb orb].
  now rewrite IH.
Qed.

Lemma attr_contents_first_key (anyrel : bool)
    (before : list string) (a : string) (after : list string) :
  existsb is_id_like before = false -> is_id_like a = true ->
  map fst (attr_entries false anyrel (List.app before (a :: after)))
  = List.app (map (fun x => attr_content x false) before)
             (attr_content a true
              :: map (fun x => attr_content x false) after).
Proof.
  intros Hb Ha. induction before as [|b before IH].
  - cbn [List.app attr_entries map fst]. rewrite Ha. cbn [negb andb orb].
    now rewrite attr_contents_after_key.
  - cbn [existsb] in Hb. apply orb_false_elim in Hb as [Hb1 Hb2].
    cbn [List.app attr_entries map fst]. rewrite Hb1. cbn [negb andb orb].
    now rewrite (IH Hb2).
Qed.

(** C6, with the id test of the code: the text of a table is its header,
    one line per attribute, one line per relationship of the table and the
    closing parenthesis.  Up to the first attribute whose lower-cased name
    ends with "_id" no line carries PRIMARY KEY, the line of that attribute
    does, and no later line does; without such an attribute no line does.
    When the names written contain no blank, the text contains the
    characters PRIMARY KEY once in the first case and never in the second. *)
Theorem C6_one_primary_key (table : Table) (all_tables : list Table)
    (rels : list Relationship) :
  let attrs := table_attributes table in
  let anyrel := nonempty rels in
  generate_table_sql table all_tables rels
  = "CREATE TABLE IF NOT EXISTS " ++ t_name table ++ "s (" ++ nl
    ++ render (List.app (attr_entries false anyrel attrs)
                        (fk_entries (table_relationships table rels)))
    ++ ");"
  /\ (forall before a after,
        attrs = List.app before (a :: after) ->
        existsb is_id_like before = false -> is_id_like a = true ->
        map fst (attr_entries false anyrel attrs)
        = List.app (map (fun x => attr_content x false) before)
                   (attr_content a true
                    :: map (fun x => attr_content x false) after))
  /\ (existsb is_id_like attrs = false ->
      map fst (attr_entries false anyrel attrs)
      = map (fun x => attr_content x false) attrs)
  /\ (blank_free_names table rels ->
      occurrences "PRIMARY KEY" (generate_table_sql table all_tables rels)
      = if existsb is_id_like attrs then 1 else 0).
Proof.
  intros attrs anyrel. repeat split.
  - rewrite generate_table_sql_shape. reflexivity.
  - intros before a after -> Hb Ha. now apply attr_contents_first_key.
  - apply attr_contents_no_key.
  - apply occurrences_table.
Qed.

Lemma C6_one_primary_key_witness :
  occurrences "PRIMARY KEY"
    (generate_table_sql
       (mkTable "Enrollment" ["Enrollment_ID"; "Student_ID"; "Grade"] [])
       [] [mkRel "Enrollment" "Student_ID" "Student" "Student_ID"])
  = 1.
Proof.
  refine (proj2 (proj2 (proj2 (C6_one_primary_key
            (mkTable "Enrollment" ["Enrollment_ID"; "Student_ID"; "Grade"] [])
            [] [mkRel "Enrollment" "Student_ID" "Student" "Student_ID"]))) _).
  repeat split; repeat constructor.
Defined.

(** C6 as stated fails for the id pattern of the specification:
    "Sessionid" matches it and comes first, yet the key goes to the line of
    "User_ID"; alone, "Sessionid" gets no key at all. *)
Lemma C6_first_spec_id_without_key :
  spec_id_pattern "Sessionid" = true
  /\ generate_table_sql (mkTable "Log" ["Sessionid"; "User_ID"] []) [] []
     = "CREATE TABLE IF NOT EXISTS Logs (" ++ nl ++
       "  Sessionid TEXT," ++ nl ++
       "  User_ID INTEGER PRIMARY KEY" ++ nl ++
       ");"
  /\ generate_table_sql (mkTable "Log" ["Sessionid"] []) [] []
     = "CREATE TABLE IF NOT EXISTS Logs (" ++ nl ++
       "  Sessionid TEXT" ++ nl ++
       ");"
  /\ occurrences "PRIMARY KEY"
       (generate_table_sql (mkTable "Log" ["Sessionid"] []) [] []) = 0.
Proof. repeat split; reflexivity. Qed.

End KeyFacts.

(** ** Running the matcher on known text *)

Module MatchSteps.
Import Py PyFacts Re ReFacts TextFacts.

Local Open Scope re_scope.

Section Steps.
Context {A : Type}.
Variable fl : flags.
Implicit Types (k : string -> captures -> option A) (res : A).

Lemma step_lit (p : string) (r : regex) (s s' : string) (caps : captures)
    k res :
  lit fl p s = Some s' ->
  rmatch fl r s' caps k = Some res ->
  rmatch fl (Lit p @@ r) s caps k = Some res.
Proof. intros Hl H. cbn [rmatch]. now rewrite Hl. Qed.

Lemma step_lit_last (p : string) (s s' : string) (caps : captures) k res :
  lit fl p s = Some s' ->
  k s' caps = Some res ->
  rmatch fl (Lit p) s caps k = Some res.
Proof. intros Hl H. cbn [rmatch]. now rewrite Hl. Qed.

Lemma step_rep_last (c : cls) (min : nat) (u v : string) (caps : captures)
    k res :
  all_chars (in_class fl c) u = true ->
  stops (in_class fl c) v = true ->
  min <= String.length u ->
  k v caps = Some res ->
  rmatch fl (Rep c min true) (u ++ v) caps k = Some res.
Proof. intros Hu Hv Hm H. cbn [rmatch]. now apply rep_greedy_run. Qed.

Lemma step_rep (c : cls) (min : nat) (r : regex) (u v : string)
    (caps : captures) k res :
  all_chars (in_class fl c) u = true ->
  stops (in_class fl c) v = true ->
  min <= String.length u ->
  rmatch fl r v caps k = Some res ->
  rmatch fl (Rep c min true @@ r) (u ++ v) caps k = Some res.
Proof. intros Hu Hv Hm H. cbn [rmatch]. now apply rep_greedy_run. Qed.

Lemma step_group (n : nat) (c : cls) (min : nat) (r : regex) (u v : string)
    (caps : captures) k res :
  all_chars (in_class fl c) u = true ->
  stops (in_class fl c) v = true ->
  min <= String.length u ->
  rmatch fl r v ((n, u) :: caps) k = Some res ->
  rmatch fl (Group n (Rep c min true) @@ r) (u ++ v) caps k = Some res.
Proof.
  intros Hu Hv Hm H. cbn [rmatch]. apply rep_greedy_run; try assumption.
  now rewrite consumed_append.
Qed.

Lemma step_rep1 (c : cls) (min : nat) (r : regex) (a : ascii) (v : string)
    (caps : captures) k res :
  in_class fl c a = true ->
  stops (in_class fl c) v = true ->
  min <= 1 ->
  rmatch fl r v caps k = Some res ->
  rmatch fl (Rep c min true @@ r) (String a v) caps k = Some res.
Proof.
  intros Ha Hv Hm H. apply (step_rep c min r (String a "") v); try assumption.
  simpl. now rewrite Ha.
Qed.

Lemma step_rep1_last (c : cls) (min : nat) (a : ascii) (v : string)
    (caps : captures) k res :
  in_class fl c a = true ->
  stops (in_class fl c) v = true ->
  min <= 1 ->
  k v caps = Some res ->
  rmatch fl (Rep c min true) (String a v) caps k = Some res.
Proof.
  intros Ha Hv Hm H. apply (step_rep_last c min (String a "") v);
    try assumption.
  simpl. now rewrite Ha.
Qed.

Lemma step_opt_taken (r1 r2 : regex) (s : string) (caps : captures) k res :
  rmatch fl r1 s caps (fun s' caps' => rmatch fl r2 s' caps' k) = Some res ->
  rmatch fl (Opt r1 @@ r2) s caps k = Some res.
Proof. intros H. cbn [rmatch]. now rewrite H. Qed.

(** The lazy group stops where the rest of the pattern first matches. *)
Lemma step_group_lazy (n : nat) (c : cls) (r : regex) (u v : string)
    (caps : captures) k res :
  all_chars (in_class fl c) u = true ->
  (forall u1 u2 caps', u = u1 ++ u2 -> u2 <> "" ->
                       rmatch fl r (u2 ++ v) caps' k = None) ->
  rmatch fl r v ((n, u) :: caps) k = Some res ->
  rmatch fl (Group n (Rep c 0 false) @@ r) (u ++ v) caps k = Some res.
Proof.
  intros Hu Hnone H. cbn [rmatch]. apply rep_lazy_first; try assumption.
  - intros u1 u2 E Hne. now apply (Hnone u1 u2).
  - now rewrite consumed_append.
Qed.

End Steps.

Lemma all_chars_true (p : ascii -> bool) (s : string) :
  (forall c, p c = true) -> all_chars p s = true.
Proof.
  intros H. induction s as [|c s IH]; [reflexivity|].
  simpl. now rewrite H, IH.
Qed.

Lemma starts_in_zero_suffix (p u v : string) :
  starts_in p u v = 0 ->
  forall u1 u2, u = u1 ++ u2 -> u2 <> "" -> startswith p (u2 ++ v) = false.
Proof.
  intros H u1. revert u H. induction u1 as [|c u1 IH]; intros u H u2 -> Hne.
  - destruct u2 as [|d u2]; [contradiction|].
    cbn [append starts_in] in H. cbn [append].
    destruct (startswith p (String d (u2 ++ v))); [discriminate H | reflexivity].
  - cbn [append starts_in] in H. apply (IH (u1 ++ u2)); try reflexivity.
    + lia.
    + assumption.
Qed.

Lemma char_eq_close (fl : flags) (b : ascii) :
  char_eq fl ")" b = true -> b = ")"%char.
Proof.
  unfold char_eq. destruct (ignorecase fl); intros H.
  - revert H.
    destruct b as [[] [] [] [] [] [] [] []]; vm_compute; intros H;
      (reflexivity || discriminate H).
  - now apply Ascii.eqb_eq in H.
Qed.

Lemma char_eq_semicolon (fl : flags) (b : ascii) :
  char_eq fl ";" b = true -> b = ";"%char.
Proof.
  unfold char_eq. destruct (ignorecase fl); intros H.
  - revert H.
    destruct b as [[] [] [] [] [] [] [] []]; vm_compute; intros H;
      (reflexivity || discriminate H).
  - now apply Ascii.eqb_eq in H.
Qed.

Lemma lit_close_none (fl : flags) (s : string) :
  startswith ");" s = false -> lit fl ");" s = None.
Proof.
  intros H. destruct s as [|a s]; [reflexivity|]. cbn [lit].
  destruct (char_eq fl ")" a) eqn:Ea; [|reflexivity].
  apply char_eq_close in Ea. subst a.
  destruct s as [|b s]; [reflexivity|].
  destruct (char_eq fl ";" b) eqn:Eb; [|reflexivity].
  apply char_eq_semicolon in Eb. subst b. discriminate H.
Qed.

Lemma word_not_space (c : ascii) : is_word c = true -> is_space c = false.
Proof.
  destruct c as [[] [] [] [] [] [] [] []]; vm_compute; intros H;
    (reflexivity || discriminate H).
Qed.

(** A non-empty word does not begin with white space. *)
Lemma stops_space_word (w t : string) :
  all_chars is_word w = true -> w <> "" -> stops is_space (w ++ t) = true.
Proof.
  destruct w as [|c w]; [contradiction|]. simpl. intros H _.
  apply andb_prop in H as [Hc _]. now rewrite (word_not_space c Hc).
Qed.

(** The CREATE TABLE pattern on a block as the generator writes it: the
    match ends at the first [");"] and captures the name and the body. *)
Lemma match_block (tn body rest : string) :
  all_chars is_word tn = true -> tn <> "" ->
  starts_in ");" body (");" ++ rest) = 0 ->
  match_here Parse.fl_dotall_icase Parse.create_table_pattern
    ("CREATE TABLE IF NOT EXISTS " ++ tn ++ " (" ++ body ++ ");" ++ rest)
  = Some (rest, [(2, body); (1, tn)]).
Proof.
  intros Hw Hne Hbody. unfold match_here, Parse.create_table_pattern.
  eapply step_lit; [reflexivity|]. cbn [append].
  apply step_rep1; [reflexivity | reflexivity | lia |].
  eapply step_lit; [reflexivity|].
  apply step_rep1; [reflexivity | reflexivity | lia |].
  apply step_opt_taken.
  eapply step_lit; [reflexivity|].
  apply step_rep1; [reflexivity | reflexivity | lia |].
  eapply step_lit; [reflexivity|].
  apply step_rep1; [reflexivity | reflexivity | lia |].
  eapply step_lit; [reflexivity|].
  apply step_rep1_last; [reflexivity | now apply stops_space_word | lia |].
  apply step_group; [assumption | reflexivity | | ].
  { destruct tn; [contradiction | simpl; lia]. }
  apply step_rep1; [reflexivity | reflexivity | lia |].
  eapply step_lit; [reflexivity|].
  apply step_group_lazy.
  - now apply all_chars_true.
  - intros u1 u2 caps' E Hu2. cbn [rmatch]. rewrite lit_close_none; [reflexivity|].
    now apply (starts_in_zero_suffix _ body _ Hbody u1 u2).
  - eapply step_lit_last; reflexivity.
Qed.

Lemma optional_tail (X : string) (caps : captures) :
  exists rest,
    rmatch Parse.fl_none (Opt (Rep Space 1 true @@ Rep Dot 0 true)) X caps
           (fun rest caps' => Some (rest, caps'))
    = Some (rest, caps).
Proof.
  cbn [rmatch]. destruct (rep_greedy _ _ _ _) as [[rest caps']|] eqn:E.
  - apply rep_greedy_sound in E as (u1 & v1 & _ & _ & _ & E).
    apply rep_greedy_sound in E as (u2 & v2 & _ & _ & _ & E).
    injection E as <- <-. now exists v2.
  - now exists X.
Qed.

(** The column pattern on a line as the generator writes it. *)
Lemma column_match (a ty X : string) :
  all_chars is_word a = true -> a <> "" ->
  all_chars is_word ty = true -> ty <> "" ->
  stops is_word X = true ->
  re_match Parse.fl_none Parse.column_pattern (a ++ " " ++ ty ++ X)
  = Some [(2, ty); (1, a)].
Proof.
  intros Ha Hna Hty Hnty HX. unfold re_match, match_here, Parse.column_pattern.
  destruct (optional_tail X [(2, ty); (1, a)]) as [rest Hrest].
  assert (H : rmatch Parse.fl_none
                (Group 1 (Rep Word 1 true) @@ Rep Space 1 true @@
                 Group 2 (Rep Word 1 true) @@
                 Opt (Rep Space 1 true @@ Rep Dot 0 true))
                (a ++ " " ++ ty ++ X) []
                (fun rest caps => Some (rest, caps))
              = Some (rest, [(2, ty); (1, a)])).
  { cbn [append].
    apply step_group; [assumption | reflexivity | | ].
    { destruct a; [contradiction | simpl; lia]. }
    apply step_rep1; [reflexivity | now apply stops_space_word | lia |].
    apply step_group; [assumption | assumption | | ].
    { destruct ty; [contradiction | simpl; lia]. }
    exact Hrest. }
  now rewrite H.
Qed.

Lemma step_rep0 {A : Type} (fl : flags) (c : cls) (r : regex) (v : string)
    (caps : captures) (k : string -> captures -> option A) (res : A) :
  stops (in_class fl c) v = true ->
  rmatch fl r v caps k = Some res ->
  rmatch fl (Rep c 0 true @@ r) v caps k = Some res.
Proof.
  intros Hv H. apply (step_rep fl c 0 r "" v); try assumption; [reflexivity|].
  simpl. lia.
Qed.

(** The foreign-key pattern on a line as the generator writes it. *)
Lemma foreign_key_match (fc tt tc : string) :
  all_chars is_word fc = true -> fc <> "" ->
  all_chars is_word tt = true -> tt <> "" ->
  all_chars is_word tc = true -> tc <> "" ->
  match_here Parse.fl_icase Parse.foreign_key_pattern
    ("FOREIGN KEY (" ++ fc ++ ") REFERENCES " ++ tt ++ "(" ++ tc ++ ")")
  = Some ("", [(3, tc); (2, tt); (1, fc)]).
Proof.
  intros Hfc Hnfc Htt Hntt Htc Hntc.
  unfold match_here, Parse.foreign_key_pattern.
  eapply step_lit; [reflexivity|]. cbn [append].
  apply step_rep1; [reflexivity | reflexivity | lia |].
  eapply step_lit; [reflexivity|].
  apply step_rep1; [reflexivity | reflexivity | lia |].
  eapply step_lit; [reflexivity|].
  apply step_group; [assumption | reflexivity | | ].
  { destruct fc; [contradiction | simpl; lia]. }
  eapply step_lit; [reflexivity|].
  apply step_rep1; [reflexivity | reflexivity | lia |].
  eapply step_lit; [reflexivity|].
  apply step_rep1; [reflexivity | now apply stops_space_word | lia |].
  apply step_group; [assumption | reflexivity | | ].
  { destruct tt; [contradiction | simpl; lia]. }
  apply step_rep0; [reflexivity|].
  eapply step_lit; [reflexivity|].
  apply step_group; [assumption | reflexivity | | ].
  { destruct tc; [contradiction | simpl; lia]. }
  eapply step_lit_last; reflexivity.
Qed.

Lemma search_here (fl : flags) (r : regex) (s rest : string)
    (caps : captures) :
  match_here fl r s = Some (rest, caps) -> search fl r s = Some caps.
Proof. intros H. destruct s; cbn [search]; now rewrite H. Qed.

End MatchSteps.

(** ** Parsing what the generator wrote *)

Module TripFacts.
Import Py PyFacts Infer InferFacts Gen GenFacts TextFacts Re ReFacts.
Import Parse SplitFacts ParseFacts MatchSteps KeyFacts Trip.

(** *** Plain text under the scan and under stripping *)

Lemma depth_after_append (a b : string) :
  forall d, depth_after d (a ++ b) = depth_after (depth_after d a) b.
Proof. induction a as [|c a IH]; intros d; [reflexivity | apply IH]. Qed.

Lemma commas_nested_append (a b : string) :
  forall d, commas_nested d (a ++ b)
            = commas_nested d a && commas_nested (depth_after d a) b.
Proof.
  induction a as [|c a IH]; intros d; [reflexivity|].
  cbn [append commas_nested depth_after]. now rewrite IH, andb_assoc.
Qed.

(** Word characters are no parentheses and no commas. *)
Lemma word_plain (c : ascii) :
  is_word c = true ->
  Ascii.eqb c "(" = false /\ Ascii.eqb c ")" = false /\ Ascii.eqb c "," = false.
Proof.
  destruct c as [[] [] [] [] [] [] [] []]; vm_compute; intros H;
    try discriminate H; now repeat split.
Qed.

Lemma word_scan (w : string) :
  all_chars is_word w = true ->
  forall d, commas_nested d w = true /\ depth_after d w = d.
Proof.
  induction w as [|c w IH]; intros H d; [now split|].
  simpl in H. apply andb_prop in H as [Hc Hw].
  destruct (word_plain c Hc) as (H1 & H2 & H3).
  cbn [commas_nested depth_after]. unfold depth_step.
  rewrite H1, H2, H3. cbn [andb negb]. now apply IH.
Qed.

Lemma lstrip_word (w t : string) :
  all_chars is_word w = true -> w <> "" -> lstrip (w ++ t) = w ++ t.
Proof.
  destruct w as [|c w]; [contradiction|]. simpl. intros H _.
  apply andb_prop in H as [Hc _]. now rewrite (word_not_space c Hc).
Qed.

Lemma rstrip_fixed_append (a x : string) :
  rstrip x = x -> x <> "" -> rstrip (a ++ x) = a ++ x.
Proof.
  intros Hx Hne. induction a as [|c a IH]; [exact Hx|].
  cbn [append rstrip]. rewrite IH.
  destruct (a ++ x) eqn:E; [|reflexivity].
  destruct a; [contradiction | discriminate E].
Qed.

Lemma upper_append (a b : string) : upper (a ++ b) = upper a ++ upper b.
Proof.
  unfold upper. induction a as [|c a IH]; simpl; [reflexivity | now rewrite IH].
Qed.

Lemma word_upper_no_blank (w : string) :
  all_chars is_word w = true -> no_char " " (upper w) = true.
Proof.
  unfold no_char, upper. induction w as [|c w IH]; [reflexivity|].
  simpl. intros H. apply andb_prop in H as [Hc Hw]. rewrite (IH Hw), andb_true_r.
  revert Hc. destruct c as [[] [] [] [] [] [] [] []]; vm_compute; intros H;
    (reflexivity || discriminate H).
Qed.

Lemma word_no_blank (w : string) :
  all_chars is_word w = true -> no_char " " w = true.
Proof. apply word_no_char. reflexivity. Qed.

(** *** The content of an attribute line *)

(** Case analysis over the type and the constraints of an attribute. *)
Ltac attr_cases attr pk :=
  unfold attr_content, constraints;
  let E := fresh "Etype" in
  destruct (data_type_cases attr) as [E | [E | E]]; rewrite E; clear E;
  destruct pk, (contains "email" (lower attr)),
    (contains "name" (lower attr) && negb (endswith "_id" (lower attr))).

Lemma attr_content_strip (attr : string) (pk : bool) :
  identifier attr -> strip (attr_content attr pk) = attr_content attr pk.
Proof.
  intros [Hw Hne]. unfold strip.
  assert (El : lstrip (attr_content attr pk) = attr_content attr pk)
    by (now apply lstrip_word).
  rewrite El. clear El. attr_cases attr pk;
    (apply rstrip_fixed_append; [reflexivity | discriminate]).
Qed.

Lemma attr_content_nonempty (attr : string) (pk : bool) :
  identifier attr -> attr_content attr pk <> "".
Proof.
  intros [_ Hne]. unfold attr_content. destruct attr; [contradiction | discriminate].
Qed.

Lemma attr_content_scan (attr : string) (pk : bool) :
  identifier attr ->
  commas_nested 0%Z (attr_content attr pk) = true
  /\ depth_after 0%Z (attr_content attr pk) = 0%Z.
Proof.
  intros [Hw _]. destruct (word_scan attr Hw 0%Z) as [H1 H2].
  attr_cases attr pk;
    rewrite commas_nested_append, depth_after_append, H1, H2;
    split; reflexivity.
Qed.

Lemma attr_content_not_foreign_key (attr : string) (pk : bool) :
  identifier attr ->
  startswith "FOREIGN KEY" (upper (attr_content attr pk)) = false.
Proof.
  intros [Hw _]. unfold attr_content. rewrite upper_append.
  change (upper (" " ++ data_type attr ++ constraints attr pk))
    with (String " " (upper (data_type attr ++ constraints attr pk))).
  apply (startswith_blank_blank "FOREIGN" "KEY");
    [| reflexivity | now apply word_upper_no_blank].
  destruct (data_type_cases attr) as [E | [E | E]]; rewrite E; reflexivity.
Qed.

Lemma attr_content_match (attr : string) (pk : bool) :
  identifier attr ->
  re_match fl_none column_pattern (attr_content attr pk)
  = Some [(2, data_type attr); (1, attr)].
Proof.
  intros [Hw Hne]. unfold attr_content. apply column_match; try assumption.
  - destruct (data_type_cases attr) as [E | [E | E]]; rewrite E; reflexivity.
  - destruct (data_type_cases attr) as [E | [E | E]]; rewrite E; discriminate.
  - unfold constraints.
    destruct pk, (contains "email" (lower attr)),
      (contains "name" (lower attr) && negb (endswith "_id" (lower attr)));
      reflexivity.
Qed.

(** An attribute line read back: its name and its type are recorded. *)
Lemma def_step_attr_content (tn : string) (a : list string) (c : list Column)
    (r : list Relationship) (attr : string) (pk : bool) :
  identifier attr ->
  def_step tn (a, c, r) (attr_content attr pk)
  = (List.app a [attr], List.app c [ColDict attr (data_type attr)], r).
Proof.
  intros H. rewrite def_step_column.
  - now rewrite attr_content_strip, attr_content_match.
  - rewrite attr_content_strip by assumption. now apply attr_content_nonempty.
  - rewrite attr_content_strip by assumption.
    now apply attr_content_not_foreign_key.
Qed.

Lemma attr_content_clean (attr : string) (pk : bool) :
  identifier attr -> clean_definition (attr_content attr pk).
Proof.
  intros H. split; [now apply attr_content_strip|].
  split; [now apply attr_content_nonempty | now apply attr_content_scan].
Qed.

(** *** The content of a foreign-key line *)

Lemma word_depth (w : string) (d : Z) :
  all_chars is_word w = true -> depth_after d w = d.
Proof. intros H. apply (word_scan w H d). Qed.

Lemma word_commas (w : string) (d : Z) :
  all_chars is_word w = true -> commas_nested d w = true.
Proof. intros H. apply (word_scan w H d). Qed.

Lemma fk_content_plural (rel : Relationship) :
  fk_content rel
  = "FOREIGN KEY (" ++ fromColumn rel ++ ") REFERENCES "
    ++ (toTable rel ++ "s") ++ "(" ++ toColumn rel ++ ")".
Proof. unfold fk_content. now rewrite append_assoc. Qed.

Ltac nonempty_text :=
  let H := fresh in
  intros H; apply (f_equal String.length) in H;
  rewrite ?length_append in H; simpl in H; lia.

Lemma fk_content_strip (rel : Relationship) :
  strip (fk_content rel) = fk_content rel.
Proof.
  unfold strip.
  assert (El : lstrip (fk_content rel) = fk_content rel) by reflexivity.
  rewrite El. unfold fk_content.
  repeat (apply rstrip_fixed_append; [|nonempty_text]).
  reflexivity.
Qed.

Lemma fk_content_nonempty (rel : Relationship) : fk_content rel <> "".
Proof. unfold fk_content. discriminate. Qed.

Lemma fk_content_scan (rel : Relationship) :
  word_rel rel -> closed_definition (fk_content rel).
Proof.
  intros ([H1 _] & H2 & [H3 _]). unfold closed_definition, fk_content.
  rewrite !commas_nested_append, !depth_after_append.
  rewrite ?word_depth, ?word_commas by assumption.
  cbn. rewrite ?word_depth, ?word_commas by assumption.
  cbn. rewrite ?word_depth, ?word_commas by assumption.
  split; reflexivity.
Qed.

Lemma fk_content_clean (rel : Relationship) :
  word_rel rel -> clean_definition (fk_content rel).
Proof.
  intros H. split; [apply fk_content_strip|].
  split; [apply fk_content_nonempty | now apply fk_content_scan].
Qed.

Lemma fk_content_foreign_key (rel : Relationship) :
  startswith "FOREIGN KEY" (upper (fk_content rel)) = true.
Proof. unfold fk_content. rewrite upper_append. reflexivity. Qed.

Lemma fk_content_search (rel : Relationship) :
  word_rel rel ->
  search fl_icase foreign_key_pattern (fk_content rel)
  = Some [(3, toColumn rel); (2, toTable rel ++ "s"); (1, fromColumn rel)].
Proof.
  intros ([H1 N1] & H2 & [H3 N3]). rewrite fk_content_plural.
  apply (search_here _ _ _ ""). apply foreign_key_match; try assumption.
  - rewrite all_chars_append, H2. reflexivity.
  - nonempty_text.
Qed.

(** A foreign-key line read back: one relationship, from the table of the
    block to the table named after REFERENCES. *)
Lemma def_step_fk_content (tn : string) (a : list string) (c : list Column)
    (r : list Relationship) (rel : Relationship) :
  word_rel rel ->
  def_step tn (a, c, r) (fk_content rel)
  = (a, c, List.app r [mkRel tn (fromColumn rel) (toTable rel ++ "s")
                             (toColumn rel)]).
Proof.
  intros H. rewrite def_step_foreign_key.
  - now rewrite fk_content_strip, fk_content_search.
  - rewrite fk_content_strip. apply fk_content_foreign_key.
Qed.

(** *** The body of a table under the scan *)

Lemma flush_clean (ws c w2 : string) (defs : list string) :
  all_chars is_space ws = true -> all_chars is_space w2 = true ->
  clean_definition c ->
  flush (ws ++ c ++ w2) defs = List.app defs [c].
Proof.
  intros Hws Hw2 (Hs & Hne & _). unfold flush.
  rewrite strip_surrounded, Hs by assumption.
  destruct c; [contradiction | reflexivity].
Qed.

Lemma flush_blank (ws : string) (defs : list string) :
  all_chars is_space ws = true -> flush ws defs = defs.
Proof.
  intros H. unfold flush.
  rewrite <- (append_nil_r ws), strip_spaces_l by assumption. reflexivity.
Qed.

(** A line that ends with a comma hands its content over and leaves the
    line feed in the current line. *)
Lemma scan_line_comma (c ws : string) (defs : list string) :
  all_chars is_space ws = true -> clean_definition c ->
  scan_body (line c true) (0%Z, ws, defs) = (0%Z, nl, List.app defs [c]).
Proof.
  intros Hws Hc. pose proof Hc as (_ & _ & Hn & Hd). unfold line.
  rewrite scan_body_append, (scan_body_nested "  ") by reflexivity.
  rewrite scan_body_append, scan_body_nested by assumption.
  cbn [depth_after depth_step Ascii.eqb Bool.eqb]. rewrite Hd.
  cbn [append]. rewrite scan_body_cons, split_step_cut.
  rewrite <- (append_nil_r ((ws ++ "  ") ++ c)), append_assoc.
  rewrite flush_clean; [reflexivity | | reflexivity | assumption].
  rewrite all_chars_append, Hws. reflexivity.
Qed.

(** A last line without a comma stays in the current line. *)
Lemma scan_line_last (c ws : string) (defs : list string) :
  clean_definition c ->
  scan_body (line c false) (0%Z, ws, defs)
  = (0%Z, (ws ++ "  ") ++ c ++ nl, defs).
Proof.
  intros (_ & _ & Hn & Hd). unfold line.
  rewrite scan_body_append, (scan_body_nested "  ") by reflexivity.
  rewrite scan_body_append, scan_body_nested by assumption.
  cbn [depth_after depth_step Ascii.eqb Bool.eqb]. rewrite Hd.
  cbn [append]. rewrite scan_body_nested by reflexivity.
  now rewrite append_assoc.
Qed.

Lemma scan_render (entries : list (string * bool)) :
  commas_between entries ->
  Forall clean_definition (map fst entries) ->
  forall ws defs,
    all_chars is_space ws = true ->
    (let '(_, cur, defs') := scan_body (render entries) (0%Z, ws, defs) in
     flush cur defs')
    = List.app defs (map fst entries).
Proof.
  induction entries as [|[c comma] rest IH]; intros Hcb Hcl ws defs Hws.
  - cbn. rewrite app_nil_r. now apply flush_blank.
  - cbn [map fst] in Hcl. apply Forall_cons_iff in Hcl as [Hc Hrest].
    cbn [commas_between] in Hcb. destruct Hcb as [Hlast Hcb].
    cbn [render map fst]. rewrite scan_body_append.
    destruct comma.
    + rewrite scan_line_comma by assumption.
      rewrite (IH Hcb Hrest nl _ eq_refl). now rewrite <- app_assoc.
    + destruct Hlast as [-> | Hf]; [|discriminate Hf].
      rewrite scan_line_last by assumption. cbn [render scan_body].
      change (fold_left split_step (list_ascii_of_string "") ?st) with st.
      cbn [map]. apply flush_clean; [|reflexivity|assumption].
      rewrite all_chars_append, Hws. reflexivity.
Qed.

(** The definitions found in a generated body are the contents of its
    lines. *)
Lemma column_definitions_render (entries : list (string * bool)) :
  commas_between entries ->
  Forall clean_definition (map fst entries) ->
  column_definitions (nl ++ render entries) = map fst entries.
Proof.
  intros Hcb Hcl. unfold column_definitions. rewrite scan_body_append.
  change (scan_body nl (0%Z, "", [])) with (0%Z, nl, @nil string).
  apply (scan_render entries Hcb Hcl nl [] eq_refl).
Qed.

(** *** The lines of a generated table *)

Lemma attr_entries_commas (hpk anyrel : bool) (attrs : list string) :
  commas_between (attr_entries hpk anyrel attrs)
  /\ (anyrel = true ->
      Forall (fun e => snd e = true) (attr_entries hpk anyrel attrs)).
Proof.
  revert hpk. induction attrs as [|a rest IH]; intros hpk.
  - split; [exact I | constructor].
  - cbn [attr_entries commas_between]. destruct (IH (hpk || is_id_like a))
      as [H1 H2]. repeat split.
    + destruct rest; [now left | now right].
    + assumption.
    + intros ->. constructor; [apply orb_true_r | now apply H2].
Qed.

Lemma fk_entries_commas (rels : list Relationship) :
  commas_between (fk_entries rels).
Proof.
  induction rels as [|r rest IH]; [exact I|].
  cbn [fk_entries commas_between]. split; [|assumption].
  destruct rest; [now left | now right].
Qed.

Lemma commas_between_app (e1 e2 : list (string * bool)) :
  commas_between e1 -> commas_between e2 ->
  (e2 = [] \/ Forall (fun e => snd e = true) e1) ->
  commas_between (List.app e1 e2).
Proof.
  intros H1 H2 [-> | Hall]; [now rewrite app_nil_r|].
  induction e1 as [|[c comma] e1 IH]; [exact H2|].
  cbn [List.app commas_between]. cbn [commas_between] in H1.
  apply Forall_cons_iff in Hall as [Hc Hall]. simpl in Hc.
  split; [now right | apply IH; tauto].
Qed.

Lemma table_entries_commas (table : Table) (rels : list Relationship) :
  commas_between (table_entries table rels).
Proof.
  unfold table_entries.
  destruct (attr_entries_commas false (nonempty rels) (table_attributes table))
    as [H1 H2].
  apply commas_between_app; [assumption | apply fk_entries_commas |].
  destruct (table_relationships table rels) as [|r rs] eqn:E; [now left|].
  right. apply H2. destruct rels; [discriminate E | reflexivity].
Qed.

Lemma attr_entries_clean (hpk anyrel : bool) (attrs : list string) :
  Forall identifier attrs ->
  Forall clean_definition (map fst (attr_entries hpk anyrel attrs)).
Proof.
  intros H. revert hpk. induction H as [|a rest Ha _ IH]; intros hpk.
  - constructor.
  - cbn [attr_entries map fst]. constructor; [|apply IH].
    now apply attr_content_clean.
Qed.

Lemma fk_entries_clean (rels : list Relationship) :
  Forall word_rel rels ->
  Forall clean_definition (map fst (fk_entries rels)).
Proof.
  induction 1 as [|r rest Hr _ IH]; [constructor|].
  cbn [fk_entries map fst]. constructor; [|exact IH].
  now apply fk_content_clean.
Qed.

Lemma table_entries_clean (table : Table) (rels : list Relationship) :
  word_table rels table ->
  Forall clean_definition (map fst (table_entries table rels)).
Proof.
  intros (_ & Ha & Hr). unfold table_entries. rewrite map_app.
  apply Forall_app. split.
  - now apply attr_entries_clean.
  - now apply fk_entries_clean.
Qed.

(** The definitions of a generated table body. *)
Lemma column_definitions_table_body (table : Table)
    (rels : list Relationship) :
  word_table rels table ->
  column_definitions (table_body table rels)
  = map fst (table_entries table rels).
Proof.
  intros H. unfold table_body. apply column_definitions_render.
  - apply table_entries_commas.
  - now apply table_entries_clean.
Qed.

(** *** No [");"] inside a generated body *)

Lemma starts_in_close_attr (attr : string) (pk : bool) (b : string) :
  identifier attr -> starts_in ");" (attr_content attr pk) b = 0.
Proof.
  intros [Hw _]. apply starts_in_no_first.
  unfold attr_content. rewrite no_char_append.
  rewrite (word_no_char ")" attr) by (reflexivity || assumption).
  attr_cases attr pk; reflexivity.
Qed.

Lemma starts_in_close_fk (rel : Relationship) (comma : bool) (b : string) :
  word_rel rel ->
  starts_in ");" (fk_content rel) ((if comma then "," else "") ++ nl ++ b) = 0.
Proof.
  intros ([H1 _] & H2 & [H3 _]). unfold fk_content.
  rewrite (starts_in_append _ "FOREIGN KEY ("), ?append_assoc.
  rewrite (starts_in_no_first ")" ";" "FOREIGN KEY (") by reflexivity.
  rewrite (starts_in_append _ (fromColumn rel)), ?append_assoc.
  rewrite (starts_in_no_first ")" ";" (fromColumn rel))
    by (apply word_no_char; [reflexivity | assumption]).
  rewrite (starts_in_append _ ") REFERENCES "), ?append_assoc.
  change (starts_in ");" ") REFERENCES " ?x) with 0.
  rewrite (starts_in_append _ (toTable rel)), ?append_assoc.
  rewrite (starts_in_no_first ")" ";" (toTable rel))
    by (apply word_no_char; [reflexivity | assumption]).
  rewrite (starts_in_append _ "s("), ?append_assoc.
  rewrite (starts_in_no_first ")" ";" "s(") by reflexivity.
  rewrite (starts_in_append _ (toColumn rel)), ?append_assoc.
  rewrite (starts_in_no_first ")" ";" (toColumn rel))
    by (apply word_no_char; [reflexivity | assumption]).
  destruct comma; reflexivity.
Qed.

Lemma starts_in_close_line (content : string) (comma : bool) (b : string) :
  starts_in ");" (line content comma) b
  = starts_in ");" content ((if comma then "," else "") ++ nl ++ b).
Proof.
  unfold line. rewrite (starts_in_append _ "  ").
  rewrite (starts_in_no_first ")" ";" "  ") by reflexivity.
  rewrite (starts_in_append _ content).
  rewrite (starts_in_no_first ")" ";" ((if comma then "," else "") ++ nl))
    by (now destruct comma).
  rewrite append_assoc. lia.
Qed.

Lemma starts_in_close_attr_lines (hpk anyrel : bool) (attrs : list string)
    (b : string) :
  Forall identifier attrs ->
  starts_in ");" (render (attr_entries hpk anyrel attrs)) b = 0.
Proof.
  intros H. revert hpk. induction H as [|a rest Ha _ IH]; intros hpk.
  - reflexivity.
  - cbn [attr_entries render]. rewrite starts_in_append, starts_in_close_line.
    now rewrite starts_in_close_attr, IH.
Qed.

Lemma starts_in_close_fk_lines (rels : list Relationship) (b : string) :
  Forall word_rel rels ->
  starts_in ");" (render (fk_entries rels)) b = 0.
Proof.
  induction 1 as [|r rest Hr _ IH]; [reflexivity|].
  cbn [fk_entries render]. rewrite starts_in_append, starts_in_close_line.
  now rewrite starts_in_close_fk, IH.
Qed.

Lemma starts_in_close_body (table : Table) (rels : list Relationship)
    (b : string) :
  word_table rels table ->
  starts_in ");" (table_body table rels) b = 0.
Proof.
  intros (_ & Ha & Hr). unfold table_body, table_entries.
  rewrite starts_in_append, (starts_in_no_first ")" ";" nl) by reflexivity.
  rewrite render_app, starts_in_append.
  now rewrite starts_in_close_attr_lines, starts_in_close_fk_lines.
Qed.

(** *** One table read back *)

Lemma fold_attr_contents (tn : string) (anyrel : bool) (attrs : list string) :
  Forall identifier attrs ->
  forall hpk a c r,
    fold_left (def_step tn) (map fst (attr_entries hpk anyrel attrs)) (a, c, r)
    = (List.app a attrs,
       List.app c (map (fun attr => ColDict attr (data_type attr)) attrs), r).
Proof.
  induction 1 as [|x rest Hx _ IH]; intros hpk a c r.
  - cbn. now rewrite !app_nil_r.
  - cbn [attr_entries map fst fold_left].
    rewrite def_step_attr_content by assumption.
    rewrite IH, <- !app_assoc. reflexivity.
Qed.

Lemma fold_fk_contents (tn : string) (rels : list Relationship) :
  Forall word_rel rels ->
  forall a c r,
    fold_left (def_step tn) (map fst (fk_entries rels)) (a, c, r)
    = (a, c,
       List.app r (map (fun rel => mkRel tn (fromColumn rel)
                                         (toTable rel ++ "s") (toColumn rel))
                       rels)).
Proof.
  induction 1 as [|x rest Hx _ IH]; intros a c r.
  - cbn. now rewrite app_nil_r.
  - cbn [fk_entries map fst fold_left].
    rewrite def_step_fk_content by assumption.
    rewrite IH, <- app_assoc. reflexivity.
Qed.

(** The match of a generated block gives back the table, with the plural s
    in its name, and the relationships that start at it. *)
Lemma table_of_generated_match (table : Table) (rels : list Relationship) :
  word_table rels table ->
  table_of_match [(2, table_body table rels); (1, t_name table ++ "s")]
  = (reparsed_table table,
     map (reparsed_rel table) (table_relationships table rels)).
Proof.
  intros H. pose proof H as (_ & Ha & Hr). unfold table_of_match.
  cbn [group Nat.eqb].
  rewrite column_definitions_table_body by assumption.
  unfold table_entries. rewrite map_app, fold_left_app.
  rewrite fold_attr_contents by assumption.
  rewrite fold_fk_contents by assumption.
  reflexivity.
Qed.

(** *** All the blocks of a generated text *)

Lemma findall_after_match (fl : flags) (r : regex) (s rest : string)
    (caps : captures) :
  match_here fl r s = Some (rest, caps) ->
  String.length rest < String.length s ->
  findall fl r s = caps :: findall fl r rest.
Proof.
  intros H Hlen. destruct (match_here_suffix _ _ _ _ _ H) as [u ->].
  apply findall_match; [|assumption].
  intros ->. simpl in Hlen. lia.
Qed.

Lemma block_text (table : Table) (all_tables : list Table)
    (rels : list Relationship) (rest : string) :
  generate_table_sql table all_tables rels ++ rest
  = "CREATE TABLE IF NOT EXISTS " ++ (t_name table ++ "s") ++ " ("
    ++ table_body table rels ++ ");" ++ rest.
Proof.
  rewrite generate_table_sql_shape, !append_assoc. cbn [append]. reflexivity.
Qed.

(** The captures of the block of [table]. *)
Lemma findall_block (table : Table) (all_tables : list Table)
    (rels : list Relationship) (rest : string) :
  word_table rels table ->
  findall fl_dotall_icase create_table_pattern
          (generate_table_sql table all_tables rels ++ rest)
  = [(2, table_body table rels); (1, t_name table ++ "s")]
    :: findall fl_dotall_icase create_table_pattern rest.
Proof.
  intros H. pose proof H as (Hn & _ & _). rewrite block_text.
  apply findall_after_match.
  - apply match_block.
    + rewrite all_chars_append, Hn. reflexivity.
    + intros E. apply (f_equal String.length) in E.
      rewrite length_append in E. simpl in E. lia.
    + now apply starts_in_close_body.
  - rewrite !length_append. simpl. lia.
Qed.

Lemma concat_two (sep x y : string) (l : list string) :
  String.concat sep (x :: y :: l) = x ++ sep ++ String.concat sep (y :: l).
Proof. reflexivity. Qed.

Lemma findall_generated (all_tables : list Table) (rels : list Relationship)
    (ts : list Table) :
  Forall (word_table rels) ts ->
  findall fl_dotall_icase create_table_pattern
    (join (nl ++ nl)
          (map (fun table => generate_table_sql table all_tables rels) ts))
  = map (fun table => [(2, table_body table rels); (1, t_name table ++ "s")])
        ts.
Proof.
  unfold join. induction 1 as [|t ts Ht Hts IH]; [reflexivity|].
  destruct ts as [|t' ts].
  - cbn [map String.concat].
    rewrite <- (append_nil_r (generate_table_sql t all_tables rels)).
    now rewrite findall_block.
  - cbn [map] in IH |- *. rewrite concat_two, findall_block by assumption.
    f_equal. cbn [nl append].
    rewrite findall_no_match by reflexivity.
    rewrite findall_no_match by reflexivity.
    exact IH.
Qed.

Lemma tables_of_generated_matches (rels : list Relationship)
    (ts : list Table) :
  Forall (word_table rels) ts ->
  let ms := map (fun table =>
                   [(2, table_body table rels); (1, t_name table ++ "s")]) ts in
  map (fun m => fst (table_of_match m)) ms = map reparsed_table ts
  /\ flat_map (fun m => snd (table_of_match m)) ms
     = flat_map (fun table =>
                   map (reparsed_rel table) (table_relationships table rels))
                ts.
Proof.
  induction 1 as [|t ts Ht _ [IH1 IH2]]; [now split|].
  cbn [map flat_map]. rewrite table_of_generated_match by assumption.
  cbn [fst snd]. cbn zeta in IH1, IH2. now rewrite IH1, IH2.
Qed.

(** C1, as the code has it: when the names of a schema are made of word
    characters (attributes and relationship columns non-empty), parsing the
    generated text gives one table per table, in order, named with the plural
    s that the generator appends, holding the attribute names in order, and
    gives, block by block, the relationships that start at each table, with
    the plural s on both table names; columns are read back with the type
    the generator wrote. *)
Theorem C1_round_trip (schema : Schema) :
  word_schema schema ->
  let back :=
    parse_sql_to_schema (generate_sql_from_structured_schema schema) in
  back = reparsed schema
  /\ map t_name (tables back)
     = map (fun table => t_name table ++ "s") (tables schema)
  /\ map t_attributes (tables back) = map table_attributes (tables schema)
  /\ map endpoints (relationships back)
     = flat_map (fun table =>
                   map (fun rel => (t_name table ++ "s", fromColumn rel,
                                    toTable rel ++ "s", toColumn rel))
                       (table_relationships table (relationships schema)))
                (tables schema).
Proof.
  intros H back.
  assert (E : back = reparsed schema).
  { unfold back, generate_sql_from_structured_schema, word_schema in *.
    rewrite parse_by_matches, findall_generated by assumption.
    destruct (tables_of_generated_matches _ _ H) as [E1 E2].
    cbn zeta in *. now rewrite E1, E2. }
  split; [exact E|]. rewrite E. unfold reparsed. cbn [tables relationships].
  repeat split.
  - now rewrite map_map.
  - now rewrite map_map.
  - induction (tables schema) as [|t ts IH]; [reflexivity|].
    cbn [flat_map]. now rewrite map_app, map_map, IH.
Qed.

Lemma C1_round_trip_witness :
  let schema :=
    mkSchema [mkTable "Student" ["Student_ID"; "Name"] [];
              mkTable "Borrowing" ["Borrowing_ID"; "Student_ID"] []]
             [mkRel "Borrowing" "Student_ID" "Student" "Student_ID"] in
  map t_name
      (tables (parse_sql_to_schema
                 (generate_sql_from_structured_schema schema)))
  = ["Students"; "Borrowings"].
Proof.
  intros schema.
  refine (proj1 (proj2 (C1_round_trip schema _))).
  repeat constructor; discriminate.
Defined.

(** C1 as stated fails: the table names and the table ends of the
    relationship come back with the plural s of the generator. *)
Lemma C1_names_come_back_plural :
  let schema :=
    mkSchema [mkTable "Student" ["Student_ID"; "Name"] [];
              mkTable "Borrowing" ["Borrowing_ID"; "Student_ID"] []]
             [mkRel "Borrowing" "Student_ID" "Student" "Student_ID"] in
  let back :=
    parse_sql_to_schema (generate_sql_from_structured_schema schema) in
  map t_name (tables schema) = ["Student"; "Borrowing"]
  /\ map t_name (tables back) = ["Students"; "Borrowings"]
  /\ map endpoints (relationships schema)
     = [("Borrowing", "Student_ID", "Student", "Student_ID")]
  /\ map endpoints (relationships back)
     = [("Borrowings", "Student_ID", "Students", "Student_ID")]
  /\ map t_name (tables back) <> map t_name (tables schema)
  /\ map endpoints (relationships back)
     <> map endpoints (relationships schema).
Proof.
  cbv zeta. repeat split; try (vm_compute; reflexivity);
    intros H; vm_compute in H; discriminate H.
Qed.

End TripFacts.

(** ** More on the statement splitter *)

Module ExecMore.
Import Py PyFacts Exec ExecFacts Infer InferFacts Gen GenFacts GenMore.
Import TextFacts KeyFacts ParseFacts MatchSteps TripFacts.

Lemma lstrip_head (s r : string) (c : ascii) :
  lstrip s = String c r -> is_space c = false.
Proof.
  induction s as [|d s IH]; simpl; [discriminate|].
  destruct (is_space d) eqn:E; [exact IH|].
  intros H. injection H as <- _. exact E.
Qed.

Lemma lstrip_nil (s : string) :
  lstrip s = "" -> all_chars is_space s = true.
Proof.
  induction s as [|d s IH]; simpl; [reflexivity|].
  destruct (is_space d); [exact IH | discriminate].
Qed.

Lemma rstrip_nil (s : string) :
  rstrip s = "" -> all_chars is_space s = true.
Proof.
  induction s as [|d s IH]; simpl; [reflexivity|].
  destruct (rstrip s); [|discriminate].
  destruct (is_space d); [intros _; now apply IH | discriminate].
Qed.

Lemma rstrip_head (c : ascii) (s : string) :
  is_space c = false -> exists r, rstrip (String c s) = String c r.
Proof.
  intros H. simpl. destruct (rstrip s); rewrite ?H; eauto.
Qed.

(** Only white space strips to nothing. *)
Lemma strip_nil_iff (s : string) :
  strip s = "" <-> all_chars is_space s = true.
Proof.
  split.
  - unfold strip. intros H. destruct (lstrip s) as [|c r] eqn:E.
    + now apply lstrip_nil.
    + destruct (rstrip_head c r (lstrip_head _ _ _ E)) as [r' Hr].
      rewrite Hr in H. discriminate.
  - intros H. unfold strip. now rewrite lstrip_all_space.
Qed.

Lemma rstrip_idem (s : string) : rstrip (rstrip s) = rstrip s.
Proof.
  induction s as [|c s IH]; [reflexivity|].
  simpl. destruct (rstrip s) as [|d r] eqn:E.
  - destruct (is_space c) eqn:Ec; [reflexivity|]. simpl. now rewrite Ec.
  - change (rstrip (String c (String d r)))
      with (match rstrip (String d r) with
            | "" => if is_space c then "" else String c ""
            | x => String c x
            end).
    now rewrite IH.
Qed.

(** Stripping twice is stripping once. *)
Lemma strip_idem (s : string) : strip (strip s) = strip s.
Proof.
  unfold strip. destruct (lstrip s) as [|c r] eqn:E; [reflexivity|].
  pose proof (lstrip_head _ _ _ E) as Hc.
  destruct (rstrip_head c r Hc) as [r' Hr]. rewrite Hr.
  cbn [lstrip]. rewrite Hc, <- Hr. apply rstrip_idem.
Qed.

Lemma lstrip_all_chars (p : ascii -> bool) (s : string) :
  all_chars p s = true -> all_chars p (lstrip s) = true.
Proof.
  induction s as [|c s IH]; [reflexivity|]. simpl. intros H.
  destruct (is_space c); [|exact H].
  apply andb_prop in H as [_ H]. now apply IH.
Qed.

Lemma rstrip_all_chars (p : ascii -> bool) (s : string) :
  all_chars p s = true -> all_chars p (rstrip s) = true.
Proof.
  induction s as [|c s IH]; [reflexivity|]. simpl. intros H.
  apply andb_prop in H as [Hc H]. specialize (IH H).
  destruct (rstrip s).
  - destruct (is_space c); [reflexivity|]. simpl. now rewrite Hc.
  - simpl in *. now rewrite Hc, IH.
Qed.

Lemma strip_all_chars (p : ascii -> bool) (s : string) :
  all_chars p s = true -> all_chars p (strip s) = true.
Proof. intros H. now apply rstrip_all_chars, lstrip_all_chars. Qed.

(** The fragments of a split hold the characters of the text that are not
    the separator. *)
Lemma split_all_chars (q : ascii -> bool) (sep : ascii) (s : string) :
  Forall (fun f => all_chars q f = true) (split sep s)
  <-> all_chars (fun c => q c || Ascii.eqb c sep) s = true.
Proof.
  induction s as [|c s IH]; simpl.
  - split; [reflexivity | now repeat constructor].
  - destruct (Ascii.eqb c sep) eqn:E.
    + rewrite orb_true_r. simpl. rewrite <- IH. split.
      * intros H. now apply Forall_cons_iff in H.
      * intros H. now constructor.
    + rewrite orb_false_r. pose proof (split_nonempty sep s) as Hne.
      destruct (split sep s) as [|h t]; [contradiction|].
      rewrite andb_true_iff, <- IH. split.
      * intros H. apply Forall_cons_iff in H as [H1 H2]. simpl in H1.
        apply andb_prop in H1 as [Hq Hh]. split; [assumption|].
        now constructor.
      * intros [Hq H]. apply Forall_cons_iff in H as [Hh Ht].
        constructor; [|assumption]. simpl. now rewrite Hq, Hh.
Qed.

Lemma split_no_sep_inside (sep : ascii) (s : string) :
  Forall (fun f => no_char sep f = true) (split sep s).
Proof.
  unfold no_char. apply split_all_chars.
  induction s as [|c s IH]; [reflexivity|].
  simpl. rewrite IH. now destruct (Ascii.eqb c sep).
Qed.

Lemma filter_nil_iff {X : Type} (f : X -> bool) (l : list X) :
  filter f l = [] <-> Forall (fun x => f x = false) l.
Proof.
  induction l as [|x l IH]; simpl.
  - split; [constructor | reflexivity].
  - destruct (f x) eqn:E.
    + split; [discriminate|]. intros H. apply Forall_cons_iff in H as [H _].
      congruence.
    + rewrite IH. split.
      * intros H. now constructor.
      * intros H. now apply Forall_cons_iff in H.
Qed.

(** X1: [execute_sql] finds no statement to run exactly when the text
    consists of white space and semicolons only. *)
Theorem X1_no_statement_iff_blank (sql : string) :
  statements sql = [] <-> all_chars is_space_or_semicolon sql = true.
Proof.
  unfold statements, is_space_or_semicolon.
  rewrite <- (split_all_chars is_space ";").
  split.
  - intros H. apply map_eq_nil in H. apply filter_nil_iff in H.
    apply Forall_forall. intros f Hf.
    rewrite Forall_forall in H. specialize (H f Hf).
    apply strip_nil_iff. now destruct (strip f).
  - intros H. rewrite (proj2 (filter_nil_iff _ _)); [reflexivity|].
    apply Forall_forall. intros f Hf.
    rewrite Forall_forall in H. specialize (H f Hf).
    apply strip_nil_iff in H. now rewrite H.
Qed.

(** X2: every statement that [execute_sql] hands to the cursor is
    non-empty, has no white space at either end and holds no semicolon. *)
Theorem X2_statements_are_trimmed (sql : string) :
  Forall (fun stmt => stmt <> "" /\ strip stmt = stmt
                      /\ no_char ";" stmt = true)
         (statements sql).
Proof.
  unfold statements. apply Forall_forall. intros x Hx.
  apply in_map_iff in Hx as (f & <- & Hf).
  apply filter_In in Hf as [Hin Hne]. repeat split.
  - now destruct (strip f).
  - apply strip_idem.
  - pose proof (split_no_sep_inside ";" sql) as H.
    rewrite Forall_forall in H. now apply strip_all_chars, H.
Qed.

(** *** The statements of a generated text *)

Lemma no_char_attr_content (attr : string) (pk : bool) :
  no_char ";" attr = true -> no_char ";" (attr_content attr pk) = true.
Proof.
  intros H. unfold attr_content. rewrite no_char_append, H.
  unfold constraints.
  destruct (data_type_cases attr) as [E | [E | E]]; rewrite E;
    destruct pk, (contains "email" (lower attr)),
      (contains "name" (lower attr) && negb (endswith "_id" (lower attr)));
    reflexivity.
Qed.

Lemma no_char_fk_content (rel : Relationship) :
  rel_without ";" rel -> no_char ";" (fk_content rel) = true.
Proof.
  intros (H1 & H2 & H3). unfold fk_content.
  rewrite !no_char_append, H1, H2, H3. reflexivity.
Qed.

Lemma no_char_line (content : string) (comma : bool) :
  no_char ";" content = true -> no_char ";" (line content comma) = true.
Proof.
  intros H. unfold line. rewrite !no_char_append, H. now destruct comma.
Qed.

Lemma no_char_attr_lines (hpk anyrel : bool) (attrs : list string) :
  Forall (fun attr => no_char ";" attr = true) attrs ->
  no_char ";" (render (attr_entries hpk anyrel attrs)) = true.
Proof.
  intros H. revert hpk. induction H as [|a rest Ha _ IH]; intros hpk.
  - reflexivity.
  - cbn [attr_entries render]. rewrite no_char_append, IH, andb_true_r.
    now apply no_char_line, no_char_attr_content.
Qed.

Lemma no_char_fk_lines (rels : list Relationship) :
  Forall (rel_without ";") rels ->
  no_char ";" (render (fk_entries rels)) = true.
Proof.
  induction 1 as [|r rest Hr _ IH]; [reflexivity|].
  cbn [fk_entries render]. rewrite no_char_append, IH, andb_true_r.
  now apply no_char_line, no_char_fk_content.
Qed.

Lemma no_char_table_statement (table : Table) (rels : list Relationship) :
  names_without ";" rels table ->
  no_char ";" (table_statement table rels) = true.
Proof.
  intros (Hn & Ha & Hr). unfold table_statement, table_body, table_entries.
  rewrite render_app, !no_char_append, Hn.
  rewrite no_char_attr_lines, no_char_fk_lines by assumption. reflexivity.
Qed.

Lemma table_statement_strip (table : Table) (rels : list Relationship) :
  strip (table_statement table rels) = table_statement table rels.
Proof.
  unfold strip.
  assert (El : lstrip (table_statement table rels)
               = table_statement table rels) by reflexivity.
  rewrite El. unfold table_statement, table_body.
  rewrite !append_assoc.
  repeat (apply rstrip_fixed_append; [|nonempty_text]).
  reflexivity.
Qed.

Lemma generate_table_sql_statement (table : Table) (all_tables : list Table)
    (rels : list Relationship) :
  generate_table_sql table all_tables rels
  = table_statement table rels ++ ";".
Proof.
  rewrite generate_table_sql_shape. unfold table_statement.
  now rewrite !append_assoc.
Qed.

Lemma statements_of_blocks (blocks : list string) :
  Forall (fun b => no_char ";" b = true /\ strip b = b /\ b <> "") blocks ->
  statements (join (nl ++ nl) (map (fun b => b ++ ";") blocks)) = blocks.
Proof.
  unfold join. induction 1 as [|b rest (Hn & Hs & Hne) Hrest IH];
    [reflexivity|].
  assert (Hb : statements b = [b]).
  { rewrite statements_single, Hs by assumption. now destruct b. }
  destruct rest as [|b' rest].
  - cbn [map String.concat]. change (b ++ ";") with (b ++ String ";" "").
    now rewrite statements_at_semicolon, Hb.
  - cbn [map] in IH |- *. rewrite concat_two, append_assoc.
    change (";" ++ ?x) with (String ";" x).
    rewrite statements_at_semicolon, Hb.
    rewrite statements_spaces_l by reflexivity. now rewrite IH.
Qed.

(** X3: when no name of the schema holds a semicolon, [execute_sql] splits
    the generated text into exactly one statement per table, in order: the
    text of the table without its final semicolon. *)
Theorem X3_one_statement_per_table (schema : Schema) :
  Forall (names_without ";" (relationships schema)) (tables schema) ->
  statements (generate_sql_from_structured_schema schema)
  = map (fun table => table_statement table (relationships schema))
        (tables schema)
  /\ (forall table all_tables,
        generate_table_sql table all_tables (relationships schema)
        = table_statement table (relationships schema) ++ ";").
Proof.
  intros H. split; [|intros; apply generate_table_sql_statement].
  unfold generate_sql_from_structured_schema.
  rewrite (map_ext _ (fun table =>
             table_statement table (relationships schema) ++ ";"))
    by (intros; apply generate_table_sql_statement).
  rewrite <- (map_map (fun table =>
                         table_statement table (relationships schema))
                      (fun b => b ++ ";")).
  apply statements_of_blocks. apply Forall_map.
  eapply Forall_impl; [|exact H]. intros t Ht. repeat split.
  - now apply no_char_table_statement.
  - apply table_statement_strip.
  - unfold table_statement. cbn [append]. discriminate.
Qed.

Lemma X3_one_statement_per_table_witness :
  List.length
    (statements
       (generate_sql_from_structured_schema
          (mkSchema [mkTable "Author" ["Author_ID"; "Name"] [];
                     mkTable "Book" ["Book_ID"; "Author_ID"] []]
                    [mkRel "Book" "Author_ID" "Author" "Author_ID"])))
  = 2.
Proof.
  rewrite (proj1 (X3_one_statement_per_table
            (mkSchema [mkTable "Author" ["Author_ID"; "Name"] [];
                       mkTable "Book" ["Book_ID"; "Author_ID"] []]
                      [mkRel "Book" "Author_ID" "Author" "Author_ID"])
            ltac:(repeat constructor))).
  reflexivity.
Defined.

(** *** The line of the primary key *)

Lemma key_constraints (attr : string) :
  is_id_like attr = true ->
  data_type attr = "INTEGER"
  /\ constraints attr true
     = " PRIMARY KEY"
       ++ (if contains "email" (lower attr) then " UNIQUE" else "").
Proof.
  intros H. split.
  - unfold data_type. now rewrite H.
  - unfold constraints. rewrite is_id_like_suffix in H. rewrite H.
    rewrite andb_false_r. now rewrite append_nil_r.
Qed.

(** The attributes before the first one that looks like an id: no key,
    and a comma after each. *)
Lemma attr_entries_before_key (anyrel : bool) (before rest : list string) :
  Forall (fun a => is_id_like a = false) before -> rest <> [] ->
  attr_entries false anyrel (List.app before rest)
  = List.app (map (fun a => (attr_content a false, true)) before)
             (attr_entries false anyrel rest).
Proof.
  intros H Hrest. induction H as [|a before Ha _ IH]; [reflexivity|].
  cbn [List.app attr_entries map]. rewrite Ha. cbn [negb andb orb].
  rewrite IH. f_equal. f_equal.
  destruct (List.app before rest) eqn:E; [|reflexivity].
  apply app_eq_nil in E as [_ E]. contradiction.
Qed.

(** X4: the text that [generate_table_sql] writes for a table whose first
    attribute looking like an id is [key]: the attributes before it on lines
    without a key, each followed by a comma; then the line of the key, which
    always reads name, INTEGER, PRIMARY KEY and, for a name with "email" in
    it, UNIQUE - never NOT NULL, whatever the name holds; then the other
    attributes, none with a key, and the foreign keys. *)
Theorem X4_key_line (table : Table) (all_tables : list Table)
    (rels : list Relationship) (before after : list string) (key : string) :
  table_attributes table = List.app before (key :: after) ->
  Forall (fun a => is_id_like a = false) before ->
  is_id_like key = true ->
  generate_table_sql table all_tables rels
  = "CREATE TABLE IF NOT EXISTS " ++ t_name table ++ "s (" ++ nl
    ++ render (map (fun a => (attr_content a false, true)) before)
    ++ "  " ++ key ++ " INTEGER PRIMARY KEY"
    ++ (if contains "email" (lower key) then " UNIQUE" else "")
    ++ (if nonempty after || nonempty rels then "," else "") ++ nl
    ++ render (attr_entries true (nonempty rels) after)
    ++ render (fk_entries (table_relationships table rels)) ++ ");".
Proof.
  intros Hattrs Hbefore Hkey.
  destruct (key_constraints key Hkey) as [Ht Hc].
  rewrite generate_table_sql_shape. unfold table_body, table_entries.
  rewrite Hattrs, attr_entries_before_key by (assumption || discriminate).
  cbn [attr_entries]. rewrite Hkey. cbn [negb andb orb].
  rewrite !render_app. cbn [render]. unfold line, attr_content.
  rewrite Ht, Hc, !append_assoc. reflexivity.
Qed.

Lemma X4_key_line_witness :
  generate_table_sql (mkTable "Student" ["Name"; "Email_ID"; "Other_ID"] [])
                     [] []
  = "CREATE TABLE IF NOT EXISTS Students (" ++ nl
    ++ "  Name TEXT NOT NULL," ++ nl
    ++ "  Email_ID INTEGER PRIMARY KEY UNIQUE," ++ nl
    ++ "  Other_ID INTEGER" ++ nl ++ ");".
Proof.
  assert (Hb : Forall (fun a => is_id_like a = false) ["Name"])
    by (constructor; [reflexivity | constructor]).
  pose proof (X4_key_line
                (mkTable "Student" ["Name"; "Email_ID"; "Other_ID"] [])
                [] [] ["Name"] ["Other_ID"] "Email_ID" eq_refl Hb eq_refl)
    as H.
  vm_compute in H. vm_compute. exact H.
Defined.

End ExecMore.

(** ** DROP TABLE commands *)

Module DropFacts.
Import Py PyFacts Re ReFacts Exec ExecFacts ExecMore Drop.
Import TextFacts ParseFacts MatchSteps TripFacts.

Lemma rstrip_of_strip (n : string) : strip n = n -> rstrip n = n.
Proof.
  intros H. rewrite <- H at 1. unfold strip. rewrite rstrip_idem.
  exact H.
Qed.

Lemma drop_statement_strip (n : string) :
  plain_name n ->
  strip ("DROP TABLE IF EXISTS " ++ n) = "DROP TABLE IF EXISTS " ++ n.
Proof.
  intros (Hne & Hs & _). unfold strip.
  assert (El : lstrip ("DROP TABLE IF EXISTS " ++ n)
               = "DROP TABLE IF EXISTS " ++ n) by reflexivity.
  rewrite El. apply rstrip_fixed_append; [now apply rstrip_of_strip|].
  assumption.
Qed.

Lemma drop_table_then (n w rest : string) :
  generate_drop_table_sql n ++ w ++ rest
  = ("DROP TABLE IF EXISTS " ++ n) ++ String ";" (w ++ rest).
Proof. unfold generate_drop_table_sql. now rewrite !append_assoc. Qed.

Lemma statements_drop_then (n w rest : string) :
  plain_name n -> all_chars is_space w = true ->
  statements (generate_drop_table_sql n ++ w ++ rest)
  = ("DROP TABLE IF EXISTS " ++ n) :: statements rest.
Proof.
  intros H Hw. pose proof H as (Hne & Hs & Hn).
  rewrite drop_table_then, statements_at_semicolon, statements_single.
  - rewrite drop_statement_strip by assumption.
    rewrite statements_spaces_l by assumption.
    now destruct n.
  - rewrite no_char_append. now rewrite Hn.
Qed.

Lemma statements_drop_table (n : string) :
  plain_name n ->
  statements (generate_drop_table_sql n) = ["DROP TABLE IF EXISTS " ++ n].
Proof.
  intros H.
  rewrite <- (append_nil_r (generate_drop_table_sql n)).
  exact (statements_drop_then n "" "" H eq_refl).
Qed.

Lemma statements_drop_tables (names : list string) :
  Forall plain_name names ->
  statements (join nl (map generate_drop_table_sql names))
  = map (fun n => "DROP TABLE IF EXISTS " ++ n) names.
Proof.
  unfold join. induction 1 as [|n rest Hn _ IH]; [reflexivity|].
  destruct rest as [|n' rest].
  - cbn [map String.concat]. now apply statements_drop_table.
  - cbn [map] in IH |- *. rewrite concat_two.
    rewrite statements_drop_then by (assumption || reflexivity).
    now rewrite IH.
Qed.

(** X5: for table names that are not empty, carry no white space at their
    ends and no semicolon, the text of [generate_drop_tables_sql] splits
    into one statement DROP TABLE IF EXISTS per name, in order; for an empty
    list the text is a comment line, which the splitter passes on as one
    statement. *)
Theorem X5_drop_statements (names : list string) :
  Forall plain_name names ->
  statements (generate_drop_tables_sql names)
  = match names with
    | [] => ["-- No tables to drop"]
    | _ :: _ => map (fun n => "DROP TABLE IF EXISTS " ++ n) names
    end.
Proof.
  intros H. destruct names as [|n rest]; [reflexivity|].
  unfold generate_drop_tables_sql. now apply statements_drop_tables.
Qed.

Lemma X5_drop_statements_witness :
  statements (generate_drop_tables_sql ["Students"; "Borrowings"])
  = ["DROP TABLE IF EXISTS Students"; "DROP TABLE IF EXISTS Borrowings"].
Proof.
  refine (X5_drop_statements ["Students"; "Borrowings"] _).
  repeat constructor; discriminate.
Defined.

(** *** The endpoint that lists DROP commands for all user tables *)

Lemma append_inj_l (a x y : string) : a ++ x = a ++ y -> x = y.
Proof.
  induction a as [|c a IH]; simpl; [trivial|].
  intros H. injection H as H. now apply IH.
Qed.

Lemma mem_In (x : string) (xs : list string) : mem x xs = true <-> In x xs.
Proof.
  unfold mem. rewrite existsb_exists. split.
  - intros (y & Hy & E). apply String.eqb_eq in E. now subst.
  - intros H. exists x. split; [assumption | apply String.eqb_refl].
Qed.

(** X6: [generate_drop_sql] always returns successfully; it lists the
    tables that are not sqlite_master, sqlite_sequence, test_table or
    saved_schemas, in the order received; when the names are plain, its text
    splits into one DROP TABLE IF EXISTS statement per listed table (or, with
    no table to list, into the one comment line), and no statement drops one
    of the four tables. *)
Theorem X6_drop_all_spares_protected (tables : list string) :
  exists resp,
    generate_drop_sql tables = Returned resp
    /\ da_success resp = true
    /\ da_tables resp
       = filter (fun t => negb (mem t protected_tables)) tables
    /\ (forall p, In p protected_tables -> ~ In p (da_tables resp))
    /\ (Forall plain_name tables ->
        statements (da_sql resp)
        = match da_tables resp with
          | [] => ["-- No user tables to drop"]
          | _ :: _ =>
              map (fun n => "DROP TABLE IF EXISTS " ++ n) (da_tables resp)
          end
        /\ forall p, In p protected_tables ->
                     ~ In ("DROP TABLE IF EXISTS " ++ p)
                          (statements (da_sql resp))).
Proof.
  unfold generate_drop_sql.
  set (user := filter (fun t => negb (mem t protected_tables)) tables).
  assert (Hspare : forall p, In p protected_tables -> ~ In p user).
  { intros p Hp Hin. apply filter_In in Hin as [_ Hin].
    apply mem_In in Hp. now rewrite Hp in Hin. }
  assert (Hplain : Forall plain_name tables -> Forall plain_name user).
  { intros H. apply Forall_forall. intros t Ht.
    apply filter_In in Ht as [Ht _]. rewrite Forall_forall in H. now apply H. }
  destruct user as [|u rest] eqn:E.
  - eexists. split; [reflexivity|]. cbn [da_success da_tables da_sql].
    split; [reflexivity|]. split; [reflexivity|]. split; [assumption|].
    intros _. split; [reflexivity|].
    intros p Hp [Heq | []]. vm_compute in Heq. discriminate Heq.
  - eexists. split; [reflexivity|]. cbn [da_success da_tables da_sql].
    split; [reflexivity|]. split; [reflexivity|]. split; [assumption|].
    intros H. specialize (Hplain H).
    pose proof (X5_statements := statements_drop_tables (u :: rest) Hplain).
    unfold generate_drop_tables_sql. rewrite X5_statements.
    split; [reflexivity|].
    intros p Hp Hin. apply in_map_iff in Hin as (t & Ht & Hin).
    apply append_inj_l in Ht. subst t. now apply (Hspare p).
Qed.

Lemma X6_drop_all_spares_protected_witness :
  generate_drop_sql ["test_table"; "Students"; "saved_schemas"; "Books"]
  = Returned (mkDropAll true
                (generate_drop_tables_sql ["Students"; "Books"])
                ["Students"; "Books"]
                "Generated DROP statements for 2 tables")
  /\ statements (generate_drop_tables_sql ["Students"; "Books"])
     = ["DROP TABLE IF EXISTS Students"; "DROP TABLE IF EXISTS Books"].
Proof.
  destruct (X6_drop_all_spares_protected
              ["test_table"; "Students"; "saved_schemas"; "Books"])
    as (resp & E & _ & _ & _ & H).
  vm_compute in E. injection E as <-.
  split; [reflexivity|].
  apply H. repeat constructor; discriminate.
Defined.

(** *** The check of table names *)

Lemma name_char_not_space (c : ascii) :
  is_name_char c = true -> not_space c = true.
Proof.
  destruct c as [[] [] [] [] [] [] [] []]; vm_compute; intros H;
    (reflexivity || discriminate H).
Qed.

Lemma name_char_not_semicolon (c : ascii) :
  is_name_char c = true -> negb (Ascii.eqb c ";") = true.
Proof.
  destruct c as [[] [] [] [] [] [] [] []]; vm_compute; intros H;
    (reflexivity || discriminate H).
Qed.

Lemma name_start_char (c : ascii) :
  is_name_start c = true -> is_name_char c = true.
Proof.
  destruct c as [[] [] [] [] [] [] [] []]; vm_compute; intros H;
    (reflexivity || discriminate H).
Qed.

Lemma all_chars_impl (p q : ascii -> bool) (s : string) :
  (forall c, p c = true -> q c = true) ->
  all_chars p s = true -> all_chars q s = true.
Proof.
  intros Hpq. induction s as [|c s IH]; [reflexivity|]. simpl.
  intros H. apply andb_prop in H as [Hc Hs]. now rewrite (Hpq c Hc), IH.
Qed.

Lemma at_end_cases (s : string) : at_end s = true <-> s = "" \/ s = nl.
Proof.
  destruct s as [|c [|d s]]; simpl.
  - split; [now left | reflexivity].
  - rewrite Ascii.eqb_eq. split.
    + intros ->. now right.
    + intros [H | H]; [discriminate | now injection H].
  - split; [discriminate | intros [H | H]; discriminate].
Qed.

Lemma valid_table_name_sound (name : string) :
  valid_table_name name = true ->
  exists c w,
    is_name_start c = true /\ all_chars is_name_char w = true
    /\ (name = String c w \/ name = String c w ++ nl).
Proof.
  destruct name as [|c rest]; [discriminate|]. cbn [valid_table_name].
  intros H. apply andb_prop in H as [Hc H].
  destruct (rep_greedy _ _ _ _) as [[]|] eqn:E; [|discriminate].
  apply rep_greedy_sound in E as (u & v & -> & Hu & _ & Hv).
  destruct (at_end v) eqn:Ev; [|discriminate].
  apply at_end_cases in Ev as [-> | ->]; exists c, u.
  - rewrite append_nil_r. auto.
  - auto.
Qed.

(** X7: the name check accepts exactly the names made of a letter or an
    underscore followed by letters, digits and underscores - and the same
    names followed by one line feed, which the end anchor lets through. *)
Theorem X7_valid_table_name (name : string) :
  valid_table_name name = true
  <-> exists c w,
        is_name_start c = true /\ all_chars is_name_char w = true
        /\ (name = String c w \/ name = String c w ++ nl).
Proof.
  split; [apply valid_table_name_sound|].
  intros (c & w & Hc & Hw & [-> | ->]); cbn [valid_table_name append];
    rewrite Hc; cbn [andb].
  - rewrite <- (append_nil_r w).
    now rewrite (rep_greedy_run _ w "" 0 _ tt Hw eq_refl (Nat.le_0_l _) eq_refl).
  - now rewrite (rep_greedy_run _ w nl 0 _ tt Hw eq_refl (Nat.le_0_l _) eq_refl).
Qed.

Lemma name_plain (c : ascii) (w : string) :
  is_name_start c = true -> all_chars is_name_char w = true ->
  plain_name (String c w).
Proof.
  intros Hc Hw.
  assert (Hall : all_chars is_name_char (String c w) = true).
  { simpl. now rewrite (name_start_char c Hc), Hw. }
  split; [discriminate|]. split.
  - apply strip_not_space.
    exact (all_chars_impl _ _ _ name_char_not_space Hall).
  - exact (all_chars_impl _ _ _ name_char_not_semicolon Hall).
Qed.

Lemma statements_drop_table_nl (n : string) :
  plain_name n ->
  statements (generate_drop_table_sql (n ++ nl))
  = ["DROP TABLE IF EXISTS " ++ n].
Proof.
  intros H. pose proof H as (Hne & Hs & Hn). unfold generate_drop_table_sql.
  replace ("DROP TABLE IF EXISTS " ++ (n ++ nl) ++ ";")
    with ((("DROP TABLE IF EXISTS " ++ n) ++ nl) ++ String ";" "")
    by (now rewrite !append_assoc).
  rewrite statements_at_semicolon, statements_single.
  - rewrite strip_spaces_r by reflexivity.
    rewrite drop_statement_strip by assumption. now destruct n.
  - rewrite !no_char_append. now rewrite Hn.
Qed.

(** X8: [generate_drop_sql_for_table] never answers with status 400: a name
    that fails the check is answered with status 500, because the handler
    of the endpoint catches the exception of the check.  A name that passes
    and is not among the tables gets a failure without SQL.  Whenever SQL is
    returned, the name passed the check and is among the tables, and the
    text splits into exactly one statement, DROP TABLE IF EXISTS followed by
    the name (without the line feed that the check lets through). *)
Theorem X8_drop_one (tables : list string) (name : string) :
  (valid_table_name name = false ->
   generate_drop_sql_for_table tables name = Raised 500)
  /\ generate_drop_sql_for_table tables name <> Raised 400
  /\ (valid_table_name name = true -> mem name tables = false ->
      generate_drop_sql_for_table tables name
      = Returned (mkDropOne false "" None
                    ("Table '" ++ name ++ "' does not exist")))
  /\ (forall resp,
        generate_drop_sql_for_table tables name = Returned resp ->
        do_success resp = true ->
        In name tables
        /\ exists c w,
             is_name_start c = true /\ all_chars is_name_char w = true
             /\ (name = String c w \/ name = String c w ++ nl)
             /\ statements (do_sql resp)
                = ["DROP TABLE IF EXISTS " ++ String c w]).
Proof.
  unfold generate_drop_sql_for_table, drop_sql_for_table_body.
  destruct (valid_table_name name) eqn:Ev; cbn [negb];
    [destruct (mem name tables) eqn:Em; cbn [negb]|].
  - split; [discriminate|]. split; [discriminate|]. split; [discriminate|].
    intros resp Hresp _. injection Hresp as <-. cbn [do_sql].
    split; [now apply mem_In|].
    apply valid_table_name_sound in Ev as (c & w & Hc & Hw & Hname).
    exists c, w. repeat split; try assumption.
    destruct Hname as [-> | ->].
    + now apply statements_drop_table, name_plain.
    + now apply statements_drop_table_nl, name_plain.
  - split; [discriminate|]. split; [discriminate|]. split; [reflexivity|].
    intros resp Hresp Hs. injection Hresp as <-. discriminate Hs.
  - split; [reflexivity|]. split; [discriminate|]. split; [discriminate|].
    intros resp Hresp. discriminate Hresp.
Qed.

Lemma X8_drop_one_witness :
  generate_drop_sql_for_table ["Students"] "Students; DROP TABLE x"
  = Raised 500.
Proof.
  apply (proj1 (X8_drop_one ["Students"] "Students; DROP TABLE x")).
  reflexivity.
Defined.

End DropFacts.

(** ** [execute_sql] *)

Module RunFacts.
Import Py PyFacts Exec ExecFacts GenMore ExecMore Run.

Section Facts.
Variable Conn : Type.
Variable Row : Type.
Variable opened : string + Conn.
Variable execute : string -> Conn -> string + Conn.
Variable fetch : Conn -> string + (list string * list Row).
Variable commit : Conn -> string + unit.

Local Notation "'run'" := (run_statements Conn Row execute fetch).
Local Notation "'exec_sql'" :=
  (execute_sql Conn Row opened execute fetch commit).

(** The loop over two lists run one after the other. *)
Lemma run_statements_app (l1 l2 : list string) :
  forall conn results,
    run (List.app l1 l2) conn results
    = match run l1 conn results with
      | inl e => inl e
      | inr (conn', results') => run l2 conn' results'
      end.
Proof.
  induction l1 as [|s l1 IH]; intros conn results; [reflexivity|].
  cbn [List.app run_statements].
  destruct (run_statement _ _ _ _ s conn) as [e | [conn' r]]; [reflexivity|].
  apply IH.
Qed.

Lemma run_statements_results (stmts : list string) :
  forall conn results conn' results',
    run stmts conn results = inr (conn', results') ->
    exists added,
      results' = List.app results added
      /\ map (@is_select_result Row) added = map is_select stmts.
Proof.
  induction stmts as [|s rest IH]; intros conn results conn' results' H.
  - injection H as <- <-. exists []. now rewrite app_nil_r.
  - cbn [run_statements] in H.
    destruct (run_statement _ _ _ _ s conn) as [e | [conn1 r]] eqn:E;
      [discriminate|].
    apply IH in H as (added & -> & Hk). exists (r :: added).
    rewrite <- app_assoc. split; [reflexivity|]. cbn [map]. rewrite Hk.
    f_equal. unfold run_statement in E.
    destruct (execute s conn); [discriminate|].
    destruct (is_select s).
    + destruct (fetch c) as [|[cols rows]]; [discriminate|].
      now injection E as _ <-.
    + now injection E as _ <-.
Qed.

(** X9: on a text made of white space and semicolons only, [execute_sql]
    runs no statement: once the connection is open and the commit goes
    through, it reports success with an empty list of results, whatever
    [cursor.execute] would do. *)
Theorem X9_blank_text_runs_nothing (sql : string) (conn : Conn) :
  all_chars is_space_or_semicolon sql = true ->
  opened = inr conn -> commit conn = inr tt ->
  exec_sql sql = Success [].
Proof.
  intros Hblank Ho Hc. unfold execute_sql.
  assert (E : statements sql = []).
  { unfold statements, is_space_or_semicolon in *.
    rewrite <- (split_all_chars is_space ";") in Hblank.
    rewrite (proj2 (filter_nil_iff _ _)); [reflexivity|].
    apply Forall_forall. intros f Hf.
    rewrite Forall_forall in Hblank. specialize (Hblank f Hf).
    apply strip_nil_iff in Hblank. now rewrite Hblank. }
  rewrite Ho, E. cbn [run_statements]. now rewrite Hc.
Qed.

(** X10: a successful [execute_sql] returns one result per statement, in
    order, of type SELECT exactly for the statements that begin, in any
    letter case, with SELECT. *)
Theorem X10_one_result_per_statement (sql : string)
    (results : list (result Row)) :
  exec_sql sql = Success results ->
  map (@is_select_result Row) results = map is_select (statements sql)
  /\ length results = length (statements sql).
Proof.
  unfold execute_sql. intros H.
  destruct opened as [e | conn]; [discriminate|].
  destruct (run (statements sql) conn []) as [e | [conn' rs]] eqn:E;
    [discriminate|].
  destruct (commit conn'); [discriminate|]. injection H as <-.
  apply run_statements_results in E as (added & -> & Hk).
  cbn [List.app]. split; [assumption|].
  rewrite <- (length_map (@is_select_result Row)), Hk. apply length_map.
Qed.

(** X11: when a statement of the text [a] fails, [execute_sql] reports that
    failure for every text that continues [a] after a semicolon: nothing
    after the failing statement is run. *)
Theorem X11_failure_stops_the_run (a b : string) (conn : Conn)
    (e : string) :
  opened = inr conn ->
  run (statements a) conn [] = inl e ->
  exec_sql (a ++ String ";" b) = Failure e.
Proof.
  intros Ho Hrun. unfold execute_sql.
  rewrite Ho, statements_at_semicolon, run_statements_app, Hrun.
  reflexivity.
Qed.

End Facts.

(** A connection that counts the statements run and refuses the text
    DROP. *)
Lemma X9_blank_text_runs_nothing_witness :
  execute_sql nat unit (inr 0)
    (fun s n => if String.eqb s "DROP" then inl "refused" else inr (S n))
    (fun _ => inr ([], [])) (fun _ => inr tt)
    (" ;" ++ nl ++ "; ")
  = Success [].
Proof.
  apply (X9_blank_text_runs_nothing nat unit (inr 0) _ _ _ _ 0);
    reflexivity.
Defined.

Lemma X10_one_result_per_statement_witness :
  length [Dml "Statement executed successfully"; @Select unit [] []]
  = length (statements "CREATE TABLE t (x INT); select x from t").
Proof.
  apply (X10_one_result_per_statement nat unit (inr 0)
           (fun s n => if String.eqb s "DROP" then inl "refused"
                       else inr (S n))
           (fun _ => inr ([], [])) (fun _ => inr tt)
           "CREATE TABLE t (x INT); select x from t").
  reflexivity.
Defined.

Lemma X11_failure_stops_the_run_witness :
  execute_sql nat unit (inr 0)
    (fun s n => if String.eqb s "DROP" then inl "refused" else inr (S n))
    (fun _ => inr ([], [])) (fun _ => inr tt)
    ("CREATE TABLE t (x INT); DROP" ++ String ";" " CREATE TABLE u (y INT)")
  = Failure "refused".
Proof.
  apply (X11_failure_stops_the_run nat unit (inr 0) _ _ _ _ _ 0);
    reflexivity.
Defined.

End RunFacts.

(** ** What the reverse parser reads, and what it returns *)

Module ParseMoreFacts.
Import Py PyFacts Re ReFacts Parse ParseFacts TextFacts MatchSteps ParseMore.

Local Open Scope re_scope.

Lemma lower_upper_char (c : ascii) : lower_char (upper_char c) = lower_char c.
Proof. each_char c. Qed.

(** Under IGNORECASE a literal matches every spelling of its letters. *)
Lemma lit_upper (fl : flags) (p : string) :
  ignorecase fl = true ->
  forall u s, upper u = upper p -> lit fl p (u ++ s) = Some s.
Proof.
  intros Hfl. induction p as [|a p IH]; intros u s H.
  - destruct u; [reflexivity | discriminate H].
  - destruct u as [|b u]; [discriminate H|].
    cbn [upper smap] in H. injection H as Hc Hu.
    cbn [append lit]. unfold char_eq. rewrite Hfl.
    rewrite <- (lower_upper_char a), <- (lower_upper_char b), Hc.
    rewrite Ascii.eqb_refl. now apply IH.
Qed.

Lemma blanks_length (ws : string) : blanks ws -> 1 <= String.length ws.
Proof. intros [Hne _]. destruct ws; [contradiction | simpl; lia]. Qed.

Lemma word_name_length (w : string) : word_name w -> 1 <= String.length w.
Proof. intros [Hne _]. destruct w; [contradiction | simpl; lia]. Qed.

(** A keyword, however spelled, does not begin with white space. *)
Lemma stops_space_keyword (u t : string) (a : ascii) (p : string) :
  upper u = String a p -> is_space a = false ->
  stops is_space (u ++ t) = true.
Proof.
  destruct u as [|b u]; [discriminate|]. cbn [upper smap]. intros H Ha.
  injection H as Hb _. simpl. rewrite <- (upper_char_space b), Hb, Ha.
  reflexivity.
Qed.

Lemma space_not_word (c : ascii) : is_space c = true -> is_word c = false.
Proof.
  intros H. destruct (is_word c) eqn:E; [|reflexivity].
  apply word_not_space in E. congruence.
Qed.

(** White space before a text that does not begin with a word character. *)
Lemma stops_word_blank (ws t : string) :
  all_chars is_space ws = true -> stops is_word t = true ->
  stops is_word (ws ++ t) = true.
Proof.
  destruct ws as [|c ws]; [now intros _|]. simpl. intros H _.
  apply andb_prop in H as [Hc _]. now rewrite (space_not_word c Hc).
Qed.

(** The column pattern on a name, white space, a type word and whatever
    follows the type word. *)
Lemma column_match_blanks (n ws ty rest : string) :
  word_name n -> blanks ws -> word_name ty -> stops is_word rest = true ->
  re_match fl_none column_pattern (n ++ ws ++ ty ++ rest)
  = Some [(2, ty); (1, n)].
Proof.
  intros Hn Hws Hty Hrest. unfold re_match, match_here, column_pattern.
  destruct (optional_tail rest [(2, ty); (1, n)]) as [rest' Hrest'].
  assert (H : rmatch fl_none
                (Group 1 (Rep Word 1 true) @@ Rep Space 1 true @@
                 Group 2 (Rep Word 1 true) @@
                 Opt (Rep Space 1 true @@ Rep Dot 0 true))
                (n ++ ws ++ ty ++ rest) []
                (fun rest caps => Some (rest, caps))
              = Some (rest', [(2, ty); (1, n)])).
  { apply step_group;
      [apply Hn | | now apply word_name_length |].
    { destruct Hws as [Hne Hs]. destruct ws as [|c ws]; [contradiction|].
      simpl in *. apply andb_prop in Hs as [Hc _].
      now rewrite (space_not_word c Hc). }
    apply step_rep;
      [apply Hws | apply stops_space_word; apply Hty
       | now apply blanks_length |].
    apply step_group; [apply Hty | assumption | now apply word_name_length |].
    exact Hrest'. }
  now rewrite H.
Qed.

(** X12: a definition that does not start with FOREIGN KEY and whose
    trimmed text is a word, white space, and a second word not followed by
    a word character is recorded as a column named by the first word with
    the second word as its type; what follows - a length in parentheses,
    constraints - is not kept.  A table constraint such as
    PRIMARY KEY (a, b) is therefore recorded as a column PRIMARY of type
    KEY. *)
Theorem X12_column_line (tn line n ws ty rest : string)
    (a : list string) (c : list Column) (r : list Relationship) :
  strip line = n ++ ws ++ ty ++ rest ->
  word_name n -> blanks ws -> word_name ty -> stops is_word rest = true ->
  startswith "FOREIGN KEY" (upper (strip line)) = false ->
  def_step tn (a, c, r) line
  = (List.app a [n], List.app c [ColDict n ty], r).
Proof.
  intros Hline Hn Hws Hty Hrest Hfk.
  rewrite def_step_column; [| | assumption].
  - rewrite Hline, column_match_blanks by assumption. reflexivity.
  - rewrite Hline. destruct Hn as [Hne _].
    destruct n; [contradiction | discriminate].
Qed.

Lemma X12_column_line_witness :
  def_step "orders" (["id"], [ColDict "id" "INTEGER"], [])
           "  PRIMARY KEY (a, b) "
  = (["id"; "PRIMARY"],
     [ColDict "id" "INTEGER"; ColDict "PRIMARY" "KEY"], []).
Proof.
  apply (X12_column_line "orders" "  PRIMARY KEY (a, b) " "PRIMARY" " "
           "KEY" " (a, b)");
    try reflexivity; split; (discriminate || reflexivity).
Defined.

(** The foreign-key pattern on a clause in any letter case and with any
    white space where the pattern allows it. *)
Lemma foreign_key_match_blanks
    (F K R ws0 ws1 ws2 ws3 ws4 fc tt tc rest : string) :
  upper F = "FOREIGN" -> upper K = "KEY" -> upper R = "REFERENCES" ->
  blanks ws0 ->
  all_chars is_space ws1 = true -> all_chars is_space ws2 = true ->
  blanks ws3 -> all_chars is_space ws4 = true ->
  word_name fc -> word_name tt -> word_name tc ->
  match_here fl_icase foreign_key_pattern
    (F ++ ws0 ++ K ++ ws1 ++ "(" ++ fc ++ ")" ++ ws2 ++ R ++ ws3 ++ tt
       ++ ws4 ++ "(" ++ tc ++ ")" ++ rest)
  = Some (rest, [(3, tc); (2, tt); (1, fc)]).
Proof.
  intros HF HK HR Hws0 Hws1 Hws2 Hws3 Hws4 Hfc Htt Htc.
  unfold match_here, foreign_key_pattern.
  eapply step_lit; [now apply lit_upper|].
  apply step_rep;
    [apply Hws0 | now apply (stops_space_keyword K _ "K" "EY")
     | now apply blanks_length |].
  eapply step_lit; [now apply lit_upper|].
  apply step_rep; [assumption | reflexivity | apply Nat.le_0_l |].
  eapply step_lit; [reflexivity|].
  apply step_group; [apply Hfc | reflexivity | now apply word_name_length |].
  eapply step_lit; [reflexivity|].
  apply step_rep;
    [assumption | now apply (stops_space_keyword R _ "R" "EFERENCES")
     | apply Nat.le_0_l |].
  eapply step_lit; [now apply lit_upper|].
  apply step_rep;
    [apply Hws3 | apply stops_space_word; apply Htt
     | now apply blanks_length |].
  apply step_group;
    [apply Htt | now apply stops_word_blank | now apply word_name_length |].
  apply step_rep; [assumption | reflexivity | apply Nat.le_0_l |].
  eapply step_lit; [reflexivity|].
  apply step_group; [apply Htc | reflexivity | now apply word_name_length |].
  eapply step_lit_last; reflexivity.
Qed.

(** X13: a definition whose trimmed text is FOREIGN, one blank, KEY, a
    column in parentheses, REFERENCES, a table and a column in parentheses
    - the keywords in any letter case, white space wherever the pattern
    allows it, anything after the closing parenthesis - adds exactly one
    relationship from the current table; attributes and columns are left
    alone. *)
Theorem X13_foreign_key_line
    (tn line F K R ws1 ws2 ws3 ws4 fc tt tc rest : string)
    (a : list string) (c : list Column) (r : list Relationship) :
  strip line
  = F ++ " " ++ K ++ ws1 ++ "(" ++ fc ++ ")" ++ ws2 ++ R ++ ws3 ++ tt
      ++ ws4 ++ "(" ++ tc ++ ")" ++ rest ->
  upper F = "FOREIGN" -> upper K = "KEY" -> upper R = "REFERENCES" ->
  all_chars is_space ws1 = true -> all_chars is_space ws2 = true ->
  blanks ws3 -> all_chars is_space ws4 = true ->
  word_name fc -> word_name tt -> word_name tc ->
  def_step tn (a, c, r) line = (a, c, List.app r [mkRel tn fc tt tc]).
Proof.
  intros Hline HF HK HR Hws1 Hws2 Hws3 Hws4 Hfc Htt Htc.
  rewrite def_step_foreign_key.
  - rewrite Hline.
    rewrite (search_here _ _ _ rest [(3, tc); (2, tt); (1, fc)]);
      [reflexivity|].
    apply foreign_key_match_blanks; try assumption.
    split; [discriminate | reflexivity].
  - rewrite Hline, !TripFacts.upper_append, HF, HK. reflexivity.
Qed.

Lemma X13_foreign_key_line_witness :
  def_step "orders" (["id"], [ColDict "id" "INTEGER"], [])
           "foreign key(customer_id) references customers (id) ON DELETE CASCADE"
  = (["id"], [ColDict "id" "INTEGER"],
     [mkRel "orders" "customer_id" "customers" "id"]).
Proof.
  apply (X13_foreign_key_line "orders" _ "foreign" "key" "references"
           "" " " " " " " "customer_id" "customers" "id"
           " ON DELETE CASCADE");
    try reflexivity; split; (discriminate || reflexivity).
Defined.

(** *** The header of a CREATE TABLE statement *)

Section Fails.
Context {A : Type}.

(** A greedy repetition fails when the continuation fails wherever the
    repetition may stop. *)
Lemma rep_greedy_fails (p : ascii -> bool) (u : string) :
  forall min v (k : string -> option A),
    (forall u1 u2, u = u1 ++ u2 -> k (u2 ++ v) = None) ->
    stops p v = true ->
    rep_greedy p min (u ++ v) k = None.
Proof.
  induction u as [|c u IH]; intros min v k Hk Hv.
  - cbn [append]. specialize (Hk "" "" eq_refl). cbn [append] in Hk.
    destruct v as [|d v]; cbn [rep_greedy].
    + now destruct (min =? 0)%nat.
    + simpl in Hv. apply negb_true_iff in Hv. rewrite Hv.
      now destruct (min =? 0)%nat.
  - cbn [append rep_greedy].
    assert (Hstop : (if (min =? 0)%nat then k (String c (u ++ v)) else None)
                    = None).
    { destruct (min =? 0)%nat; [|reflexivity].
      exact (Hk "" (String c u) eq_refl). }
    rewrite Hstop. destruct (p c); [|reflexivity].
    rewrite IH; [reflexivity | | assumption].
    intros u1 u2 ->. exact (Hk (String c u1) u2 eq_refl).
Qed.

Lemma step_opt_skipped (fl : flags) (r1 r2 : regex) (s : string)
    (caps : captures) (k : string -> captures -> option A) (res : A) :
  rmatch fl r1 s caps (fun s' caps' => rmatch fl r2 s' caps' k) = None ->
  rmatch fl r2 s caps k = Some res ->
  rmatch fl (Opt r1 @@ r2) s caps k = Some res.
Proof. intros H1 H2. cbn [rmatch]. now rewrite H1. Qed.

End Fails.

Lemma char_eq_word_F (fl : flags) (b : ascii) :
  is_word b = false -> char_eq fl "F" b = false.
Proof.
  unfold char_eq. destruct (ignorecase fl); each_char b.
Qed.

Lemma char_eq_word_N (fl : flags) (b : ascii) :
  is_word b = false -> char_eq fl "N" b = false.
Proof.
  unfold char_eq. destruct (ignorecase fl); each_char b.
Qed.

(** White space and then an opening parenthesis: no word character at the
    front. *)
Lemma blank_paren_head (ws X : string) :
  all_chars is_space ws = true ->
  exists b t, ws ++ String "(" X = String b t /\ is_word b = false.
Proof.
  destruct ws as [|b ws]; simpl; intros H.
  - now exists "("%char, X.
  - apply andb_prop in H as [Hb _]. exists b, (ws ++ String "(" X).
    split; [reflexivity | now apply space_not_word].
Qed.

(** A table name followed by its parenthesis is never read as the clause
    IF NOT EXISTS. *)
Lemma if_clause_absent {A : Type} (fl : flags) (r : regex)
    (tn ws X : string) (caps : captures)
    (k : string -> captures -> option A) :
  word_name tn -> all_chars is_space ws = true ->
  rmatch fl (Lit "IF" @@ Rep Space 1 true @@ Lit "NOT" @@ r)
         (tn ++ ws ++ String "(" X) caps k
  = None.
Proof.
  intros [Hne Hw] Hws.
  destruct tn as [|c1 tn]; [contradiction|]. cbn [rmatch lit append].
  destruct (char_eq fl "I" c1); [|reflexivity].
  destruct tn as [|c2 tn].
  - cbn [append].
    destruct (blank_paren_head ws X Hws) as (b & t & -> & Hb).
    now rewrite (char_eq_word_F fl b Hb).
  - cbn [append]. destruct (char_eq fl "F" c2); [|reflexivity].
    destruct tn as [|c3 tn].
    + cbn [append]. apply rep_greedy_fails; [|reflexivity].
      intros u1 u2 E.
      assert (Hu2 : all_chars is_space u2 = true).
      { rewrite E, all_chars_append in Hws.
        now apply andb_prop in Hws as [_ Hws]. }
      destruct (blank_paren_head u2 X Hu2) as (b & t & Eb & Hb).
      cbn [append] in Eb |- *. rewrite Eb. cbn [lit].
      now rewrite (char_eq_word_N fl b Hb).
    + cbn [append rep_greedy Nat.eqb]. simpl in Hw.
      apply andb_prop in Hw as [_ Hw]. apply andb_prop in Hw as [_ Hw].
      apply andb_prop in Hw as [Hc3 _].
      cbn [in_class]. now rewrite (word_not_space c3 Hc3).
Qed.

(** The name, the parenthesis and the body, up to the first closing
    parenthesis that a semicolon follows. *)
Lemma match_name_body (tn ws body rest : string) :
  word_name tn -> all_chars is_space ws = true ->
  starts_in ");" body (");" ++ rest) = 0 ->
  rmatch fl_dotall_icase
    (Group 1 (Rep Word 1 true) @@ Rep Space 0 true @@ Lit "(" @@
     Group 2 (Rep Dot 0 false) @@ Lit ");")
    (tn ++ ws ++ "(" ++ body ++ ");" ++ rest) []
    (fun rest caps => Some (rest, caps))
  = Some (rest, [(2, body); (1, tn)]).
Proof.
  intros Htn Hws Hbody.
  apply step_group;
    [apply Htn | now apply stops_word_blank | now apply word_name_length |].
  apply step_rep; [assumption | reflexivity | apply Nat.le_0_l |].
  eapply step_lit; [reflexivity|].
  apply step_group_lazy.
  - now apply all_chars_true.
  - intros u1 u2 caps' E Hu2. cbn [rmatch].
    rewrite lit_close_none; [reflexivity|].
    now apply (starts_in_zero_suffix _ body _ Hbody u1 u2).
  - eapply step_lit_last; reflexivity.
Qed.

(** The CREATE TABLE pattern on a statement whose keywords are in any
    letter case, separated by any white space, with or without the clause
    IF NOT EXISTS. *)
Lemma match_statement (C T opt ws1 ws2 ws3 tn body rest : string) :
  upper C = "CREATE" -> upper T = "TABLE" ->
  blanks ws1 -> blanks ws2 -> all_chars is_space ws3 = true ->
  if_not_exists_clause opt -> word_name tn ->
  starts_in ");" body (");" ++ rest) = 0 ->
  match_here fl_dotall_icase create_table_pattern
    (C ++ ws1 ++ T ++ ws2 ++ opt ++ tn ++ ws3 ++ "(" ++ body ++ ");"
       ++ rest)
  = Some (rest, [(2, body); (1, tn)]).
Proof.
  intros HC HT Hws1 Hws2 Hws3 Hopt Htn Hbody.
  pose proof (match_name_body tn ws3 body rest Htn Hws3 Hbody) as Htail.
  unfold match_here, create_table_pattern.
  eapply step_lit; [now apply lit_upper|].
  apply step_rep;
    [apply Hws1 | now apply (stops_space_keyword T _ "T" "ABLE")
     | now apply blanks_length |].
  eapply step_lit; [now apply lit_upper|].
  destruct Hopt as [-> | (I & N & E & wa & wb & wc & -> & HI & HN & HE
                           & Hwa & Hwb & Hwc)].
  - cbn [append].
    apply step_rep;
      [apply Hws2 | apply stops_space_word; apply Htn
       | now apply blanks_length |].
    apply step_opt_skipped; [|exact Htail].
    now apply if_clause_absent.
  - rewrite !append_assoc.
    apply step_rep;
      [apply Hws2 | now apply (stops_space_keyword I _ "I" "F")
       | now apply blanks_length |].
    apply step_opt_taken.
    eapply step_lit; [now apply lit_upper|].
    apply step_rep;
      [apply Hwa | now apply (stops_space_keyword N _ "N" "OT")
       | now apply blanks_length |].
    eapply step_lit; [now apply lit_upper|].
    apply step_rep;
      [apply Hwb | now apply (stops_space_keyword E _ "E" "XISTS")
       | now apply blanks_length |].
    eapply step_lit; [now apply lit_upper|].
    apply step_rep_last;
      [apply Hwc | apply stops_space_word; apply Htn
       | now apply blanks_length |].
    exact Htail.
Qed.

(** X15: a CREATE TABLE statement is read whatever the letter case of its
    keywords and the white space between them, with or without the clause
    IF NOT EXISTS: the parser returns the table named in the header, with
    the columns and relationships of its body up to the first closing
    parenthesis followed by a semicolon, and then what it returns for the
    text after the statement. *)
Theorem X15_statement_header
    (C T opt ws1 ws2 ws3 tn body rest : string) :
  upper C = "CREATE" -> upper T = "TABLE" ->
  blanks ws1 -> blanks ws2 -> all_chars is_space ws3 = true ->
  if_not_exists_clause opt -> word_name tn ->
  starts_in ");" body (");" ++ rest) = 0 ->
  let '(attrs, cols, rels) :=
    fold_left (def_step tn) (column_definitions body) ([], [], []) in
  parse_sql_to_schema
    (C ++ ws1 ++ T ++ ws2 ++ opt ++ tn ++ ws3 ++ "(" ++ body ++ ");"
       ++ rest)
  = mkSchema (mkTable tn attrs cols :: tables (parse_sql_to_schema rest))
             (List.app rels (relationships (parse_sql_to_schema rest))).
Proof.
  intros HC HT Hws1 Hws2 Hws3 Hopt Htn Hbody.
  pose proof (match_statement C T opt ws1 ws2 ws3 tn body rest
                HC HT Hws1 Hws2 Hws3 Hopt Htn Hbody) as Hm.
  destruct (fold_left (def_step tn) (column_definitions body) ([], [], []))
    as [[attrs cols] rels] eqn:Ef.
  rewrite !parse_by_matches. cbv zeta.
  rewrite (TripFacts.findall_after_match _ _ _ rest [(2, body); (1, tn)] Hm).
  - cbn [map flat_map tables relationships]. unfold table_of_match.
    cbn [group Nat.eqb]. rewrite Ef. reflexivity.
  - rewrite !length_append.
    assert (1 <= String.length C).
    { destruct C; [discriminate HC | simpl; lia]. }
    lia.
Qed.

Lemma X15_statement_header_witness :
  parse_sql_to_schema
    ("create" ++ " " ++ "Table" ++ nl ++ "if not  exists " ++ "users"
       ++ "" ++ "(" ++ "id INT, name VARCHAR(40)" ++ ");" ++ " -- done")
  = mkSchema
      [mkTable "users" ["id"; "name"]
               [ColDict "id" "INT"; ColDict "name" "VARCHAR"]]
      [].
Proof.
  assert (Hb : forall ws, ws <> "" -> all_chars is_space ws = true ->
                          blanks ws) by (intros ws H1 H2; now split).
  assert (Hopt : if_not_exists_clause "if not  exists ").
  { right. exists "if", "not", "exists", " ", "  ", " ".
    repeat split; (discriminate || reflexivity). }
  assert (Hname : word_name "users") by (split; [discriminate | reflexivity]).
  pose proof (X15_statement_header "create" "Table" "if not  exists "
                " " nl "" "users" "id INT, name VARCHAR(40)" " -- done"
                eq_refl eq_refl
                (Hb " " ltac:(discriminate) eq_refl)
                (Hb nl ltac:(discriminate) eq_refl)
                eq_refl Hopt Hname eq_refl) as H.
  vm_compute in H. vm_compute. exact H.
Defined.

(** *** What a parsed schema holds *)

Lemma findall_from_sound (fl : flags) (r : regex) (s : string) :
  forall skip m,
    In m (findall_from fl r s skip) ->
    exists t rest, match_here fl r t = Some (rest, m).
Proof.
  induction s as [|c s IH]; intros skip m H.
  - destruct skip; [|contradiction]. cbn [findall_from] in H.
    destruct (match_here fl r "") as [[rest caps]|] eqn:E; [|contradiction].
    destruct H as [<- | []]. now exists "", rest.
  - destruct skip as [|n]; [|exact (IH n m H)].
    rewrite findall_from_cons in H.
    destruct (match_here fl r (String c s)) as [[rest caps]|] eqn:E.
    + destruct H as [<- | H]; [now exists (String c s), rest|].
      exact (IH _ m H).
    + exact (IH 0 m H).
Qed.

Lemma search_sound (fl : flags) (r : regex) (s : string) (caps : captures) :
  search fl r s = Some caps ->
  exists t rest, match_here fl r t = Some (rest, caps).
Proof.
  induction s as [|c s IH]; cbn [search].
  - destruct (match_here fl r "") as [[rest caps']|] eqn:E; [|discriminate].
    intros H. injection H as <-. now exists "", rest.
  - destruct (match_here fl r (String c s)) as [[rest caps']|] eqn:E.
    + intros H. injection H as <-. now exists (String c s), rest.
    + exact IH.
Qed.

Ltac lit_inv H :=
  match type of H with
  | match lit ?fl ?p ?s with _ => _ end = Some _ =>
      destruct (lit fl p s); [|discriminate H]
  end.

Ltac rep_inv H u Hu Hm :=
  let v := fresh "v" in
  apply rep_greedy_sound in H as (u & v & -> & Hu & Hm & H);
  cbv beta in H.

Lemma word_name_of_run (fl : flags) (u : string) :
  all_chars (in_class fl Word) u = true -> 1 <= String.length u ->
  word_name u.
Proof.
  intros Hu Hm. split; [|exact Hu]. intros ->. simpl in Hm. lia.
Qed.

(** The first group of a match of the CREATE TABLE pattern is a word. *)
Lemma name_body_shape (fl : flags) (s rest : string)
    (caps0 caps : captures) :
  rmatch fl
    (Group 1 (Rep Word 1 true) @@ Rep Space 0 true @@ Lit "(" @@
     Group 2 (Rep Dot 0 false) @@ Lit ");")
    s caps0 (fun rest caps => Some (rest, caps))
  = Some (rest, caps) ->
  word_name (group 1 caps).
Proof.
  intros H. cbn [rmatch] in H.
  rep_inv H u1 Hu1 Hm1. rep_inv H u2 Hu2 Hm2. lit_inv H.
  apply rep_lazy_sound in H as (u3 & v3 & -> & _ & _ & H). cbv beta in H.
  lit_inv H. injection H as _ <-.
  cbn [group Nat.eqb]. rewrite consumed_append.
  now apply (word_name_of_run fl).
Qed.

Lemma rmatch_opt_sound {A : Type} (fl : flags) (r1 r2 : regex) (s : string)
    (caps : captures) (k : string -> captures -> option A) (res : A) :
  rmatch fl (Opt r1 @@ r2) s caps k = Some res ->
  exists s1 caps1, rmatch fl r2 s1 caps1 k = Some res.
Proof.
  intros H. cbn [rmatch] in H. apply orelse_some in H as [H | [_ H]].
  - apply rmatch_sound in H as (s1 & caps1 & _ & H). now exists s1, caps1.
  - now exists s, caps.
Qed.

Lemma create_table_name_shape (s rest : string) (caps : captures) :
  match_here fl_dotall_icase create_table_pattern s = Some (rest, caps) ->
  word_name (group 1 caps).
Proof.
  unfold match_here, create_table_pattern. intros H.
  apply rmatch_lit_sound in H as (? & ? & _ & _ & _ & H).
  apply rmatch_cat_sound in H as (? & ? & _ & H).
  apply rmatch_lit_sound in H as (? & ? & _ & _ & _ & H).
  apply rmatch_cat_sound in H as (? & ? & _ & H).
  apply rmatch_opt_sound in H as (s1 & caps1 & H).
  exact (name_body_shape _ _ _ _ _ H).
Qed.

(** The three groups of a match of the foreign-key pattern are words. *)
Lemma foreign_key_groups (s rest : string) (caps : captures) :
  match_here fl_icase foreign_key_pattern s = Some (rest, caps) ->
  word_name (group 1 caps) /\ word_name (group 2 caps)
  /\ word_name (group 3 caps).
Proof.
  unfold match_here, foreign_key_pattern. intros H. cbn [rmatch] in H.
  lit_inv H. rep_inv H w1 Hw1 Hn1. lit_inv H. rep_inv H w2 Hw2 Hn2.
  lit_inv H. rep_inv H u1 Hu1 Hm1. lit_inv H. rep_inv H w3 Hw3 Hn3.
  lit_inv H. rep_inv H w4 Hw4 Hn4. rep_inv H u2 Hu2 Hm2.
  rep_inv H w5 Hw5 Hn5. lit_inv H. rep_inv H u3 Hu3 Hm3. lit_inv H.
  injection H as _ <-. cbn [group Nat.eqb]. rewrite !consumed_append.
  repeat split; try assumption;
    intros ->; simpl in *; lia.
Qed.

Lemma def_step_rels (tn line : string) (a : list string) (c : list Column)
    (r : list Relationship) :
  Forall (rel_from tn) r ->
  let '(_, _, r') := def_step tn (a, c, r) line in Forall (rel_from tn) r'.
Proof.
  intros Hr.
  destruct (def_step_cases tn a c r line)
    as [-> | [(m & Hm & ->) | (m & _ & ->)]]; try assumption.
  apply Forall_app. split; [assumption|]. constructor; [|constructor].
  apply search_sound in Hm as (t & rest & Hm).
  apply foreign_key_groups in Hm as (H1 & H2 & H3).
  exact (conj eq_refl (conj H1 (conj H2 H3))).
Qed.

Lemma fold_def_step_rels (tn : string) (defs : list string) :
  forall a c r,
    Forall (rel_from tn) r ->
    let '(_, _, r') := fold_left (def_step tn) defs (a, c, r) in
    Forall (rel_from tn) r'.
Proof.
  induction defs as [|line defs IH]; intros a c r Hr; [exact Hr|].
  cbn [fold_left]. pose proof (def_step_rels tn line a c r Hr) as H.
  destruct (def_step tn (a, c, r) line) as [[a' c'] r']. now apply IH.
Qed.

Lemma table_of_match_rels (m : captures) :
  t_name (fst (table_of_match m)) = group 1 m
  /\ Forall (rel_from (group 1 m)) (snd (table_of_match m)).
Proof.
  unfold table_of_match.
  pose proof (fold_def_step_rels (group 1 m) (column_definitions (group 2 m))
                [] [] [] (Forall_nil _)) as H.
  destruct (fold_left _ _ _) as [[a c] r]. now split.
Qed.

(** X14: in every schema the parser returns, each table name is a
    non-empty word, each relationship starts from a table of that same
    schema, and the relationship's column, target table and target column
    are non-empty words.  The target table need not be among the parsed
    tables. *)
Theorem X14_parsed_names (sql : string) :
  let s := parse_sql_to_schema sql in
  Forall (fun t => word_name (t_name t)) (tables s)
  /\ Forall (fun r => In (fromTable r) (map t_name (tables s))
                      /\ word_name (fromColumn r)
                      /\ word_name (toTable r)
                      /\ word_name (toColumn r))
            (relationships s).
Proof.
  cbv zeta. rewrite parse_by_matches. cbv zeta.
  cbn [tables relationships].
  set (ms := findall fl_dotall_icase create_table_pattern sql).
  assert (Hms : forall m, In m ms -> word_name (group 1 m)).
  { intros m Hm. apply findall_from_sound in Hm as (t & rest & Hm).
    now apply create_table_name_shape in Hm. }
  split.
  - apply Forall_forall. intros t Ht.
    apply in_map_iff in Ht as (m & <- & Hm).
    rewrite (proj1 (table_of_match_rels m)). now apply Hms.
  - apply Forall_forall. intros r Hr.
    apply in_flat_map in Hr as (m & Hm & Hr).
    pose proof (proj2 (table_of_match_rels m)) as Hall.
    rewrite Forall_forall in Hall.
    destruct (Hall r Hr) as (Hfrom & H1 & H2 & H3).
    split; [|exact (conj H1 (conj H2 H3))].
    rewrite map_map. apply in_map_iff. exists m. split; [|assumption].
    rewrite Hfrom. apply table_of_match_rels.
Qed.

End ParseMoreFacts.

(** ** Cleaning the text of an AI answer *)

Module CleanFacts.
Import Py PyFacts Re ReFacts Parse ParseFacts TextFacts MatchSteps Clean.

Local Open Scope re_scope.

(** *** Where a pattern matches nowhere *)

Lemma sub_never (m : matcher) (repl : string) (s : string) :
  forall prev, never m prev s -> sub_from m repl prev s 0 = s.
Proof.
  induction s as [|c s IH]; intros prev H; [reflexivity|].
  destruct H as [Hm H]. cbn [sub_from]. rewrite Hm. now rewrite IH.
Qed.

Lemma lit_needs_prefix (p s : string) :
  startswith p s = false -> lit fl_none p s = None.
Proof.
  revert s. induction p as [|a p IH]; intros s H; [discriminate|].
  destruct s as [|b s]; [reflexivity|]. cbn [lit startswith] in *.
  unfold char_eq. cbn [ignorecase fl_none].
  destruct (Ascii.eqb a b); [now apply IH | reflexivity].
Qed.

Lemma backquote_first (p s : string) :
  no_char "`" s = true -> s <> "" -> startswith (String "`" p) s = false.
Proof.
  destruct s as [|c s]; [contradiction|]. intros H _.
  unfold no_char in H. simpl in H. apply andb_prop in H as [Hc _].
  cbn [startswith]. rewrite Ascii.eqb_sym.
  apply negb_true_iff in Hc. now rewrite Hc.
Qed.

(** A pattern that begins with a backquote matches nowhere in a text
    without backquotes. *)
Lemma never_backquote (p : string) (r : regex) (s : string) :
  no_char "`" s = true ->
  forall prev, never (of_regex (Lit (String "`" p) @@ r)) prev s.
Proof.
  induction s as [|c s IH]; intros H prev; [exact I|].
  split.
  - unfold of_regex, match_here. cbn [rmatch].
    rewrite lit_needs_prefix; [reflexivity|].
    now apply backquote_first.
  - apply IH. unfold no_char in *. simpl in H.
    now apply andb_prop in H as [_ H].
Qed.

Lemma never_bold_line (s : string) :
  forall prev, line_starts "**" prev s = false -> never bold_line prev s.
Proof.
  induction s as [|c s IH]; intros prev H; [exact I|].
  cbn [line_starts] in H. apply orb_false_iff in H as [H1 H2].
  split; [|now apply IH].
  unfold bold_line. destruct (at_bol prev); [|reflexivity].
  cbn [andb] in H1. cbn [rmatch]. now rewrite lit_needs_prefix.
Qed.

Lemma never_heading_line (s : string) :
  forall prev, line_starts "#" prev s = false -> never heading_line prev s.
Proof.
  induction s as [|c s IH]; intros prev H; [exact I|].
  cbn [line_starts] in H. apply orb_false_iff in H as [H1 H2].
  split; [|now apply IH].
  unfold heading_line. destruct (at_bol prev); [|reflexivity].
  cbn [andb startswith] in H1. rewrite andb_true_r in H1.
  cbn [rep_greedy Nat.eqb]. unfold is_hash at 1.
  rewrite Ascii.eqb_sym, H1. reflexivity.
Qed.

Lemma never_search (r : regex) (s : string) :
  search fl_none r s = None -> forall prev, never (of_regex r) prev s.
Proof.
  induction s as [|c s IH]; intros H prev; [exact I|].
  cbn [search] in H.
  destruct (match_here fl_none r (String c s)) as [[rest caps]|] eqn:E;
    [discriminate|].
  split; [|now apply IH]. unfold of_regex. now rewrite E.
Qed.

(** X16: a text without backquotes whose trimmed form has no line
    beginning with two asterisks or with a hash sign, and no run of white
    space holding three line feeds, comes back trimmed and otherwise
    unchanged. *)
Theorem X16_clean_text_passes (sql : string) :
  no_char "`" sql = true ->
  line_starts "**" None (strip sql) = false ->
  line_starts "#" None (strip sql) = false ->
  search fl_none blank_lines (strip sql) = None ->
  clean_sql_response sql = strip sql.
Proof.
  intros Hq Hb Hh Hl. unfold clean_sql_response, sub.
  rewrite (sub_never _ _ sql) by now apply never_backquote.
  rewrite (sub_never _ _ sql) by now apply never_backquote.
  rewrite (sub_never bold_line) by now apply never_bold_line.
  rewrite (sub_never heading_line) by now apply never_heading_line.
  apply sub_never. now apply never_search.
Qed.

Lemma X16_clean_text_passes_witness :
  clean_sql_response
    ("  CREATE TABLE a (" ++ nl ++ "  x INT -- # of items" ++ nl ++ ");"
       ++ nl ++ nl ++ "SELECT * FROM a;" ++ nl)
  = "CREATE TABLE a (" ++ nl ++ "  x INT -- # of items" ++ nl ++ ");"
      ++ nl ++ nl ++ "SELECT * FROM a;".
Proof.
  apply (X16_clean_text_passes
           ("  CREATE TABLE a (" ++ nl ++ "  x INT -- # of items" ++ nl
              ++ ");" ++ nl ++ nl ++ "SELECT * FROM a;" ++ nl));
    reflexivity.
Defined.

(** *** The five patterns match no empty text *)

Lemma lit_consumes {A : Type} (fl : flags) (a : ascii) (p : string)
    (r : regex) (s : string) (caps : captures)
    (k : string -> captures -> option A) (res : A) :
  rmatch fl (Lit (String a p) @@ r) s caps k = Some res ->
  exists s1 caps1 rest,
    suffix_of s1 s /\ String.length s1 < String.length s
    /\ suffix_of rest s1 /\ k rest caps1 = Some res.
Proof.
  intros H. apply rmatch_lit_sound in H as (u & s1 & -> & _ & Hlen & H).
  apply rmatch_sound in H as (rest & caps1 & Hsuf & H).
  exists s1, caps1, rest. repeat split; try assumption.
  - apply suffix_of_append.
  - rewrite length_append, Hlen. simpl. lia.
Qed.

Lemma of_regex_consumes (a : ascii) (p : string) (r : regex)
    (prev : option ascii) (s rest : string) :
  of_regex (Lit (String a p) @@ r) prev s = Some rest ->
  String.length rest < String.length s.
Proof.
  unfold of_regex, match_here. intros H.
  destruct (rmatch _ _ _ _ _) as [[rest' caps]|] eqn:E; [|discriminate].
  injection H as ->.
  apply lit_consumes in E as (s1 & caps1 & rest1 & _ & Hlt & Hsuf & E).
  injection E as <- _. apply suffix_of_length in Hsuf. lia.
Qed.

Lemma bold_line_consumes (prev : option ascii) (s rest : string) :
  bold_line prev s = Some rest -> String.length rest < String.length s.
Proof.
  unfold bold_line. destruct (at_bol prev); [|discriminate]. intros H.
  apply lit_consumes in H as (s1 & caps1 & rest1 & _ & Hlt & Hsuf & E).
  destruct (at_eol rest1); [|discriminate]. injection E as <-.
  apply suffix_of_length in Hsuf. lia.
Qed.

Lemma heading_line_consumes (prev : option ascii) (s rest : string) :
  heading_line prev s = Some rest -> String.length rest < String.length s.
Proof.
  unfold heading_line. destruct (at_bol prev); [|discriminate]. intros H.
  apply rep_greedy_sound in H as (u & v & -> & _ & Hm & H).
  apply rep_greedy_sound in H as (u2 & v2 & -> & _ & _ & H).
  destruct (at_eol v2); [|discriminate]. injection H as <-.
  rewrite !length_append. lia.
Qed.

(** *** Replacing where a pattern matches *)

Lemma last_char_some (c : ascii) (u : string) :
  exists d, last_char (String c u) = Some d.
Proof.
  revert c. induction u as [|e u IH]; intros c; [now exists c|].
  exact (IH e).
Qed.

Lemma last_char_cons (c : ascii) (u : string) :
  last_char (String c u)
  = match last_char u with Some d => Some d | None => Some c end.
Proof.
  destruct u as [|d u]; [reflexivity|].
  destruct (last_char_some d u) as [e E]. rewrite E.
  change (last_char (String c (String d u))) with (last_char (String d u)).
  exact E.
Qed.

Lemma last_of_cons (prev : option ascii) (c : ascii) (u : string) :
  last_of prev (String c u) = last_of (Some c) u.
Proof. unfold last_of. rewrite last_char_cons. now destruct (last_char u). Qed.

Lemma sub_from_skip (m : matcher) (repl : string) (u s : string) :
  forall prev,
    sub_from m repl prev (u ++ s) (String.length u)
    = sub_from m repl (last_of prev u) s 0.
Proof.
  induction u as [|c u IH]; intros prev; [reflexivity|].
  cbn [append String.length sub_from]. rewrite IH.
  now rewrite last_of_cons.
Qed.

(** A match is replaced and the scan resumes after it. *)
Lemma sub_match (m : matcher) (repl : string) (prev : option ascii)
    (u rest : string) :
  u <> "" -> m prev (u ++ rest) = Some rest ->
  sub_from m repl prev (u ++ rest) 0
  = repl ++ sub_from m repl (last_of prev u) rest 0.
Proof.
  intros Hne H. destruct u as [|c u]; [contradiction|].
  cbn [append] in *. cbn [sub_from]. rewrite H. f_equal.
  replace (String.length (String c (u ++ rest)) - String.length rest - 1)
    with (String.length u)
    by (cbn [String.length]; rewrite length_append; lia).
  rewrite sub_from_skip. now rewrite last_of_cons.
Qed.

Lemma sub_copy (m : matcher) (repl : string) (prev : option ascii)
    (c : ascii) (s : string) :
  m prev (String c s) = None ->
  sub_from m repl prev (String c s) 0
  = String c (sub_from m repl (Some c) s 0).
Proof. intros H. cbn [sub_from]. now rewrite H. Qed.

(** A pattern without anchors does not look at the character before. *)
Lemma sub_of_regex_prev (r : regex) (repl : string) (s : string) :
  forall p1 p2 skip,
    sub_from (of_regex r) repl p1 s skip
    = sub_from (of_regex r) repl p2 s skip.
Proof.
  induction s as [|c s IH]; intros p1 p2 skip; [reflexivity|].
  cbn [sub_from]. destruct skip; [|reflexivity].
  unfold of_regex at 1 3. reflexivity.
Qed.

(** A text without backquotes is copied by a pattern that begins with
    one. *)
Lemma sub_no_backquote (p : string) (r : regex) (repl : string)
    (u v : string) :
  no_char "`" u = true ->
  forall prev,
    sub_from (of_regex (Lit (String "`" p) @@ r)) repl prev (u ++ v) 0
    = u ++ sub_from (of_regex (Lit (String "`" p) @@ r)) repl None v 0.
Proof.
  induction u as [|c u IH]; intros H prev.
  - apply sub_of_regex_prev.
  - cbn [append]. rewrite sub_copy.
    + f_equal. apply IH. unfold no_char in *. simpl in H.
      now apply andb_prop in H as [_ H].
    + unfold of_regex, match_here. cbn [rmatch].
      rewrite lit_needs_prefix; [reflexivity|].
      cbn [startswith]. unfold no_char in H. simpl in H.
      apply andb_prop in H as [Hc _]. apply negb_true_iff in Hc.
      now rewrite Ascii.eqb_sym, Hc.
Qed.

(** *** A fenced answer *)

Lemma startswith_cancel (a p s : string) :
  startswith (a ++ p) (a ++ s) = startswith p s.
Proof.
  induction a as [|c a IH]; [reflexivity|]. cbn [append startswith].
  now rewrite Ascii.eqb_refl.
Qed.

(** White space, or nothing, does not begin with a text whose first
    character is no white space. *)
Lemma startswith_blank (a : ascii) (p ws : string) :
  is_space a = false -> all_chars is_space ws = true ->
  startswith (String a p) ws = false.
Proof.
  intros Ha Hws. destruct ws as [|c w]; [reflexivity|].
  simpl in Hws. apply andb_prop in Hws as [Hc _]. cbn [startswith].
  destruct (Ascii.eqb_spec a c) as [-> |]; [congruence | reflexivity].
Qed.

Lemma of_regex_needs_prefix (p : string) (r : regex) (prev : option ascii)
    (s : string) :
  startswith p s = false -> of_regex (Lit p @@ r) prev s = None.
Proof.
  intros H. unfold of_regex, match_here. cbn [rmatch].
  now rewrite lit_needs_prefix.
Qed.

Lemma blank_no_backquote (ws : string) :
  all_chars is_space ws = true -> no_char "`" ws = true.
Proof. now apply space_no_char. Qed.

(** The closing fence and the white space after it hold no opening fence
    of the first pattern. *)
Lemma closing_fence_kept (ws : string) (prev : option ascii) :
  all_chars is_space ws = true ->
  sub_from (of_regex fence_sql) "" prev (nl ++ "```" ++ ws) 0
  = nl ++ "```" ++ ws.
Proof.
  intros Hws. apply sub_never. unfold fence_sql. cbn [append never].
  split; [reflexivity|].
  split.
  { apply of_regex_needs_prefix.
    exact (eq_trans (startswith_cancel "```" "sql" ws)
                    (startswith_blank "s" "ql" ws eq_refl Hws)). }
  split.
  { apply of_regex_needs_prefix.
    exact (eq_trans (startswith_cancel "``" "`sql" ws)
                    (startswith_blank "`" "sql" ws eq_refl Hws)). }
  split.
  { apply of_regex_needs_prefix.
    exact (eq_trans (startswith_cancel "`" "``sql" ws)
                    (startswith_blank "`" "`sql" ws eq_refl Hws)). }
  apply never_backquote. now apply blank_no_backquote.
Qed.

(** The second pattern removes the closing fence, and the line feed after
    it if there is one. *)
Lemma closing_fence_removed (ws : string) (prev : option ascii) :
  all_chars is_space ws = true ->
  exists w, all_chars is_space w = true
            /\ sub_from (of_regex fence) "" prev (nl ++ "```" ++ ws) 0
               = nl ++ w.
Proof.
  intros Hws. unfold fence. destruct ws as [|c ws].
  { now exists "". }
  pose proof Hws as Hall. simpl in Hws. apply andb_prop in Hws as [Hc Hw].
  destruct (Ascii.eqb_spec "010" c) as [<- | Hne].
  - exists ws. split; [assumption|].
    cbn [append nl]. rewrite sub_copy by reflexivity. f_equal.
    rewrite (sub_match _ "" _ ("```" ++ nl) ws); [|discriminate | reflexivity].
    cbn [append]. apply sub_never, never_backquote.
    now apply blank_no_backquote.
  - exists (String c ws). split; [assumption|].
    cbn [append nl]. rewrite sub_copy by reflexivity. f_equal.
    rewrite (sub_match _ "" _ "```" (String c ws)); [|discriminate|].
    + cbn [append]. apply sub_never, never_backquote.
      now apply blank_no_backquote.
    + unfold of_regex, match_here. cbn [append rmatch lit nl].
      unfold char_eq. cbn [ignorecase fl_none]. rewrite !Ascii.eqb_refl.
      apply Ascii.eqb_neq in Hne. rewrite Hne. reflexivity.
Qed.

(** *** Texts without three backquotes in a row *)

Lemma startswith_longer (a : string) :
  forall q s, startswith a q = true -> startswith a s = false ->
              startswith q s = false.
Proof.
  induction a as [|c a IH]; intros q s Hq Hs; [discriminate|].
  destruct q as [|d q]; [discriminate|]. cbn [startswith] in Hq.
  apply andb_prop in Hq as [Hc Hq]. apply Ascii.eqb_eq in Hc. subst d.
  destruct s as [|e s]; [reflexivity|]. cbn [startswith] in *.
  destruct (Ascii.eqb c e); [|reflexivity]. cbn [andb] in *.
  now apply IH.
Qed.

(** No fence begins at the end of a text that is followed by something
    other than a backquote. *)
Lemma fence_boundary (c : ascii) (b v : string) :
  startswith "```" (String c b) = false -> startswith "`" v = false ->
  startswith "```" (String c (b ++ v)) = false.
Proof.
  intros H Hv.
  destruct b as [|d [|e b]]; destruct v as [|x v];
    cbn [append startswith] in *;
    repeat match goal with
           | H : context [Ascii.eqb ?a ?b] |- _ => destruct (Ascii.eqb a b)
           | |- context [Ascii.eqb ?a ?b] => destruct (Ascii.eqb a b)
           end;
    cbn [andb] in *; congruence.
Qed.

Lemma fence_free_starts_in (b v : string) :
  contains "```" b = false -> startswith "`" v = false ->
  starts_in "```" b v = 0.
Proof.
  intros H Hv. induction b as [|c b IH]; [reflexivity|].
  rewrite contains_cons in H. apply orb_false_iff in H as [H1 H2].
  cbn [starts_in]. rewrite (IH H2).
  change (String c b ++ v) with (String c (b ++ v)).
  now rewrite (fence_boundary c b v H1 Hv).
Qed.

(** A pattern that begins with three backquotes copies a text in which no
    three backquotes begin. *)
Lemma sub_no_fence (q : string) (r : regex) (repl : string) (u v : string) :
  startswith "```" q = true ->
  starts_in "```" u v = 0 ->
  forall prev,
    sub_from (of_regex (Lit q @@ r)) repl prev (u ++ v) 0
    = u ++ sub_from (of_regex (Lit q @@ r)) repl None v 0.
Proof.
  intros Hq. induction u as [|c u IH]; intros H prev.
  - apply sub_of_regex_prev.
  - cbn [starts_in] in H.
    destruct (startswith "```" (String c u ++ v)) eqn:E; [discriminate H|].
    cbn [append]. rewrite sub_copy.
    + f_equal. now apply IH.
    + apply of_regex_needs_prefix. now apply (startswith_longer "```").
Qed.

Lemma never_fence_free (q : string) (r : regex) (s : string) :
  startswith "```" q = true -> contains "```" s = false ->
  forall prev, never (of_regex (Lit q @@ r)) prev s.
Proof.
  intros Hq. induction s as [|c s IH]; intros H prev; [exact I|].
  rewrite contains_cons in H. apply orb_false_iff in H as [H1 H2].
  split; [|now apply IH].
  apply of_regex_needs_prefix. now apply (startswith_longer "```").
Qed.

Lemma blank_starts_in (ws v : string) :
  all_chars is_space ws = true -> starts_in "```" ws v = 0.
Proof.
  intros H. induction ws as [|c ws IH]; [reflexivity|].
  simpl in H. apply andb_prop in H as [Hc Hw].
  cbn [starts_in]. rewrite (IH Hw).
  change (String c ws ++ v) with (String c (ws ++ v)).
  cbn [startswith].
  destruct (Ascii.eqb_spec "`" c) as [<- |]; [discriminate Hc | reflexivity].
Qed.

(** The two fence patterns on a fenced answer: the fences go, the text
    between them stays. *)
Lemma fences_removed (lang ws1 body ws2 : string) :
  lang = "sql" \/ lang = "" ->
  all_chars is_space ws1 = true -> all_chars is_space ws2 = true ->
  contains "```" body = false ->
  exists w,
    all_chars is_space w = true
    /\ sub (of_regex fence) ""
           (sub (of_regex fence_sql) ""
                (ws1 ++ "```" ++ lang ++ nl ++ body ++ nl ++ "```" ++ ws2))
       = ws1 ++ body ++ nl ++ w.
Proof.
  intros Hlang H1 H2 Hb.
  destruct (closing_fence_removed ws2 None H2) as (w & Hw & Hclose).
  exists w. split; [assumption|]. unfold sub.
  assert (Hbody : starts_in "```" body (nl ++ "```" ++ ws2) = 0)
    by now apply fence_free_starts_in.
  assert (Hsecond :
            sub_from (of_regex fence) "" None
                     (ws1 ++ body ++ nl ++ "```" ++ ws2) 0
            = ws1 ++ body ++ nl ++ w).
  { unfold fence in *.
    rewrite sub_no_fence by (reflexivity || now apply blank_starts_in).
    f_equal. rewrite sub_no_fence by (reflexivity || assumption).
    f_equal. exact Hclose. }
  destruct Hlang as [-> | ->].
  - assert (Hfirst :
              sub_from (of_regex fence_sql) "" None
                       (ws1 ++ "```" ++ "sql" ++ nl ++ body ++ nl ++ "```"
                            ++ ws2) 0
              = ws1 ++ body ++ nl ++ "```" ++ ws2).
    { unfold fence_sql.
      rewrite sub_no_fence by (reflexivity || now apply blank_starts_in).
      f_equal. etransitivity.
      { apply (sub_match _ "" None ("```sql" ++ nl)
                         (body ++ nl ++ "```" ++ ws2));
          [discriminate | reflexivity]. }
      cbn [append].
      rewrite (sub_of_regex_prev _ _ _ _ None).
      rewrite sub_no_fence by (reflexivity || assumption). f_equal.
      now apply closing_fence_kept. }
    rewrite Hfirst. exact Hsecond.
  - assert (Hfirst :
              sub_from (of_regex fence_sql) "" None
                       (ws1 ++ "```" ++ "" ++ nl ++ body ++ nl ++ "```"
                            ++ ws2) 0
              = ws1 ++ "```" ++ nl ++ body ++ nl ++ "```" ++ ws2).
    { unfold fence_sql.
      rewrite sub_no_fence by (reflexivity || now apply blank_starts_in).
      f_equal. cbn [append nl].
      do 4 (rewrite sub_copy by reflexivity; f_equal).
      rewrite (sub_of_regex_prev _ _ _ _ None).
      rewrite sub_no_fence by (reflexivity || assumption). f_equal.
      now apply closing_fence_kept. }
    rewrite Hfirst. unfold fence in *.
    rewrite sub_no_fence by (reflexivity || now apply blank_starts_in).
    etransitivity.
    { apply f_equal.
      apply (sub_match _ "" None ("```" ++ nl)
                       (body ++ nl ++ "```" ++ ws2));
        [discriminate | reflexivity]. }
    cbn [append]. f_equal.
    rewrite (sub_of_regex_prev _ _ _ _ None).
    rewrite sub_no_fence by (reflexivity || assumption). f_equal.
    exact Hclose.
Qed.

Lemma clean_after_fences (a b : string) :
  strip (sub (of_regex fence) "" (sub (of_regex fence_sql) "" a))
  = strip (sub (of_regex fence) "" (sub (of_regex fence_sql) "" b)) ->
  clean_sql_response a = clean_sql_response b.
Proof. intros H. unfold clean_sql_response. cbv zeta. now rewrite H. Qed.

(** X17: an answer wrapped in a Markdown fence - three backquotes, with
    or without the word sql, and a line feed before the text; a line feed
    and three backquotes after it; white space around - is cleaned to the
    same result as the text between the fences, provided that this text
    holds no three backquotes in a row.  Single backquotes, as around
    quoted identifiers, are allowed. *)
Theorem X17_fence_removed (lang ws1 body ws2 : string) :
  lang = "sql" \/ lang = "" ->
  all_chars is_space ws1 = true -> all_chars is_space ws2 = true ->
  contains "```" body = false ->
  clean_sql_response
    (ws1 ++ "```" ++ lang ++ nl ++ body ++ nl ++ "```" ++ ws2)
  = clean_sql_response body.
Proof.
  intros Hlang H1 H2 Hb.
  destruct (fences_removed lang ws1 body ws2 Hlang H1 H2 Hb)
    as (w & Hw & Hf).
  apply clean_after_fences. rewrite Hf. unfold sub.
  rewrite (sub_never _ _ body)
    by (apply never_fence_free; [reflexivity | assumption]).
  rewrite (sub_never _ _ body)
    by (apply never_fence_free; [reflexivity | assumption]).
  apply strip_surrounded; [assumption|].
  cbn [append nl all_chars]. exact Hw.
Qed.

Lemma X17_fence_removed_witness :
  clean_sql_response
    ("```" ++ "sql" ++ nl ++ "CREATE TABLE `a` (x INT);" ++ nl ++ "```" ++ nl)
  = clean_sql_response "CREATE TABLE `a` (x INT);".
Proof.
  apply (X17_fence_removed "sql" "" "CREATE TABLE `a` (x INT);" nl);
    [now left | reflexivity | reflexivity | reflexivity].
Defined.

(** *** A heading line *)

Lemma span (p : ascii -> bool) (s : string) :
  exists u v, s = u ++ v /\ all_chars p u = true /\ stops p v = true.
Proof.
  induction s as [|c s (u & v & -> & Hu & Hv)]; [now exists "", ""|].
  destruct (p c) eqn:E.
  - exists (String c u), v. simpl. now rewrite E, Hu.
  - exists "", (String c (u ++ v)). simpl. now rewrite E.
Qed.

Lemma last_char_all (q : ascii -> bool) (u : string) (c : ascii) :
  all_chars q u = true -> last_char u = Some c -> q c = true.
Proof.
  induction u as [|d u IH]; [discriminate|]. intros H E.
  simpl in H. apply andb_prop in H as [Hd Hu].
  rewrite last_char_cons in E. destruct (last_char u) as [e|] eqn:El.
  - apply IH; [assumption | congruence].
  - congruence.
Qed.

Lemma line_starts_prev (p : string) (p1 p2 : option ascii) (s : string) :
  at_bol p1 = at_bol p2 -> line_starts p p1 s = line_starts p p2 s.
Proof. intros H. destruct s; cbn [line_starts]; now rewrite H. Qed.

(** The heading pattern on a line that begins with a hash sign. *)
Lemma heading_line_match (prev : option ascii) (h post : string) :
  at_bol prev = true -> no_char "010" h = true -> at_eol post = true ->
  heading_line prev (String "#" (h ++ post)) = Some post.
Proof.
  intros Hbol Hh Hpost. unfold heading_line. rewrite Hbol.
  destruct (span is_hash h) as (hs & h2 & -> & Hhs & Hh2).
  unfold no_char in Hh. rewrite all_chars_append in Hh.
  apply andb_prop in Hh as [_ Hh].
  rewrite append_assoc.
  apply (rep_greedy_run is_hash (String "#" hs) (h2 ++ post)).
  - simpl. exact Hhs.
  - destruct h2 as [|c h2]; [|exact Hh2].
    destruct post as [|c post]; [reflexivity|].
    simpl in Hpost |- *. apply Ascii.eqb_eq in Hpost. now subst c.
  - simpl. lia.
  - apply (rep_greedy_run _ h2 post).
    + exact Hh.
    + destruct post as [|c post]; [reflexivity|].
      simpl in Hpost |- *. now rewrite Hpost.
    + apply Nat.le_0_l.
    + now rewrite Hpost.
Qed.

(** Lines that do not begin with a hash sign are copied by the heading
    pattern. *)
Lemma sub_heading_prefix (repl pre X : string) :
  forall prev,
    line_starts "#" prev pre = false ->
    sub_from heading_line repl prev (pre ++ X) 0
    = pre ++ sub_from heading_line repl (last_of prev pre) X 0.
Proof.
  induction pre as [|c pre IH]; intros prev H; [reflexivity|].
  cbn [line_starts] in H. apply orb_false_iff in H as [H1 H2].
  cbn [append]. rewrite sub_copy.
  - rewrite (IH _ H2). now rewrite last_of_cons.
  - unfold heading_line. destruct (at_bol prev); [|reflexivity].
    cbn [andb startswith] in H1. rewrite andb_true_r in H1.
    cbn [rep_greedy Nat.eqb]. unfold is_hash at 1.
    rewrite Ascii.eqb_sym, H1. reflexivity.
Qed.

(** X18: a line that begins with a hash sign loses its characters, and
    only then are the runs of blank lines collapsed.  In a trimmed text
    without backquotes, with no line beginning with two asterisks and no
    other line beginning with a hash sign, the result is what the last
    pattern makes of the text without the characters of that line.  When
    this remaining text has no run of white space holding three line feeds
    it is the result: the line feed of the heading stays, and a heading on
    the first line leaves a result that begins with a line feed.  Between
    blank lines the emptied line is merged with them. *)
Theorem X18_heading_emptied (pre h post : string) :
  let text := pre ++ "#" ++ h ++ post in
  no_char "`" text = true -> strip text = text ->
  at_bol (last_of None pre) = true ->
  no_char "010" h = true -> at_eol post = true ->
  line_starts "**" None text = false ->
  line_starts "#" None pre = false ->
  line_starts "#" (Some "#"%char) post = false ->
  clean_sql_response text
  = sub (of_regex blank_lines) (nl ++ nl) (pre ++ post)
  /\ (search fl_none blank_lines (pre ++ post) = None ->
      clean_sql_response text = pre ++ post).
Proof.
  intros text Hq Hs Hbol Hh Hpost Hbold Hpre Hrest.
  assert (Hclean : clean_sql_response text
                   = sub (of_regex blank_lines) (nl ++ nl) (pre ++ post)).
  { unfold clean_sql_response. cbv zeta. unfold sub at 2 3 4 5.
    rewrite (sub_never _ _ text) by now apply never_backquote.
    rewrite (sub_never _ _ text) by now apply never_backquote.
    rewrite Hs.
    rewrite (sub_never bold_line) by now apply never_bold_line.
    assert (Hheading : sub_from heading_line "" None text 0 = pre ++ post).
    { unfold text. rewrite (sub_heading_prefix _ _ _ _ Hpre). f_equal.
      etransitivity.
      { apply (sub_match heading_line "" _ (String "#" h) post);
          [discriminate|].
        now apply heading_line_match. }
      cbn [append]. apply sub_never, never_heading_line.
      transitivity (line_starts "#" (Some "#"%char) post); [|exact Hrest].
      apply line_starts_prev.
      unfold last_of. destruct (last_char_some "#" h) as [c Hc]. rewrite Hc.
      assert (Hall : no_char "010" (String "#" h) = true) by exact Hh.
      apply (last_char_all _ _ c Hall) in Hc. cbn [at_bol].
      apply negb_true_iff in Hc. exact Hc. }
    now rewrite Hheading. }
  split; [exact Hclean|].
  intros Hblank. rewrite Hclean. apply sub_never. now apply never_search.
Qed.

Lemma X18_heading_emptied_witness :
  clean_sql_response ("## Schema" ++ nl ++ "CREATE TABLE a (x INT);")
  = nl ++ "CREATE TABLE a (x INT);"
  /\ clean_sql_response
       ("a" ++ nl ++ nl ++ "# h" ++ nl ++ nl ++ "b")
     = "a" ++ nl ++ nl ++ "b".
Proof.
  split.
  - apply (X18_heading_emptied "" "# Schema"
             (nl ++ "CREATE TABLE a (x INT);"));
      reflexivity.
  - exact (proj1 (X18_heading_emptied ("a" ++ nl ++ nl) " h" (nl ++ nl ++ "b")
                    eq_refl eq_refl eq_refl eq_refl eq_refl eq_refl eq_refl
                    eq_refl)).
Defined.

End CleanFacts.

(** ** Foreign-key definitions, well formed or not *)

Module ForeignKeyFacts.
Import Py PyFacts Re ReFacts Parse ParseFacts TextFacts MatchSteps.
Import ParseMore ParseMoreFacts.

Local Open Scope re_scope.

Lemma upper_lower_char (c : ascii) : upper_char (lower_char c) = upper_char c.
Proof. each_char c. Qed.

Lemma upper_lower (s : string) : upper (lower s) = upper s.
Proof.
  unfold upper, lower. induction s as [|c s IH]; [reflexivity|].
  cbn [smap]. now rewrite upper_lower_char, IH.
Qed.


(** What a literal matched under IGNORECASE is the literal in some letter
    case. *)
Lemma lit_keyword (fl : flags) (p s s' : string) :
  ignorecase fl = true -> lit fl p s = Some s' ->
  exists u, s = u ++ s' /\ upper u = upper p.
Proof.
  intros Hfl H. apply lit_sound in H as (u & -> & Hu & _).
  exists u. split; [reflexivity|]. unfold lit_eq in Hu. rewrite Hfl in Hu.
  now rewrite <- (upper_lower u), Hu, upper_lower.
Qed.

Lemma char_eq_open (fl : flags) (b : ascii) :
  char_eq fl "(" b = true -> b = "("%char.
Proof.
  unfold char_eq. destruct (ignorecase fl); intros H.
  - revert H.
    destruct b as [[] [] [] [] [] [] [] []]; vm_compute; intros H;
      (reflexivity || discriminate H).
  - now apply Ascii.eqb_eq in H.
Qed.

Lemma lit_open (fl : flags) (s s' : string) :
  lit fl "(" s = Some s' -> s = "(" ++ s'.
Proof.
  destruct s as [|b s]; [discriminate|]. cbn [lit].
  destruct (char_eq fl "(" b) eqn:E; [|discriminate].
  apply char_eq_open in E. subst b. intros H. now injection H as ->.
Qed.

Lemma lit_close (fl : flags) (s s' : string) :
  lit fl ")" s = Some s' -> s = ")" ++ s'.
Proof.
  destruct s as [|b s]; [discriminate|]. cbn [lit].
  destruct (char_eq fl ")" b) eqn:E; [|discriminate].
  apply char_eq_close in E. subst b. intros H. now injection H as ->.
Qed.

Ltac keyword_inv H u Hu :=
  match type of H with
  | match lit ?fl ?p ?s with _ => _ end = Some _ =>
      let E := fresh "E" in
      let s' := fresh "s" in
      destruct (lit fl p s) as [s'|] eqn:E; [|discriminate H];
      apply (lit_keyword fl p s s' eq_refl) in E as (u & -> & Hu)
  end.

Ltac open_inv H :=
  match type of H with
  | match lit ?fl "(" ?s with _ => _ end = Some _ =>
      let E := fresh "E" in
      let s' := fresh "s" in
      destruct (lit fl "(" s) as [s'|] eqn:E; [|discriminate H];
      apply lit_open in E; subst s
  end.

Ltac close_inv H :=
  match type of H with
  | match lit ?fl ")" ?s with _ => _ end = Some _ =>
      let E := fresh "E" in
      let s' := fresh "s" in
      destruct (lit fl ")" s) as [s'|] eqn:E; [|discriminate H];
      apply lit_close in E; subst s
  end.

Lemma blanks_of_run (fl : flags) (u : string) :
  all_chars (in_class fl Space) u = true -> 1 <= String.length u ->
  blanks u.
Proof.
  intros Hu Hm. split; [|exact Hu]. intros ->. simpl in Hm. lia.
Qed.

(** What the foreign-key pattern matches is a foreign-key clause, and its
    groups are the three names of the clause. *)
Lemma foreign_key_match_clause (t rest : string) (caps : captures) :
  match_here fl_icase foreign_key_pattern t = Some (rest, caps) ->
  exists s fc tb tc,
    t = s ++ rest /\ foreign_key_clause s fc tb tc
    /\ group 1 caps = fc /\ group 2 caps = tb /\ group 3 caps = tc.
Proof.
  unfold match_here, foreign_key_pattern. intros H. cbn [rmatch] in H.
  keyword_inv H F HF. rep_inv H ws0 Hws0 Hn0.
  keyword_inv H K HK. rep_inv H ws1 Hws1 Hn1.
  open_inv H. rep_inv H fc Hfc Hmfc. close_inv H.
  rep_inv H ws2 Hws2 Hn2. keyword_inv H R HR. rep_inv H ws3 Hws3 Hn3.
  rep_inv H tb Htb Hmtb. rep_inv H ws4 Hws4 Hn4. open_inv H.
  rep_inv H tc Htc Hmtc. close_inv H.
  injection H as <- <-. cbn [group Nat.eqb]. rewrite !consumed_append.
  exists ((F ++ ws0 ++ K ++ ws1 ++ "(" ++ fc ++ ")") ++ ws2
          ++ (R ++ ws3 ++ tb ++ ws4 ++ "(" ++ tc ++ ")")), fc, tb, tc.
  split; [now rewrite !append_assoc|]. split; [|auto].
  exists (F ++ ws0 ++ K ++ ws1 ++ "(" ++ fc ++ ")"), ws2,
         (R ++ ws3 ++ tb ++ ws4 ++ "(" ++ tc ++ ")").
  split; [reflexivity|]. split; [|split; [exact Hws2|]].
  - exists F, ws0, K, ws1. split; [reflexivity|].
    split; [exact HF|]. split; [exact HK|].
    split; [now apply (blanks_of_run fl_icase)|].
    split; [exact Hws1 | now apply (word_name_of_run fl_icase)].
  - exists R, ws3, ws4. split; [reflexivity|]. split; [exact HR|].
    split; [now apply (blanks_of_run fl_icase)|].
    split; [exact Hws4|].
    split; now apply (word_name_of_run fl_icase).
Qed.

Lemma search_match_suffix (fl : flags) (r : regex) (s : string)
    (caps : captures) :
  search fl r s = Some caps ->
  exists pre t rest, s = pre ++ t /\ match_here fl r t = Some (rest, caps).
Proof.
  induction s as [|c s IH]; cbn [search].
  - destruct (match_here fl r "") as [[rest caps']|] eqn:E; [|discriminate].
    intros H. injection H as <-. now exists "", "", rest.
  - destruct (match_here fl r (String c s)) as [[rest caps']|] eqn:E.
    + intros H. injection H as <-. now exists "", (String c s), rest.
    + intros H. destruct (IH H) as (pre & t & rest & -> & Ht).
      now exists (String c pre), t, rest.
Qed.

(** Where the pattern matches somewhere, the search finds a match. *)
Lemma search_finds (fl : flags) (r : regex) (pre t : string)
    (x : string * captures) :
  match_here fl r t = Some x ->
  exists caps, search fl r (pre ++ t) = Some caps.
Proof.
  intros H. induction pre as [|c pre IH].
  - destruct x as [rest caps]. exists caps. cbn [append].
    now apply (search_here _ _ _ rest).
  - cbn [append search].
    destruct (match_here fl r (String c (pre ++ t))) as [[rest caps]|];
      [now exists caps | exact IH].
Qed.

(** Without a foreign-key clause the pattern finds nothing. *)
Lemma no_clause_no_match (line : string) :
  ~ has_foreign_key_clause line ->
  search fl_icase foreign_key_pattern line = None.
Proof.
  intros Hno.
  destruct (search fl_icase foreign_key_pattern line) as [caps|] eqn:E;
    [|reflexivity].
  exfalso. apply Hno.
  apply search_match_suffix in E as (pre & t & rest & -> & Ht).
  apply foreign_key_match_clause in Ht as (s & fc & tb & tc & -> & Hs & _).
  now exists pre, s, rest, fc, tb, tc.
Qed.

(** A foreign-key clause holds a REFERENCES clause. *)
Lemma clause_has_references (line : string) :
  has_foreign_key_clause line -> has_references_clause line.
Proof.
  intros (pre & s & rest & fc & tb & tc & -> & k & ws2 & r & -> & _ & _ & Hr).
  exists (pre ++ k ++ ws2), r, rest, tb, tc.
  split; [now rewrite !append_assoc | exact Hr].
Qed.

(** With a foreign-key clause the pattern finds a match. *)
Lemma clause_matches (line : string) :
  has_foreign_key_clause line ->
  exists caps, search fl_icase foreign_key_pattern line = Some caps.
Proof.
  intros (pre & s & rest & fc & tb & tc & -> & k & ws2 & r & -> & Hk & Hws2
          & Hr).
  destruct Hk as (F & ws0 & K & ws1 & -> & HF & HK & Hws0 & Hws1 & Hfc).
  destruct Hr as (R & ws3 & ws4 & -> & HR & Hws3 & Hws4 & Htb & Htc).
  apply (search_finds _ _ pre _ (rest, [(3, tc); (2, tb); (1, fc)])).
  rewrite !append_assoc.
  now apply foreign_key_match_blanks.
Qed.

(** C8: a definition that starts with FOREIGN KEY (in any letter case) and
    holds no well-formed REFERENCES clause - the word REFERENCES, white
    space, a table name and a column name in parentheses - is dropped:
    the attributes, the columns and the relationships stay as they were,
    and the definitions around it are processed as if it were absent.  So
    is, more generally, every such definition that holds no whole
    foreign-key clause, and in particular one without the word REFERENCES.
    A definition that does hold a foreign-key clause is not dropped: it
    adds a relationship and nothing else. *)
Theorem C8_malformed_foreign_key_dropped (tn : string)
    (before after : list string) (line : string) :
  startswith "FOREIGN KEY" (upper (strip line)) = true ->
  let dropped :=
    (forall st, def_step tn st line = st)
    /\ (forall st,
          fold_left (def_step tn) (List.app before (line :: after)) st
          = fold_left (def_step tn) (List.app before after) st) in
  (~ has_references_clause (strip line) -> dropped)
  /\ (~ has_foreign_key_clause (strip line) -> dropped)
  /\ (contains "references" (lower (strip line)) = false -> dropped)
  /\ (has_foreign_key_clause (strip line) ->
      forall a c r, exists fc tb tc,
        def_step tn (a, c, r) line
        = (a, c, List.app r [mkRel tn fc tb tc])).
Proof.
  intros Hfk dropped.
  assert (Hnone : search fl_icase foreign_key_pattern (strip line) = None ->
                  dropped).
  { intros Hnone.
    assert (Hdrop : forall st, def_step tn st line = st).
    { intros [[a c] r]. rewrite def_step_foreign_key by assumption.
      now rewrite Hnone. }
    split; [exact Hdrop|]. intros st. now apply fold_left_skip. }
  split; [|split; [|split]].
  - intros Hno. apply Hnone, no_clause_no_match.
    intros H. now apply Hno, clause_has_references.
  - intros Hno. now apply Hnone, no_clause_no_match.
  - intros Hno. now apply Hnone, foreign_key_needs_references.
  - intros Hclause a c r. destruct (clause_matches _ Hclause) as [caps Hc].
    exists (group 1 caps), (group 2 caps), (group 3 caps).
    rewrite def_step_foreign_key by assumption. now rewrite Hc.
Qed.

Lemma C8_malformed_foreign_key_dropped_witness :
  fold_left (def_step "Borrowings")
            ["Borrowing_ID INTEGER PRIMARY KEY";
             "FOREIGN KEY (Student_ID)";
             "Student_ID INTEGER"] ([], [], [])
  = (["Borrowing_ID"; "Student_ID"],
     [ColDict "Borrowing_ID" "INTEGER"; ColDict "Student_ID" "INTEGER"],
     []).
Proof.
  rewrite (proj2 (proj1 (proj2 (proj2
             (C8_malformed_foreign_key_dropped
                "Borrowings" ["Borrowing_ID INTEGER PRIMARY KEY"]
                ["Student_ID INTEGER"] "FOREIGN KEY (Student_ID)"
                eq_refl))) eq_refl)).
  reflexivity.
Defined.

End ForeignKeyFacts.

(** ** Text that is skipped, and text that is not *)

Module SkipFacts.
Import Py PyFacts Re ReFacts Parse ParseFacts TextFacts MatchSteps.
Import ParseMore ParseMoreFacts ForeignKeyFacts.

Local Open Scope re_scope.












End SkipFacts.
